(** * conn2m: the navi2move link protocol and record codecs

    A shallow embedding of [conn2m.py]: the checksummed command channel,
    the chunked bulk transfer (receive and send side), the binary codecs of
    points of interest and routes, track splitting and the validated
    configuration setters.

    Conventions.
    - A Python [bytes] object is a [list Z] whose elements lie in [0, 256).
    - A Python [str] used as text to be encoded (a route point name) is the
      list of its code points; a [str] used as a key or an option value is a
      [string].
    - Code that can raise returns a [result]; code that talks to the serial
      port threads the port through a state monad. *)

From Stdlib Require Import ZArith List Lia Bool String Ascii DecimalString.
From stdpp Require Import gmap strings.
Import ListNotations.
Open Scope Z_scope.

(** ** Exceptions and results *)

(** The exception classes of the program ([Error] and its subclasses) and the
    built-in ones its code can run into.  [OutOfScript] is not a Python
    exception: it marks a simulated port whose script of device events ended
    before the call returned. *)
Inductive exn : Type :=
| Error | EndOfTransmission | BadResponse | BadChecksum | UnsupportedValue
| TimeoutError
| IndexError | ValueError | TypeError | AttributeError | KeyError
| StructError | UnicodeError | SystemExit | OutOfScript.

Inductive result (A : Type) : Type :=
| Ok (a : A)
| Raise (e : exn).
Arguments Ok {A} a.
Arguments Raise {A} e.

Definition rbind {A B : Type} (r : result A) (k : A -> result B) : result B :=
  match r with
  | Ok a => k a
  | Raise e => Raise e
  end.

Declare Scope res_scope.
Delimit Scope res_scope with res.
Notation "'try!' x <- r ; k" := (rbind r (fun x => k))
  (at level 10, x name, r at level 100, k at level 200) : res_scope.
Open Scope res_scope.

(** [isinstance(e, BadResponse)]: [BadChecksum] is a subclass of
    [BadResponse]. *)
Definition is_BadResponse (e : exn) : bool :=
  match e with BadResponse | BadChecksum => true | _ => false end.

(** Monadic map over a list, stopping at the first exception, as a list
    comprehension does. *)
Fixpoint mapM {A B : Type} (f : A -> result B) (l : list A) : result (list B) :=
  match l with
  | [] => Ok []
  | a :: l' => try! b <- f a; try! bs <- mapM f l'; Ok (b :: bs)
  end.

(** ** Python sequences *)

Abbreviation bytes := (list Z).

Definition is_byte (b : Z) : Prop := 0 <= b < 256.
Definition is_byteb (b : Z) : bool := (0 <=? b) && (b <? 256).

(** [bytes(seq)] of a sequence of integers: [ValueError] unless every
    element is in [range(0, 256)]. *)
Definition py_bytes (l : list Z) : result bytes :=
  if forallb is_byteb l then Ok l else Raise ValueError.

Section Sequences.
Context {A : Type}.

(** [l[a:b]] for non-negative [a] and [b]. *)
Definition slice (a b : nat) (l : list A) : list A :=
  firstn (b - a) (skipn a l).

(** [l[-k:]] and [l[:-k]] for positive [k]. *)
Definition slice_last (k : nat) (l : list A) : list A :=
  skipn (length l - k) l.
Definition slice_but_last (k : nat) (l : list A) : list A :=
  firstn (length l - k) l.

(** [l[i]] for a non-negative [i]. *)
Definition index (i : nat) (l : list A) : result A :=
  match nth_error l i with
  | Some a => Ok a
  | None => Raise IndexError
  end.

(** [l[-k]] for positive [k]. *)
Definition index_neg (k : nat) (l : list A) : result A :=
  if (length l <? k)%nat then Raise IndexError
  else index (length l - k) l.

(** The number of elements of [range(0, stop, step)] for positive [step]. *)
Definition range_len (stop step : nat) : nat :=
  ((stop + step - 1) / step)%nat.

(** [[l[i:i+n] for i in range(0, len(l), n)]] for positive [n]. *)
Definition chop (n : nat) (l : list A) : list (list A) :=
  map (fun k => slice (k * n) (k * n + n) l) (seq 0 (range_len (length l) n)).

(** The same comprehension for any [n]: [range] refuses a zero step. *)
Definition chop_checked (n : nat) (l : list A) : result (list (list A)) :=
  if (n =? 0)%nat then Raise ValueError else Ok (chop n l).

(** [l[-1]], and [l[-1] = x] on a non-empty list. *)
Definition last_opt (l : list A) : option A :=
  match rev l with
  | [] => None
  | a :: _ => Some a
  end.

Definition set_last (x : A) (l : list A) : list A :=
  removelast l ++ [x].
End Sequences.

(** [sum(l)] of a sequence of integers. *)
Definition sum (l : list Z) : Z := fold_left Z.add l 0.

(** ** Track.split *)

Section TrackSplit.
(** [Track.split] reads only the [timestamp] attribute of a point. *)
Variable point : Type.
Variable timestamp : point -> Z.

Record Track : Type := mkTrack { points : list point }.

(** The body of the [for] loop, on the pair ([tracks], [curTrack]). *)
Definition split_step (minTimeDiff : Z) (st : list (list point) * list point)
    (p : point) : list (list point) * list point :=
  let (tracks, curTrack) := st in
  match last_opt curTrack with
  | None => (tracks, curTrack ++ [p])
  | Some q =>
      if timestamp p - timestamp q <? minTimeDiff
      then (tracks, curTrack ++ [p])
      else (tracks ++ [curTrack], [p])
  end.

(** The loop and its [else] clause, which runs when the loop is exhausted
    (there is no [break]). *)
Definition split_sections (minTimeDiff : Z) (pts : list point) : list (list point) :=
  let (tracks, curTrack) := fold_left (split_step minTimeDiff) pts ([], []) in
  tracks ++ [curTrack].

Definition split (self : Track) (minTimeDiff : Z) : list Track :=
  map mkTrack (split_sections minTimeDiff (points self)).

(** The sections read off from the front: [runs d prev pts] is the rest of
    the section that [prev] belongs to, and the sections after it. *)
Fixpoint runs (d : Z) (prev : point) (pts : list point)
    : list point * list (list point) :=
  match pts with
  | [] => ([], [])
  | p :: ps =>
      let (r, rs) := runs d p ps in
      if timestamp p - timestamp prev <? d then (p :: r, rs)
      else ([], (p :: r) :: rs)
  end.

(** Every gap between neighbours of a section is below the threshold. *)
Fixpoint gaps_below (d : Z) (l : list point) : Prop :=
  match l with
  | p :: ((q :: _) as l') => timestamp q - timestamp p < d /\ gaps_below d l'
  | _ => True
  end.

(** Neighbouring sections are separated by a gap of at least the
    threshold. *)
Fixpoint gaps_between (d : Z) (ls : list (list point)) : Prop :=
  match ls with
  | s :: ((s' :: _) as ls') =>
      (match last_opt s, s' with
       | Some p, q :: _ => d <= timestamp q - timestamp p
       | _, _ => False
       end) /\ gaps_between d ls'
  | _ => True
  end.
End TrackSplit.
Arguments mkTrack {point} points.
Arguments points {point} t.
Arguments split {point} timestamp self minTimeDiff.
Arguments split_sections {point} timestamp minTimeDiff pts.
Arguments runs {point} timestamp d prev pts.
Arguments gaps_below {point} timestamp d l.
Arguments gaps_between {point} timestamp d ls.

(** The default threshold of [Track.split]. *)
Definition default_minTimeDiff : Z := 3600.

(** ** NaviConnection.parseChunks *)

(** [l[:k]] and [l[k:]] for an integer [k] of either sign. *)
Definition slice_to {A : Type} (k : Z) (l : list A) : list A :=
  if k <? 0 then firstn (length l - Z.to_nat (- k)) l else firstn (Z.to_nat k) l.
Definition slice_from {A : Type} (k : Z) (l : list A) : list A :=
  if k <? 0 then skipn (length l - Z.to_nat (- k)) l else skipn (Z.to_nat k) l.

(** [set(l) == set([0xff, ])]: [l] is not empty and holds nothing but 0xff. *)
Definition all_ff (l : bytes) : bool :=
  match l with
  | [] => false
  | _ => forallb (Z.eqb 255) l
  end.

(** The test that ends a chunk: [len(l) <= pointLen and set(l) == set([0xff, ])]. *)
Definition is_padding (pointLen : nat) (l : bytes) : bool :=
  (length l <=? pointLen)%nat && all_ff l.

(** The inner loop: append lines up to the first padding line, then [break]. *)
Fixpoint append_lines (pointLen : nat) (pointLines lines : list bytes) : list bytes :=
  match lines with
  | [] => pointLines
  | l :: ls =>
      if is_padding pointLen l then pointLines
      else append_lines pointLen (pointLines ++ [l]) ls
  end.

(** The first statement of the outer loop: an incomplete last line takes
    its missing bytes from the front of the chunk. *)
Definition complete_last (pointLen : nat) (pointLines : list bytes) (chunk : bytes)
    : list bytes * bytes :=
  match last_opt pointLines with
  | Some lastLine =>
      if (length lastLine =? pointLen)%nat then (pointLines, chunk)
      else
        let numOfStripBytes := Z.of_nat pointLen - Z.of_nat (length lastLine) in
        (set_last (lastLine ++ slice_to numOfStripBytes chunk) pointLines,
         slice_from numOfStripBytes chunk)
  | None => (pointLines, chunk)
  end.

Definition parseChunks_step (pointLen : nat) (pointLines : list bytes) (chunk : bytes)
    : result (list bytes) :=
  let (pointLines', chunk') := complete_last pointLen pointLines chunk in
  try! lines <- chop_checked pointLen chunk';
  Ok (append_lines pointLen pointLines' lines).

Fixpoint parseChunks_loop (pointLen : nat) (pointLines : list bytes) (chunks : list bytes)
    : result (list bytes) :=
  match chunks with
  | [] => Ok pointLines
  | chunk :: rest =>
      try! pointLines' <- parseChunks_step pointLen pointLines chunk;
      parseChunks_loop pointLen pointLines' rest
  end.

(** [parseChunks(chunks, pointLen)] with [dumpRaw] left at [False] (the dump
    writes a file and does not change the result). *)
Definition parseChunks (chunks : list bytes) (pointLen : nat) : result (list bytes) :=
  parseChunks_loop pointLen [] chunks.

(** The lines that the inner loop tests in a chunk [c] that comes behind
    [off] bytes of payload begin at the record-aligned offsets [j * n] of the
    payload and end with the record or, if that comes first, with the chunk.
    [chunk_clean]: none of them consists of 0xff only; [no_padding_line]: so
    it is in every chunk. *)
Definition chunk_clean (n off : nat) (c : bytes) : Prop :=
  forall j : nat, (off <= j * n < off + length c)%nat ->
    all_ff (firstn n (skipn (j * n - off) c)) = false.
Fixpoint no_padding_line (n off : nat) (chunks : list bytes) : Prop :=
  match chunks with
  | [] => True
  | c :: cs => chunk_clean n off c /\ no_padding_line n (off + length c) cs
  end.

(** Every record-aligned offset of the payload holds a byte other than
    0xff. *)
Definition record_starts_clean (n : nat) (data : bytes) : Prop :=
  forall j : nat, (j * n < length data)%nat -> nth (j * n) data 0 <> 255.

(** What may follow the payload [c] of a chunk that comes behind the payload
    [D]: nothing, or a run of 0xff when [D ++ c] ends on a record
    boundary. *)
Definition trailing_pad (n : nat) (D c pad : bytes) : Prop :=
  pad = [] \/ exists q k : nat, length (D ++ c) = (q * n)%nat /\ pad = repeat 255 k.

(** ** NaviConnection.makeChunks *)

(** The body of the [enumerate] loop. *)
Definition frame_chunk (ind : nat) (chunk : bytes) : result bytes :=
  try! header <- py_bytes [2; Z.of_nat ind + 1; 255 - Z.of_nat ind - 1];
  try! checksum <- py_bytes [Z.land (sum chunk) 255];
  Ok (header ++ chunk ++ checksum).

Fixpoint frame_chunks (ind : nat) (chunks : list bytes) : result (list bytes) :=
  match chunks with
  | [] => Ok []
  | chunk :: rest =>
      try! f <- frame_chunk ind chunk;
      try! fs <- frame_chunks (S ind) rest;
      Ok (f :: fs)
  end.

Definition makeChunks (data : bytes) : result (list bytes) :=
  let chunks := chop 1024 data in
  try! lastChunk <- index_neg 1 chunks;
  let fillFFs := repeat 255 (1024 - length lastChunk) in
  let chunks := set_last (lastChunk ++ fillFFs) chunks in
  frame_chunks 0 chunks.

(** The [i]-th 1024-byte piece of the payload (from 0), filled up with 0xff. *)
Definition padded_chunk (data : bytes) (i : nat) : bytes :=
  let c := slice (i * 1024) (i * 1024 + 1024) data in
  c ++ repeat 255 (1024 - length c).

(** ** Checksums of the command channel and of the chunks *)

(** An ASCII literal as [bytes]. *)
Definition b_ (s : string) : bytes :=
  map (fun c => Z.of_N (N_of_ascii c)) (list_ascii_of_string s).

(** [s.startswith(prefix)]. *)
Definition startswith (prefix s : bytes) : bool :=
  bool_decide (firstn (length prefix) s = prefix).

(** [bytes.upper]: ASCII lower-case letters become upper-case. *)
Definition upper_byte (b : Z) : Z :=
  if (97 <=? b) && (b <=? 122) then b - 32 else b.
Definition upper (s : bytes) : bytes := map upper_byte s.

(** [bytes.strip()]: ASCII whitespace is removed from both ends. *)
Definition is_space (b : Z) : bool :=
  ((9 <=? b) && (b <=? 13)) || (b =? 32).
Fixpoint lstrip (s : bytes) : bytes :=
  match s with
  | b :: s' => if is_space b then lstrip s' else s
  | [] => []
  end.
Definition strip (s : bytes) : bytes := rev (lstrip (rev (lstrip s))).

(** The two digits of ["{:0>2x}".format(c)] for [0 <= c < 256], the range
    of an XOR of bytes. *)
Definition hexdigit (d : Z) : Z := if d <? 10 then 48 + d else 87 + d.
Definition format_02x (c : Z) : bytes := [hexdigit (c / 16); hexdigit (c mod 16)].

Definition xor_all (s : bytes) : Z := fold_left Z.lxor s 0.

Definition calcNMEAChecksum (string : bytes) (stripDollar : bool) : bytes :=
  let string :=
    if stripDollar && startswith (b_ "$") string then skipn 1 string else string in
  upper (format_02x (xor_all string)).

Definition checkNMEAChecksum (respString : bytes) : result unit :=
  let respString := strip respString in
  let respString :=
    if startswith (b_ "$") respString then skipn 1 respString else respString in
  try! star <- index_neg 3 respString;
  if negb (star =? 42) then Raise BadChecksum
  else
    let message := slice_but_last 3 respString in
    let checksum := upper (slice_last 2 respString) in
    let expectedChecksum := upper (calcNMEAChecksum message false) in
    if bool_decide (checksum = expectedChecksum) then Ok tt else Raise BadChecksum.

(** crcmod's predefined CRC [xmodem]: polynomial 0x11021, initial value 0,
    no reflection, no final XOR; [digest()] is the 16-bit value, high byte
    first. *)
Definition crc_shift (crc : Z) : Z :=
  let shifted := Z.land (Z.shiftl crc 1) 65535 in
  if Z.testbit crc 15 then Z.lxor shifted 4129 else shifted.
Definition crc_update (crc b : Z) : Z :=
  Nat.iter 8 crc_shift (Z.lxor crc (Z.shiftl b 8)).
Definition crc16_xmodem (string : bytes) : Z := fold_left crc_update string 0.
Definition calcCrcChecksum (string : bytes) : bytes :=
  let c := crc16_xmodem string in [c / 256; c mod 256].

Definition checkCrcChecksum (string checksum : bytes) : result unit :=
  if bool_decide (calcCrcChecksum string = checksum) then Ok tt else Raise BadChecksum.

(** [getDataChunk] behind its read: [resp] is what the port delivered. *)
Definition getDataChunk_resp (resp : bytes) : result bytes :=
  match resp with
  | [] => Ok []
  | first :: _ =>
      if first =? 4 then Raise EndOfTransmission
      else if first =? 2 then
        let payload := slice_but_last 2 (skipn 3 resp) in
        let crc := slice_last 2 resp in
        try! _ <- checkCrcChecksum payload crc; Ok payload
      else Raise Error
  end.

(** ** The serial port *)

(** The simulated port: [rx_lines] are the results of the coming
    [readline()] calls and [rx_bytes] those of the coming [read(1)] calls
    ([None] is a read that timed out and returned no byte); [clock n] is what
    the [n]-th call of [time.time()] returns, in milliseconds, and [ticks]
    counts these calls; [tx] lists the writes. *)
Record Port : Type := mkPort {
  rx_lines : list bytes;
  rx_bytes : list (option Z);
  clock : nat -> Z;
  ticks : nat;
  tx : list bytes;
  baudrate : Z;
  breaks : nat
}.

Definition M (S A : Type) : Type := S -> result A * S.

Definition ret {S A : Type} (a : A) : M S A := fun s => (Ok a, s).
Definition raise {S A : Type} (e : exn) : M S A := fun s => (Raise e, s).
Definition bind {S A B : Type} (m : M S A) (k : A -> M S B) : M S B :=
  fun s =>
    match m s with
    | (Ok a, s') => k a s'
    | (Raise e, s') => (Raise e, s')
    end.
Definition lift {S A : Type} (r : result A) : M S A := fun s => (r, s).

Notation "'do!' x <- m ; k" := (bind m (fun x => k))
  (at level 10, x name, m at level 100, k at level 200) : res_scope.
Notation "m ;; k" := (bind m (fun _ => k))
  (at level 100, k at level 200, right associativity) : res_scope.

Definition readline : M Port bytes := fun p =>
  match rx_lines p with
  | l :: ls =>
      (Ok l, mkPort ls (rx_bytes p) (clock p) (ticks p) (tx p) (baudrate p) (breaks p))
  | [] => (Raise OutOfScript, p)
  end.

(** [readBytes(1)]. *)
Definition readByte : M Port (option Z) := fun p =>
  match rx_bytes p with
  | b :: bs =>
      (Ok b, mkPort (rx_lines p) bs (clock p) (ticks p) (tx p) (baudrate p) (breaks p))
  | [] => (Raise OutOfScript, p)
  end.

Definition time_time : M Port Z := fun p =>
  (Ok (clock p (ticks p)),
   mkPort (rx_lines p) (rx_bytes p) (clock p) (S (ticks p)) (tx p) (baudrate p) (breaks p)).

Definition write (string : bytes) : M Port unit := fun p =>
  (Ok tt,
   mkPort (rx_lines p) (rx_bytes p) (clock p) (ticks p) (tx p ++ [string])
     (baudrate p) (breaks p)).

Definition setBaudrate (b : Z) : M Port unit := fun p =>
  (Ok tt,
   mkPort (rx_lines p) (rx_bytes p) (clock p) (ticks p) (tx p) b (S (breaks p))).

(** [sendRawCommand] of a [bytes] object: [bytes(command)] is that object,
    which is written and flushed; the sleep leaves no trace in the port. *)
Definition sendRawCommand (command : bytes) : M Port unit := write command.

Definition sendCommand (command : bytes) : M Port unit :=
  sendRawCommand (command ++ b_ "*" ++ calcNMEAChecksum command true ++ [13; 10]).

Definition getResponse (checkChecksum : bool) (expectedResponse : option bytes)
    : M Port bytes :=
  do! resp <- readline;
  (if checkChecksum then lift (checkNMEAChecksum resp) else ret tt) ;;
  match expectedResponse with
  | Some ((_ :: _) as expected) =>
      if negb (startswith expected resp) then raise BadResponse else ret resp
  | _ => ret resp
  end.

(** The [while True] loop of [waitForAcknowledge]; every round reads from
    the port, so the length of the script bounds the rounds. *)
Fixpoint wait_loop (fuel : nat) (startTime timeout : Z) : M Port bool :=
  match fuel with
  | O => raise OutOfScript
  | S fuel' =>
      do! resp <- readByte;
      let otherwise :=
        do! now <- time_time;
        if now - startTime >? timeout then raise TimeoutError
        else wait_loop fuel' startTime timeout in
      match resp with
      | Some b =>
          if b =? 21 then ret false
          else if b =? 6 then ret true
          else otherwise
      | None => otherwise
      end
  end.

(** The [try] block of [waitForAcknowledge]. *)
Definition wait_body (timeout : Z) : M Port bool :=
  do! startTime <- time_time;
  fun p => wait_loop (S (length (rx_bytes p))) startTime timeout p.

(** The handler of [except TimeoutError as msg].  Its first statement
    evaluates [msg + "\n"], the sum of an exception object and a [str],
    which raises [TypeError]; the [sys.exit(1)] behind it is not reached. *)
Definition timeout_handler : M Port bool := raise TypeError.

Definition waitForAcknowledge (timeout : Z) : M Port bool := fun p =>
  match wait_body timeout p with
  | (Raise TimeoutError, p') => timeout_handler p'
  | r => r
  end.

(** The default [timeout=10.0] seconds. *)
Definition default_timeout : Z := 10000.

(** [resp = False; while resp is False: ...] for one chunk; every round
    reads from the port. *)
Fixpoint send_chunk (fuel : nat) (chunk : bytes) : M Port unit :=
  match fuel with
  | O => raise OutOfScript
  | S fuel' =>
      sendRawCommand chunk ;;
      do! resp <- waitForAcknowledge default_timeout;
      if resp then ret tt else send_chunk fuel' chunk
  end.

Fixpoint send_chunks (dataChunks : list bytes) : M Port unit :=
  match dataChunks with
  | [] => ret tt
  | chunk :: rest =>
      (fun p => send_chunk (S (length (rx_bytes p))) chunk p) ;;
      send_chunks rest
  end.

Definition sendData (initMessage : bytes) (data : bytes) (checkChecksum : bool)
    : M Port unit :=
  sendCommand initMessage ;;
  getResponse checkChecksum (Some (b_ "$POEM200,12")) ;;
  setBaudrate 115200 ;;
  do! dataChunks <- lift (makeChunks data);
  waitForAcknowledge default_timeout ;;
  send_chunks dataChunks ;;
  sendRawCommand [4] ;;
  do! resp <- waitForAcknowledge default_timeout;
  (if resp then ret tt else raise Error) ;;
  setBaudrate 9600.

(** The port after [n] further readings of the clock, the writes [ws] and
    with [bs] left to read. *)
Definition port_after (p : Port) (n : nat) (ws : list bytes) (bs : list (option Z)) : Port :=
  mkPort (rx_lines p) bs (clock p) (ticks p + n) (tx p ++ ws) (baudrate p) (breaks p).

Definition not_ack (o : option Z) : Prop := o <> Some 6 /\ o <> Some 21.

(** A port at 9600 baud with a script of lines and of bytes, nothing
    written yet, whose clock advances by [step] milliseconds per reading. *)
Definition scripted_port (lines : list bytes) (bs : list (option Z)) (step : Z) : Port :=
  mkPort lines bs (fun n => Z.of_nat n * step) 0 [] 9600 0.

(** The acknowledge bytes of a chunk that is refused [k] times and then
    accepted, and what is written for a chunk sent [k + 1] times. *)
Definition acks_of (k : nat) : list (option Z) := repeat (Some 21) k ++ [Some 6].
Fixpoint writes_of (frames : list bytes) (ks : list nat) : list bytes :=
  match frames, ks with
  | f :: fs, k :: ks' => repeat f (S k) ++ writes_of fs ks'
  | _, _ => []
  end.

(** ** struct: little-endian integers *)

(** The [n] low bytes of [u], lowest first, and the value of a byte
    sequence read that way. *)
Fixpoint le_bytes (n : nat) (u : Z) : bytes :=
  match n with
  | O => []
  | S n' => u mod 256 :: le_bytes n' (u / 256)
  end.
Fixpoint le_value (b : bytes) : Z :=
  match b with
  | [] => 0
  | x :: b' => x + 256 * le_value b'
  end.

(** [struct.pack] of one unsigned ([B], [H], [I]) or signed ([h], [i])
    integer of [n] bytes: [struct.error] outside the range of the format. *)
Definition pack_unsigned (n : nat) (v : Z) : result bytes :=
  if (0 <=? v) && (v <? 256 ^ Z.of_nat n) then Ok (le_bytes n v)
  else Raise StructError.
Definition pack_signed (n : nat) (v : Z) : result bytes :=
  let half := 256 ^ Z.of_nat n / 2 in
  if (- half <=? v) && (v <? half) then Ok (le_bytes n (v mod 256 ^ Z.of_nat n))
  else Raise StructError.

Definition to_signed (n : nat) (u : Z) : Z :=
  if u <? 256 ^ Z.of_nat n / 2 then u else u - 256 ^ Z.of_nat n.

(** [struct.unpack] of [k] integers of [n] bytes each: [struct.error]
    unless the buffer has exactly [k * n] bytes. *)
Definition unpack_unsigned (n k : nat) (b : bytes) : result (list Z) :=
  if (length b =? k * n)%nat then Ok (map le_value (chop n b))
  else Raise StructError.
Definition unpack_signed (n k : nat) (b : bytes) : result (list Z) :=
  try! us <- unpack_unsigned n k b; Ok (map (to_signed n) us).

(** A number attribute of a record.  The codecs hold integers when a record
    comes from the import adapter and floats when it comes from the wire; a
    float is kept as the expression that made it: [DivE5 i] is [i / 1e5],
    [MulEm5 i] is [i * 1e-5]. *)
Inductive number : Type :=
| Int (i : Z)
| DivE5 (i : Z)
| MulEm5 (i : Z).

(** [struct.pack("<i", v)]: a float is refused (required argument is not an
    integer). *)
Definition pack_i (v : number) : result bytes :=
  match v with
  | Int i => pack_signed 4 i
  | _ => Raise StructError
  end.

(** ** UTF-16 *)

(** A [str] as the list of its code points. *)
Abbreviation str := (list Z).

Definition is_high_surrogate (u : Z) : bool := (55296 <=? u) && (u <=? 56319).
Definition is_low_surrogate (u : Z) : bool := (56320 <=? u) && (u <=? 57343).
Definition is_surrogate (u : Z) : bool := (55296 <=? u) && (u <=? 57343).

Definition encode_char (cp : Z) : result bytes :=
  if is_surrogate cp then Raise UnicodeError
  else if cp <? 65536 then Ok (le_bytes 2 cp)
  else
    let v := cp - 65536 in
    Ok (le_bytes 2 (55296 + v / 1024) ++ le_bytes 2 (56320 + v mod 1024)).

(** [s.encode("utf-16-le")]. *)
Definition encode_utf16le (s : str) : result bytes :=
  try! bs <- mapM encode_char s; Ok (concat bs).

(** [b.decode("utf-16-le")]. *)
Fixpoint decode_utf16le (b : bytes) : result str :=
  match b with
  | [] => Ok []
  | [_] => Raise UnicodeError
  | lo :: hi :: rest =>
      let u := lo + 256 * hi in
      if is_low_surrogate u then Raise UnicodeError
      else if is_high_surrogate u then
        match rest with
        | lo2 :: hi2 :: rest' =>
            let u2 := lo2 + 256 * hi2 in
            if is_low_surrogate u2 then
              try! s <- decode_utf16le rest';
              Ok (65536 + (u - 55296) * 1024 + (u2 - 56320) :: s)
            else Raise UnicodeError
        | _ => Raise UnicodeError
        end
      else try! s <- decode_utf16le rest; Ok (u :: s)
  end.

(** [l.index(x)]. *)
Fixpoint list_index (x : str) (l : list str) : result nat :=
  match l with
  | [] => Raise ValueError
  | y :: l' =>
      if decide (x = y) then Ok O
      else try! i <- list_index x l'; Ok (S i)
  end.

(** ** The glyph table *)

Definition charBitmapTable : list (bytes * bytes) := [
  ([0; 0], [0; 0; 0; 0; 0; 0; 0; 0; 0; 0; 0; 0; 0; 0; 0; 0; 0; 0; 0; 0; 0; 0]);
  ([32; 0], [0; 0; 0; 0; 0; 0; 0; 0; 0; 0; 0; 0; 0; 0; 0; 0; 0; 0; 0; 0; 0; 0]);
  ([97; 0], [0; 128; 208; 80; 80; 240; 224; 0; 0; 0; 0; 0; 1; 3; 2; 2; 3; 3; 0; 0; 0; 0]);
  ([98; 0], [0; 254; 254; 16; 16; 240; 224; 0; 0; 0; 0; 0; 3; 3; 2; 2; 3; 1; 0; 0; 0; 0]);
  ([99; 0], [0; 192; 224; 16; 16; 16; 0; 0; 0; 0; 0; 0; 0; 1; 2; 2; 2; 0; 0; 0; 0; 0]);
  ([100; 0], [0; 224; 240; 16; 16; 254; 254; 0; 0; 0; 0; 0; 1; 3; 2; 2; 3; 3; 0; 0; 0; 0]);
  ([101; 0], [0; 192; 224; 80; 80; 112; 96; 0; 0; 0; 0; 0; 0; 1; 2; 2; 2; 2; 0; 0; 0; 0]);
  ([102; 0], [0; 16; 252; 254; 18; 18; 0; 0; 0; 0; 0; 0; 0; 3; 3; 0; 0; 0; 0; 0; 0; 0]);
  ([103; 0], [0; 224; 240; 16; 16; 240; 240; 0; 0; 0; 0; 0; 1; 11; 10; 10; 15; 7; 0; 0; 0; 0]);
  ([104; 0], [0; 254; 254; 16; 16; 240; 224; 0; 0; 0; 0; 0; 3; 3; 0; 0; 3; 3; 0; 0; 0; 0]);
  ([105; 0], [0; 246; 246; 0; 0; 0; 0; 0; 0; 0; 0; 0; 3; 3; 0; 0; 0; 0; 0; 0; 0; 0]);
  ([106; 0], [0; 0; 246; 246; 0; 0; 0; 0; 0; 0; 0; 0; 8; 15; 7; 0; 0; 0; 0; 0; 0; 0]);
  ([107; 0], [0; 254; 254; 192; 224; 48; 16; 0; 0; 0; 0; 0; 3; 3; 0; 1; 3; 2; 0; 0; 0; 0]);
  ([108; 0], [0; 254; 254; 0; 0; 0; 0; 0; 0; 0; 0; 0; 3; 3; 0; 0; 0; 0; 0; 0; 0; 0]);
  ([109; 0], [0; 240; 240; 16; 16; 240; 240; 16; 16; 240; 224; 0; 3; 3; 0; 0; 3; 3; 0; 0; 3; 3]);
  ([110; 0], [0; 240; 240; 16; 16; 240; 224; 0; 0; 0; 0; 0; 3; 3; 0; 0; 3; 3; 0; 0; 0; 0]);
  ([111; 0], [0; 224; 240; 16; 16; 240; 224; 0; 0; 0; 0; 0; 1; 3; 2; 2; 3; 1; 0; 0; 0; 0]);
  ([112; 0], [0; 240; 240; 16; 16; 240; 224; 0; 0; 0; 0; 0; 15; 15; 2; 2; 3; 1; 0; 0; 0; 0]);
  ([113; 0], [0; 224; 240; 16; 16; 240; 240; 0; 0; 0; 0; 0; 1; 3; 2; 2; 15; 15; 0; 0; 0; 0]);
  ([114; 0], [0; 240; 240; 16; 16; 0; 0; 0; 0; 0; 0; 0; 3; 3; 0; 0; 0; 0; 0; 0; 0; 0]);
  ([115; 0], [0; 96; 240; 208; 144; 144; 0; 0; 0; 0; 0; 0; 2; 2; 2; 3; 1; 0; 0; 0; 0; 0]);
  ([116; 0], [0; 16; 252; 252; 16; 16; 0; 0; 0; 0; 0; 0; 0; 1; 3; 2; 2; 0; 0; 0; 0; 0]);
  ([117; 0], [0; 240; 240; 0; 0; 240; 240; 0; 0; 0; 0; 0; 1; 3; 2; 2; 3; 3; 0; 0; 0; 0]);
  ([118; 0], [0; 0; 16; 240; 192; 0; 192; 240; 16; 0; 0; 0; 0; 0; 0; 3; 3; 3; 0; 0; 0; 0]);
  ([119; 0], [0; 48; 240; 128; 224; 112; 224; 128; 240; 48; 0; 0; 0; 3; 3; 0; 0; 0; 3; 3; 0; 0]);
  ([120; 0], [0; 0; 48; 224; 192; 224; 48; 0; 0; 0; 0; 0; 0; 3; 1; 0; 1; 3; 0; 0; 0; 0]);
  ([121; 0], [0; 16; 112; 224; 0; 192; 112; 16; 0; 0; 0; 0; 0; 8; 13; 7; 1; 0; 0; 0; 0; 0]);
  ([122; 0], [0; 16; 144; 208; 112; 48; 0; 0; 0; 0; 0; 0; 3; 3; 2; 2; 2; 0; 0; 0; 0; 0]);
  ([65; 0], [0; 0; 192; 248; 156; 156; 248; 192; 0; 0; 0; 0; 2; 3; 1; 0; 0; 1; 3; 2; 0; 0]);
  ([66; 0], [0; 252; 252; 36; 36; 36; 252; 216; 0; 0; 0; 0; 3; 3; 2; 2; 2; 3; 1; 0; 0; 0]);
  ([67; 0], [0; 240; 248; 12; 4; 4; 4; 12; 0; 0; 0; 0; 0; 1; 3; 2; 2; 2; 3; 0; 0; 0]);
  ([68; 0], [0; 252; 252; 4; 4; 12; 248; 240; 0; 0; 0; 0; 3; 3; 2; 2; 3; 1; 0; 0; 0; 0]);
  ([69; 0], [0; 252; 252; 36; 36; 36; 36; 0; 0; 0; 0; 0; 3; 3; 2; 2; 2; 2; 0; 0; 0; 0]);
  ([70; 0], [0; 252; 252; 36; 36; 36; 36; 0; 0; 0; 0; 0; 3; 3; 0; 0; 0; 0; 0; 0; 0; 0]);
  ([71; 0], [0; 240; 248; 12; 4; 68; 196; 204; 0; 0; 0; 0; 0; 1; 3; 2; 2; 3; 3; 0; 0; 0]);
  ([72; 0], [0; 252; 252; 32; 32; 32; 252; 252; 0; 0; 0; 0; 3; 3; 0; 0; 0; 3; 3; 0; 0; 0]);
  ([73; 0], [0; 252; 252; 0; 0; 0; 0; 0; 0; 0; 0; 0; 3; 3; 0; 0; 0; 0; 0; 0; 0; 0]);
  ([74; 0], [0; 0; 0; 255; 255; 0; 0; 0; 0; 0; 0; 0; 2; 2; 3; 1; 0; 0; 0; 0; 0; 0]);
  ([75; 0], [0; 252; 252; 96; 240; 152; 12; 4; 0; 0; 0; 0; 3; 3; 0; 0; 1; 3; 2; 0; 0; 0]);
  ([76; 0], [0; 252; 252; 0; 0; 0; 0; 0; 0; 0; 0; 0; 3; 3; 2; 2; 2; 2; 0; 0; 0; 0]);
  ([77; 0], [0; 252; 252; 28; 96; 192; 112; 28; 252; 252; 0; 0; 3; 3; 0; 0; 0; 0; 0; 3; 3; 0]);
  ([78; 0], [0; 252; 252; 24; 96; 128; 252; 252; 0; 0; 0; 0; 3; 3; 0; 0; 1; 3; 3; 0; 0; 0]);
  ([79; 0], [0; 240; 248; 12; 4; 4; 12; 248; 240; 0; 0; 0; 0; 1; 3; 2; 2; 3; 1; 0; 0; 0]);
  ([80; 0], [0; 252; 252; 68; 68; 68; 124; 56; 0; 0; 0; 0; 3; 3; 0; 0; 0; 0; 0; 0; 0; 0]);
  ([81; 0], [0; 240; 248; 12; 4; 4; 12; 248; 240; 0; 0; 0; 0; 1; 3; 2; 2; 15; 9; 0; 0; 0]);
  ([82; 0], [0; 252; 252; 68; 68; 252; 184; 0; 0; 0; 0; 0; 3; 3; 0; 0; 1; 3; 2; 0; 0; 0]);
  ([83; 0], [0; 56; 60; 100; 100; 196; 192; 0; 0; 0; 0; 0; 3; 2; 2; 2; 3; 1; 0; 0; 0; 0]);
  ([84; 0], [0; 4; 4; 4; 252; 252; 4; 4; 4; 0; 0; 0; 0; 0; 0; 3; 3; 0; 0; 0; 0; 0]);
  ([85; 0], [0; 252; 252; 0; 0; 0; 252; 252; 0; 0; 0; 0; 1; 1; 2; 2; 2; 1; 1; 0; 0; 0]);
  ([86; 0], [0; 4; 60; 240; 128; 128; 240; 60; 4; 0; 0; 0; 0; 0; 1; 3; 3; 1; 0; 0; 0; 0]);
  ([87; 0], [4; 124; 224; 128; 120; 28; 120; 128; 224; 124; 4; 0; 0; 3; 3; 0; 0; 0; 3; 3; 0; 0]);
  ([88; 0], [0; 4; 140; 248; 96; 96; 248; 140; 4; 0; 0; 0; 2; 3; 1; 0; 0; 1; 3; 2; 0; 0]);
  ([89; 0], [0; 4; 12; 56; 224; 224; 56; 12; 4; 0; 0; 0; 0; 0; 0; 3; 3; 0; 0; 0; 0; 0]);
  ([90; 0], [0; 4; 132; 196; 100; 52; 28; 12; 0; 0; 0; 0; 3; 3; 2; 2; 2; 2; 2; 0; 0; 0]);
  ([49; 0], [0; 4; 4; 252; 252; 0; 0; 0; 0; 0; 0; 0; 2; 2; 3; 3; 2; 2; 0; 0; 0; 0]);
  ([50; 0], [0; 4; 132; 196; 100; 60; 24; 0; 0; 0; 0; 0; 2; 3; 2; 2; 2; 2; 0; 0; 0; 0]);
  ([51; 0], [0; 8; 36; 36; 36; 252; 216; 0; 0; 0; 0; 0; 1; 2; 2; 2; 1; 1; 0; 0; 0; 0]);
  ([52; 0], [0; 192; 160; 152; 132; 252; 252; 128; 0; 0; 0; 0; 0; 0; 0; 0; 3; 3; 0; 0; 0; 0]);
  ([53; 0], [0; 60; 60; 36; 36; 228; 192; 0; 0; 0; 0; 0; 2; 2; 2; 2; 3; 1; 0; 0; 0; 0]);
  ([54; 0], [0; 240; 248; 36; 36; 228; 192; 0; 0; 0; 0; 0; 0; 1; 2; 2; 3; 1; 0; 0; 0; 0]);
  ([55; 0], [0; 4; 4; 196; 244; 60; 12; 0; 0; 0; 0; 0; 0; 2; 3; 0; 0; 0; 0; 0; 0; 0]);
  ([56; 0], [0; 216; 252; 36; 36; 252; 216; 0; 0; 0; 0; 0; 1; 3; 2; 2; 3; 1; 0; 0; 0; 0]);
  ([57; 0], [0; 56; 124; 68; 68; 248; 240; 0; 0; 0; 0; 0; 0; 2; 2; 3; 1; 0; 0; 0; 0; 0]);
  ([48; 0], [0; 240; 248; 4; 4; 248; 240; 0; 0; 0; 0; 0; 0; 1; 2; 2; 1; 0; 0; 0; 0; 0]);
  ([228; 0], [0; 128; 212; 80; 84; 240; 224; 0; 0; 0; 0; 0; 1; 3; 2; 2; 3; 3; 0; 0; 0; 0]);
  ([246; 0], [0; 224; 244; 16; 16; 244; 224; 0; 0; 0; 0; 0; 1; 3; 2; 2; 3; 1; 0; 0; 0; 0]);
  ([252; 0], [0; 240; 244; 0; 0; 244; 240; 0; 0; 0; 0; 0; 1; 3; 2; 2; 3; 3; 0; 0; 0; 0]);
  ([196; 0], [0; 0; 192; 249; 156; 156; 249; 192; 0; 0; 0; 0; 2; 3; 1; 0; 0; 1; 3; 2; 0; 0]);
  ([214; 0], [0; 240; 248; 13; 4; 4; 13; 248; 240; 0; 0; 0; 0; 1; 3; 2; 2; 3; 1; 0; 0; 0]);
  ([220; 0], [0; 252; 252; 1; 0; 1; 252; 252; 0; 0; 0; 0; 1; 1; 2; 2; 2; 1; 1; 0; 0; 0]);
  ([223; 0], [0; 252; 254; 2; 114; 254; 204; 128; 0; 0; 0; 0; 3; 3; 0; 2; 2; 3; 1; 0; 0; 0]);
  ([176; 0], [0; 128; 64; 64; 128; 0; 0; 0; 0; 0; 0; 0; 1; 2; 2; 1; 0; 0; 0; 0; 0; 0]);
  ([94; 0], [0; 0; 0; 0; 128; 0; 0; 0; 0; 0; 0; 0; 0; 2; 1; 0; 1; 2; 0; 0; 0; 0]);
  ([33; 0], [0; 124; 124; 0; 0; 0; 0; 0; 0; 0; 0; 0; 3; 3; 0; 0; 0; 0; 0; 0; 0; 0]);
  ([34; 0], [0; 128; 0; 128; 0; 0; 0; 0; 0; 0; 0; 0; 3; 0; 3; 0; 0; 0; 0; 0; 0; 0]);
  ([167; 0], [0; 100; 254; 218; 242; 112; 0; 0; 0; 0; 0; 0; 0; 2; 2; 3; 1; 0; 0; 0; 0; 0]);
  ([36; 0], [0; 140; 158; 154; 255; 178; 242; 98; 0; 0; 0; 0; 0; 0; 0; 3; 0; 0; 0; 0; 0; 0]);
  ([37; 0], [0; 24; 36; 36; 24; 192; 48; 136; 68; 64; 128; 0; 0; 0; 2; 1; 0; 0; 1; 2; 2; 1]);
  ([38; 0], [0; 192; 232; 60; 100; 196; 132; 224; 96; 0; 0; 0; 1; 1; 2; 2; 3; 1; 3; 0; 0; 0]);
  ([47; 0], [0; 0; 192; 28; 2; 0; 0; 0; 0; 0; 0; 0; 2; 1; 0; 0; 0; 0; 0; 0; 0; 0]);
  ([40; 0], [0; 224; 248; 4; 0; 0; 0; 0; 0; 0; 0; 0; 1; 7; 8; 0; 0; 0; 0; 0; 0; 0]);
  ([41; 0], [0; 4; 248; 224; 0; 0; 0; 0; 0; 0; 0; 0; 8; 7; 1; 0; 0; 0; 0; 0; 0; 0]);
  ([61; 0], [0; 128; 128; 128; 128; 128; 128; 128; 0; 0; 0; 0; 2; 2; 2; 2; 2; 2; 2; 0; 0; 0]);
  ([63; 0], [0; 4; 100; 116; 60; 24; 0; 0; 0; 0; 0; 0; 0; 3; 3; 0; 0; 0; 0; 0; 0; 0]);
  ([96; 0], [0; 0; 0; 0; 0; 0; 0; 0; 0; 0; 0; 0; 0; 1; 2; 0; 0; 0; 0; 0; 0; 0]);
  ([180; 0], [0; 0; 0; 0; 0; 0; 0; 0; 0; 0; 0; 0; 2; 1; 0; 0; 0; 0; 0; 0; 0; 0]);
  ([92; 0], [0; 2; 28; 192; 0; 0; 0; 0; 0; 0; 0; 0; 0; 0; 1; 2; 0; 0; 0; 0; 0; 0]);
  ([125; 0], [0; 4; 4; 188; 248; 64; 64; 0; 0; 0; 0; 0; 8; 8; 15; 7; 0; 0; 0; 0; 0; 0]);
  ([93; 0], [0; 4; 4; 252; 252; 0; 0; 0; 0; 0; 0; 0; 8; 8; 15; 15; 0; 0; 0; 0; 0; 0]);
  ([91; 0], [0; 252; 252; 4; 4; 0; 0; 0; 0; 0; 0; 0; 15; 15; 8; 8; 0; 0; 0; 0; 0; 0]);
  ([123; 0], [0; 64; 64; 248; 188; 4; 4; 0; 0; 0; 0; 0; 0; 0; 7; 15; 8; 8; 0; 0; 0; 0]);
  ([178; 0], [0; 96; 32; 32; 192; 0; 0; 0; 0; 0; 0; 0; 2; 3; 3; 2; 0; 0; 0; 0; 0; 0]);
  ([179; 0], [0; 32; 96; 96; 160; 0; 0; 0; 0; 0; 0; 0; 2; 2; 2; 1; 0; 0; 0; 0; 0; 0]);
  ([44; 0], [0; 0; 192; 192; 0; 0; 0; 0; 0; 0; 0; 0; 2; 1; 0; 0; 0; 0; 0; 0; 0; 0]);
  ([46; 0], [0; 0; 0; 0; 0; 0; 0; 0; 0; 0; 0; 0; 3; 3; 0; 0; 0; 0; 0; 0; 0; 0]);
  ([45; 0], [0; 0; 0; 0; 0; 0; 0; 0; 0; 0; 0; 0; 3; 3; 3; 0; 0; 0; 0; 0; 0; 0]);
  ([59; 0], [0; 0; 204; 204; 0; 0; 0; 0; 0; 0; 0; 0; 2; 1; 0; 0; 0; 0; 0; 0; 0; 0]);
  ([58; 0], [0; 48; 48; 0; 0; 0; 0; 0; 0; 0; 0; 0; 3; 3; 0; 0; 0; 0; 0; 0; 0; 0]);
  ([95; 0], [0; 0; 0; 0; 0; 0; 0; 0; 0; 0; 0; 0; 2; 2; 2; 2; 2; 2; 0; 0; 0; 0]);
  ([181; 0], [0; 240; 240; 0; 0; 240; 240; 0; 0; 0; 0; 0; 15; 15; 2; 2; 1; 3; 2; 0; 0; 0]);
  ([124; 0], [0; 254; 0; 0; 0; 0; 0; 0; 0; 0; 0; 0; 15; 0; 0; 0; 0; 0; 0; 0; 0; 0]);
  ([60; 0], [0; 192; 192; 192; 32; 32; 32; 16; 0; 0; 0; 0; 0; 0; 0; 1; 1; 1; 2; 0; 0; 0]);
  ([62; 0], [0; 16; 32; 32; 32; 192; 192; 192; 0; 0; 0; 0; 2; 1; 1; 1; 0; 0; 0; 0; 0; 0]);
  ([35; 0], [0; 128; 160; 224; 188; 160; 240; 172; 32; 0; 0; 0; 0; 2; 1; 0; 3; 0; 0; 0; 0; 0]);
  ([39; 0], [0; 128; 0; 0; 0; 0; 0; 0; 0; 0; 0; 0; 3; 0; 0; 0; 0; 0; 0; 0; 0; 0]);
  ([43; 0], [0; 64; 64; 64; 248; 64; 64; 64; 0; 0; 0; 0; 0; 0; 0; 3; 0; 0; 0; 0; 0; 0]);
  ([42; 0], [0; 64; 128; 224; 128; 64; 0; 0; 0; 0; 0; 0; 1; 0; 3; 0; 1; 0; 0; 0; 0; 0]);
  ([126; 0], [0; 0; 0; 0; 0; 0; 0; 0; 0; 0; 0; 0; 0; 1; 1; 0; 2; 2; 1; 0; 0; 0]);
  ([64; 0], [0; 120; 132; 50; 73; 133; 133; 73; 254; 134; 56; 0; 0; 0; 1; 2; 2; 2; 2; 1; 0; 0]);
  ([172; 32], [0; 160; 224; 248; 172; 164; 36; 4; 0; 0; 0; 0; 0; 0; 1; 3; 2; 2; 2; 0; 0; 0])
].

Definition charBitmapDict : gmap bytes bytes := list_to_map charBitmapTable.

(** ** RoutePoint *)

Module RoutePoint.

(** The attributes [name], [symbol], [lat] and [lon]; [elevation], which the
    wire format does not carry, and the cache [binData] are left out. *)
Record t : Type := mk { name : str; symbol : Z; lat : number; lon : number }.

Definition symbolDict : list (Z * string) :=
  [(0, "none"); (1, "straight ahead"); (2, "keep left"); (3, "keep right");
   (4, "left"); (5, "backward"); (6, "right"); (7, "left rearward");
   (8, "right rearward")]%string.

(** [reversedDict(self.symbolDict)[sym]], with the [KeyError] branch. *)
Definition symbol_code (sym : string) : Z :=
  match find (fun kv => String.eqb (snd kv) sym) symbolDict with
  | Some kv => fst kv
  | None => 0
  end.

(** [fromGpxValues] on the mapping [{lon, lat, name, symbol}]. *)
Definition fromGpxValues (lon lat : Z) (name : str) (sym : string) : t :=
  mk (firstn 32 name) (symbol_code sym) (Int lat) (Int lon).

Definition toBin (chartable : list str) (self : t) : result bytes :=
  try! lat <- pack_i (lat self);
  try! lon <- pack_i (lon self);
  try! symbol <- pack_unsigned 4 (symbol self);
  try! inds <- mapM (fun c => try! i <- list_index [c] chartable;
                              pack_unsigned 2 (Z.of_nat i)) (name self);
  let name := concat inds in
  let name := name ++ repeat 0 (64 - length name) in
  Ok (name ++ symbol ++ lat ++ lon).

Definition fromBin (data : bytes) (chartable : list str) : result t :=
  try! chartableInds <- unpack_unsigned 2 32 (firstn 64 data);
  try! parts <- mapM (fun ind => index (Z.to_nat ind) chartable)
                  (List.filter (fun ind => negb (ind =? 0)) chartableInds);
  try! symbol <- unpack_unsigned 2 1 (slice 64 66 data);
  try! latlon <- unpack_signed 4 2 (slice 68 76 data);
  Ok (mk (concat parts) (nth 0 symbol 0)
         (MulEm5 (nth 0 latlon 0)) (MulEm5 (nth 1 latlon 0))).

End RoutePoint.

(** ** Route *)

Module Route.

(** A [Route] object after [parseBin]. *)
Record t : Type := mk {
  binData : bytes;
  points : list RoutePoint.t;
  chartable : list str;
  headerStart : Z;
  numOfPoints : Z;
  charTableOffset : Z;
  charBitmapsDataOffset : Z;
  eofOffset : Z
}.

(** The character table of [makeOutCharTable]: the null character, then the
    characters of the names in the order of their first occurrence. *)
Definition add_char (chartable : list str) (c : Z) : list str :=
  if decide ([c] ∈ chartable) then chartable
  else chartable ++ [[c]].
Definition outCharTable (points : list RoutePoint.t) : list str :=
  fold_left (fun ct p => fold_left add_char (RoutePoint.name p) ct) points [[0]].

(** The glyph of a character, the glyph of the question mark when the
    table has none. *)
Definition charBitmap (c : str) : result bytes :=
  try! key <- encode_utf16le c;
  match charBitmapDict !! key with
  | Some g => Ok g
  | None =>
      match charBitmapDict !! [63; 0] with
      | Some g => Ok g
      | None => Raise KeyError
      end
  end.

Definition makeOutCharTable (points : list RoutePoint.t) : result (list str * bytes) :=
  let chartable := outCharTable points in
  try! charBitmaps <- mapM charBitmap chartable;
  Ok (chartable, concat charBitmaps).

(** [makeInCharTable] with [useCharDataFile] left at [False]. *)
Definition makeInCharTable (data : bytes) : result (list str) :=
  mapM decode_utf16le (chop 2 data).

Definition header_checksum (headerPre : bytes) : result bytes :=
  pack_signed 2 (- Z.land (sum headerPre) 65535).

(** [toBin]: the header, the points, the character table and the glyphs. *)
Definition toBin (points : list RoutePoint.t) : result bytes :=
  try! ct <- makeOutCharTable points;
  let chartable := fst ct in
  let charBitmapsDataBin := snd ct in
  try! pointBins <- mapM (RoutePoint.toBin chartable) points;
  let pointDataBin := concat pointBins in
  try! charBins <- mapM encode_utf16le chartable;
  let charTableBin := concat charBins in
  let headerLen := 20%nat in
  try! numOfPointsBin <- pack_unsigned 2 (Z.of_nat (length points));
  try! charTableOffset <- pack_unsigned 4 (Z.of_nat (headerLen + length pointDataBin));
  try! charBitmapsDataOffset <-
    pack_unsigned 4 (Z.of_nat (headerLen + length pointDataBin + length charTableBin));
  try! eofOffset <-
    pack_unsigned 4 (Z.of_nat (headerLen + length pointDataBin + length charTableBin
                               + length charBitmapsDataBin));
  try! unknownNumBin <- pack_unsigned 2 1;
  let headerPre := unknownNumBin ++ numOfPointsBin ++ charTableOffset
                     ++ charBitmapsDataOffset ++ eofOffset ++ [0; 0] in
  try! headerChecksum <- header_checksum headerPre;
  let header := headerPre ++ headerChecksum in
  Ok (header ++ pointDataBin ++ charTableBin ++ charBitmapsDataBin).

(** [parseBin] with [dumpRaw] left empty (the dump writes a file). *)
Definition parseBin (binData : bytes) : result t :=
  let header := firstn 20 binData in
  try! h1 <- unpack_unsigned 2 2 (firstn 4 header);
  try! h2 <- unpack_unsigned 4 3 (slice 4 16 header);
  let headerChecksum := slice 18 20 header in
  try! expectedHeaderChecksum <- header_checksum (firstn 18 header);
  if negb (bool_decide (headerChecksum = expectedHeaderChecksum)) then Raise BadChecksum
  else
    let numOfPoints := nth 1 h1 0 in
    let charTableOffset := Z.to_nat (nth 0 h2 0) in
    let charBitmapsDataOffset := Z.to_nat (nth 1 h2 0) in
    let eofOffset := Z.to_nat (nth 2 h2 0) in
    let pointData :=
      map (fun k => slice (k * 76) (k * 76 + 76) (slice 20 charTableOffset binData))
        (seq 0 (Z.to_nat numOfPoints)) in
    let charTableData := slice charTableOffset charBitmapsDataOffset binData in
    try! chartable <- makeInCharTable charTableData;
    try! points <- mapM (fun data => RoutePoint.fromBin data chartable) pointData;
    Ok (mk binData points chartable (nth 0 h1 0) numOfPoints (nth 0 h2 0)
           (nth 1 h2 0) (nth 2 h2 0)).

Definition fromBin (binData : bytes) : result t := parseBin binData.

(** The header check on its own: [Ok] when [parseBin] gets past it. *)
Definition header_valid (binData : bytes) : Prop :=
  let header := firstn 20 binData in
  header_checksum (firstn 18 header) = Ok (slice 18 20 header).

End Route.

(** A code point that one UTF-16 code unit holds and the decoder gives back:
    a character of the basic plane other than a surrogate and other than
    the null character, which the character table reserves. *)
Definition name_char (c : Z) : Prop :=
  0 < c < 65536 /\ is_surrogate c = false.

(** A route point that the encoder accepts and the decoder gives back. *)
Definition encodable (p : RoutePoint.t) : Prop :=
  (length (RoutePoint.name p) <= 32)%nat
  /\ Forall name_char (RoutePoint.name p)
  /\ 0 <= RoutePoint.symbol p < 65536
  /\ (exists i, RoutePoint.lat p = Int i /\ - 2 ^ 31 <= i < 2 ^ 31)
  /\ (exists i, RoutePoint.lon p = Int i /\ - 2 ^ 31 <= i < 2 ^ 31).

(** What [RoutePoint.fromBin] makes of an encoded point: the coordinates
    come back as the floats [i * 1e-5]. *)
Definition decoded_number (v : number) : number :=
  match v with
  | Int i => MulEm5 i
  | other => other
  end.
Definition decoded (p : RoutePoint.t) : RoutePoint.t :=
  RoutePoint.mk (RoutePoint.name p) (RoutePoint.symbol p)
    (decoded_number (RoutePoint.lat p)) (decoded_number (RoutePoint.lon p)).

(** ** Checksums: what the proofs need *)

(** The inverse of [crc_shift] on 16-bit values: the low bit of the result
    tells whether the polynomial was added. *)
Definition crc_unshift (t : Z) : Z :=
  if Z.odd t then Z.shiftr (Z.lxor t 4129) 1 + 32768 else Z.shiftr t 1.

(** [P] holds for the [count] integers from [from] on. *)
Fixpoint check_range (P : Z -> bool) (from : Z) (count : nat) : bool :=
  match count with
  | O => true
  | S c => P from && check_range P (from + 1) c
  end.

Definition in16 (s : Z) : Prop := 0 <= s < 65536.

(** The value of an upper-case hexadecimal digit. *)
Definition unhex (b : Z) : Z := if b <? 58 then b - 48 else b - 55.

(** A line of the shape that [sendCommand] writes, byte by byte: the
    command [$body] itself is [line_of 36 body 42 c1 c2 13 10] with the
    checksum characters [c1] and [c2]. *)
Definition line_of (dollar : Z) (body : bytes) (star c1 c2 cr lf : Z) : bytes :=
  dollar :: body ++ [star; c1; c2; cr; lf].
Definition checksum_of (body : bytes) : bytes := calcNMEAChecksum (36 :: body) true.
(** What the check makes of a line whose [$] was replaced by white space:
    the body without its leading white space and without one leading [$]. *)
Definition strip_dollar (s : bytes) : bytes :=
  if startswith (b_ "$") s then skipn 1 s else s.

(** ** DeviceConfig *)

(** The values that reach a setter: the option parser hands over integers
    and strings, and [None] stands for an option that was not given.  Floats
    and bools, which only a direct caller could pass, are not among them. *)
Inductive value : Type :=
| VInt (i : Z)
| VStr (s : string)
| VNone.

(** [b",".join(parts)]. *)
Fixpoint join (sep : bytes) (parts : list bytes) : bytes :=
  match parts with
  | [] => []
  | [x] => x
  | x :: rest => x ++ sep ++ join sep rest
  end.

(** [str(v).encode("ascii")]. *)
Definition str_of_value (v : value) : string :=
  match v with
  | VInt i => NilEmpty.string_of_int (Z.to_int i)
  | VStr s => s
  | VNone => "None"
  end.
Definition encode_ascii (s : string) : result bytes :=
  let b := b_ s in
  if forallb (fun c => c <? 128) b then Ok b else Raise UnicodeError.

(** [str.lower] on ASCII text, an instance of the library function that the
    setters take as a parameter. *)
Definition ascii_lower_char (c : ascii) : ascii :=
  let n := N_of_ascii c in
  if ((65 <=? n) && (n <=? 90))%N then ascii_of_N (n + 32) else c.
Fixpoint ascii_lower (s : string) : string :=
  match s with
  | EmptyString => EmptyString
  | String c s' => String (ascii_lower_char c) (ascii_lower s')
  end.

(** [int(s)] on plain decimal text, an instance of the library function
    that the setters take as a parameter.  It agrees with [int] on decimal
    digits with an optional minus sign in front; on other text (a sign
    alone, a plus sign, white space, underscores) it is not Python's [int],
    and no theorem depends on it. *)
Definition decimal_int (s : string) : option Z :=
  match s with
  | EmptyString => None
  | _ => option_map Z.of_int (NilEmpty.int_of_string s)
  end.

Module DeviceConfig.

Definition languageDict : list (Z * string) :=
  [(0, "en"); (1, "fr"); (2, "de"); (3, "nl"); (4, "it"); (5, "es")]%string.
Definition turnRadiusDict : list (Z * string) :=
  [(5, "5 m"); (10, "10 m"); (20, "20 m"); (30, "30 m"); (50, "50 m")]%string.
Definition lightDurationDict : list (Z * string) :=
  [(0, "OFF"); (10, "10 s"); (30, "30 s"); (60, "60 s"); (255, "ON")]%string.
Definition autoOffDict : list (Z * string) :=
  [(0, "OFF"); (10, "10 min"); (30, "30 min"); (60, "60 min")]%string.
Definition deviceConfigItems : list string :=
  ["language"; "turnRadius"; "lightDuration"; "autoOff"; "homeTz"; "currentTz";
   "units"]%string.
Definition recordConfigItems : list string :=
  ["timeInterval"; "unknown_1"; "distanceInterval"; "unknown_2"; "speedInterval";
   "unknown_3"; "unknown_4"]%string.

(** The object: the two snapshots and the connection; [diskUse], which no
    setter touches, is left out. *)
Record t : Type := mk {
  deviceConfig : gmap string value;
  recordConfig : gmap string value;
  con : Port
}.

Definition on_con {A : Type} (m : M Port A) : M t A := fun self =>
  let (r, p) := m (con self) in (r, mk (deviceConfig self) (recordConfig self) p).

Definition set_device (k : string) (v : value) : M t unit := fun self =>
  (Ok tt, mk (<[k := v]> (deviceConfig self)) (recordConfig self) (con self)).
Definition set_record (k : string) (v : value) : M t unit := fun self =>
  (Ok tt, mk (deviceConfig self) (<[k := v]> (recordConfig self)) (con self)).

(** [v in d] for a dict with integer keys, and [v in d.values()]. *)
Definition in_keys (v : value) (d : list (Z * string)) : bool :=
  match v with
  | VInt i => existsb (fun kv => fst kv =? i) d
  | _ => false
  end.
Definition in_values (v : value) (d : list (Z * string)) : bool :=
  match v with
  | VStr s => existsb (fun kv => String.eqb (snd kv) s) d
  | _ => false
  end.
Definition key_of (s : string) (d : list (Z * string)) : result Z :=
  match find (fun kv => String.eqb (snd kv) s) d with
  | Some kv => Ok (fst kv)
  | None => Raise KeyError
  end.

(** The message [b",".join([head] + [str(cfg[item]).encode("ascii") ...])]. *)
Definition config_message (head : bytes) (items : list string)
    (cfg : gmap string value) : result bytes :=
  try! fields <- mapM (fun item =>
                         match cfg !! item with
                         | Some v => encode_ascii (str_of_value v)
                         | None => Raise KeyError
                         end) items;
  Ok (join (b_ ",") (head :: fields)).

Definition setDeviceConfig : M t unit := fun self =>
  (do! message <- lift (config_message (b_ "$POEM14,1") deviceConfigItems
                          (deviceConfig self));
   on_con (sendCommand message) ;;
   on_con (getResponse true (Some (b_ "$POEM200,14"))) ;;
   ret tt) self.

Definition setRecordConfig : M t unit := fun self =>
  (do! message <- lift (config_message (b_ "$POEM02") recordConfigItems
                          (recordConfig self));
   on_con (sendCommand message) ;;
   on_con (getResponse true (Some (b_ "$PMST200,02"))) ;;
   ret tt) self.

Section Setters.

(** [str.lower] and [int] on a [str] are library functions. *)
Variable lower : string -> string.
Variable int_of_str : string -> option Z.

Definition set_lightDuration (duration : value) (send : bool) : M t unit :=
  (if in_keys duration lightDurationDict then set_device "lightDuration" duration
   else
     match duration with
     | VStr s =>
         if String.eqb (lower s) "off" then set_device "lightDuration" (VInt 0)
         else if String.eqb (lower s) "on" then set_device "lightDuration" (VInt 255)
         else raise UnsupportedValue
     | _ => raise UnsupportedValue
     end) ;;
  if send then setDeviceConfig else ret tt.

Definition set_turnRadius (turnRadius : value) (send : bool) : M t unit :=
  (if negb (in_keys turnRadius turnRadiusDict) then raise UnsupportedValue
   else set_device "turnRadius" turnRadius) ;;
  if send then setDeviceConfig else ret tt.

Definition set_units (units : value) (send : bool) : M t unit :=
  (match units with
   | VStr s =>
       if String.eqb (lower s) "km" then set_device "units" (VInt 0)
       else if String.eqb (lower s) "mile" then set_device "units" (VInt 1)
       else raise UnsupportedValue
   | _ => raise AttributeError
   end) ;;
  if send then setDeviceConfig else ret tt.

(** [timezone in range(-12, 13)]. *)
Definition in_tz_range (timezone : value) : bool :=
  match timezone with
  | VInt i => (-12 <=? i) && (i <? 13)
  | _ => false
  end.

Definition _set_timezone (timezone : value) (tzType : string) (send : bool) : M t unit :=
  (if negb (in_tz_range timezone) then raise UnsupportedValue
   else if String.eqb tzType "home" then set_device "homeTz" timezone
   else if String.eqb tzType "current" then set_device "currentTz" timezone
   else ret tt) ;;
  if send then setDeviceConfig else ret tt.

Definition set_homeTz (timezone : value) (send : bool) : M t unit :=
  _set_timezone timezone "home" send.
Definition set_currentTz (timezone : value) (send : bool) : M t unit :=
  _set_timezone timezone "current" send.

Definition set_language (language : value) (send : bool) : M t unit :=
  (if negb (in_values language languageDict) then raise UnsupportedValue
   else
     match language with
     | VStr s => do! k <- lift (key_of s languageDict); set_device "language" (VInt k)
     | _ => raise KeyError
     end) ;;
  if send then setDeviceConfig else ret tt.

Definition set_autoOff (autoOff : value) (send : bool) : M t unit :=
  (if negb (in_keys autoOff autoOffDict) then raise UnsupportedValue
   else set_device "autoOff" autoOff) ;;
  if send then setDeviceConfig else ret tt.

(** [int(interval)]. *)
Definition py_int (interval : value) : result Z :=
  match interval with
  | VInt i => Ok i
  | VStr s =>
      match int_of_str s with
      | Some i => Ok i
      | None => Raise ValueError
      end
  | VNone => Raise TypeError
  end.

(** The three interval setters differ in the key only. *)
Definition set_interval (key : string) (interval : value) (send : bool) : M t unit :=
  (match py_int interval with
   | Ok i => set_record key (VInt i)
   | Raise _ => raise UnsupportedValue
   end) ;;
  if send then setRecordConfig else ret tt.

Definition set_timeInterval := set_interval "timeInterval".
Definition set_distanceInterval := set_interval "distanceInterval".
Definition set_speedInterval := set_interval "speedInterval".

(** The setters by name, as [setConfig] calls them through [getattr]. *)
Inductive setter : Type :=
| Language | TurnRadius | LightDuration | AutoOff | HomeTz | CurrentTz | Units
| TimeInterval | DistanceInterval | SpeedInterval.

Definition call (s : setter) : value -> bool -> M t unit :=
  match s with
  | Language => set_language
  | TurnRadius => set_turnRadius
  | LightDuration => set_lightDuration
  | AutoOff => set_autoOff
  | HomeTz => set_homeTz
  | CurrentTz => set_currentTz
  | Units => set_units
  | TimeInterval => set_timeInterval
  | DistanceInterval => set_distanceInterval
  | SpeedInterval => set_speedInterval
  end.

(** The legal values of each setter, as its documentation lists them. *)
Definition is_one_of (s : string) (l : list string) : bool :=
  existsb (String.eqb s) l.
Definition legal (s : setter) (v : value) : bool :=
  match s, v with
  | Language, VStr x => is_one_of x ["en"; "fr"; "de"; "nl"; "it"; "es"]
  | TurnRadius, VInt i => existsb (Z.eqb i) [5; 10; 20; 30; 50]
  | LightDuration, VInt i => existsb (Z.eqb i) [0; 10; 30; 60; 255]
  | LightDuration, VStr x => is_one_of (lower x) ["off"; "on"]
  | AutoOff, VInt i => existsb (Z.eqb i) [0; 10; 30; 60]
  | HomeTz, VInt i | CurrentTz, VInt i => (-12 <=? i) && (i <=? 12)
  | Units, VStr x => is_one_of (lower x) ["km"; "mile"]
  | TimeInterval, VInt _ | DistanceInterval, VInt _ | SpeedInterval, VInt _ => true
  | TimeInterval, VStr x | DistanceInterval, VStr x | SpeedInterval, VStr x =>
      match int_of_str x with Some _ => true | None => false end
  | _, _ => false
  end.

(** The type of argument that the documentation of the setter names:
    [set_units] takes a string. *)
Definition well_typed (s : setter) (v : value) : Prop :=
  s = Units -> exists x, v = VStr x.

End Setters.

End DeviceConfig.

(** A snapshot as [parseDeviceConfig] and [parseRecordConfig] build it. *)
Definition sample_config : DeviceConfig.t :=
  DeviceConfig.mk
    (list_to_map [("language", VInt 2); ("turnRadius", VInt 10);
                  ("lightDuration", VInt 30); ("autoOff", VInt 0);
                  ("homeTz", VInt 1); ("currentTz", VInt 1); ("units", VInt 0)]%string)
    (list_to_map [("timeInterval", VInt 5); ("unknown_1", VInt 0);
                  ("distanceInterval", VInt 0); ("unknown_2", VInt 0);
                  ("speedInterval", VInt 0); ("unknown_3", VInt 0);
                  ("unknown_4", VInt 0)]%string)
    (scripted_port [b_ "$POEM200,14*0C"] [] 50).

(** ** Poi *)

(** A time string [YYYY-MM-DDTHH:MM:SSZ], held as the six numbers that it
    spells. *)
Record DateTime : Type := mkDateTime {
  year : Z; month : Z; day : Z; hour : Z; minute : Z; second : Z
}.

Definition is_leap (y : Z) : bool :=
  ((y mod 4 =? 0) && negb (y mod 100 =? 0)) || (y mod 400 =? 0).
Definition days_in_month (y m : Z) : Z :=
  if m =? 2 then (if is_leap y then 29 else 28)
  else if (m =? 4) || (m =? 6) || (m =? 9) || (m =? 11) then 30
  else 31.
Definition between (lo x hi : Z) : bool := (lo <=? x) && (x <=? hi).
Definition valid_date (t : DateTime) : bool :=
  between 1 (year t) 9999 && between 1 (month t) 12
  && between 1 (day t) (days_in_month (year t) (month t)).

(** [time.strptime(s, "%Y-%m-%dT%H:%M:%SZ")] accepts the seconds 60 and 61,
    [datetime.datetime.strptime] with the same format does not. *)
Definition time_strptime (t : DateTime) : result DateTime :=
  if valid_date t && between 0 (hour t) 23 && between 0 (minute t) 59
     && between 0 (second t) 61
  then Ok t else Raise ValueError.
Definition datetime_strptime (t : DateTime) : result DateTime :=
  if valid_date t && between 0 (hour t) 23 && between 0 (minute t) 59
     && between 0 (second t) 59
  then Ok t else Raise ValueError.

Module Poi.

(** The attributes [lat], [lon], [symbol] and [timeString]; the cache [raw]
    and [datetime], which only [fromBin] sets, are left out. *)
Record t : Type := mk { lat : number; lon : number; symbol : Z; timeString : DateTime }.

Section Codec.

(** [datetime.astimezone(tz=None)]: from UTC to the wall clock of the local
    time zone, a matter of the machine the program runs on. *)
Variable astimezone : DateTime -> DateTime.

Definition fromBin (line : bytes) : result t :=
  try! latlon <- unpack_signed 4 2 (slice 8 16 line);
  try! symbol <- index 6 line;
  try! y <- index 0 line;
  let year := 1900 + y in
  match slice 1 6 line with
  | [month; day; hour; minute; second] =>
      try! dt <- datetime_strptime (mkDateTime year month day hour minute second);
      Ok (mk (DivE5 (nth 0 latlon 0)) (DivE5 (nth 1 latlon 0)) symbol (astimezone dt))
  | _ => Raise ValueError
  end.

End Codec.

(** [fromGpxValues] on the mapping [{lon, lat, timeString, symbol}]. *)
Definition fromGpxValues (lon lat : Z) (timeString : DateTime) (symbol : Z) : t :=
  mk (Int lat) (Int lon) symbol timeString.

Definition toBin (self : t) : result bytes :=
  try! lat <- pack_i (lat self);
  try! lon <- pack_i (lon self);
  try! parsedTime <- time_strptime (timeString self);
  let year := year parsedTime - 1900 in
  try! time <- mapM (pack_unsigned 1)
                 [year; month parsedTime; day parsedTime; hour parsedTime;
                  minute parsedTime; second parsedTime];
  try! symbol <- pack_unsigned 1 (symbol self);
  Ok (concat time ++ symbol ++ [160] ++ lat ++ lon).

(** A point of interest from the import adapter that the device format can
    hold and that [fromBin] reads back. *)
Definition encodable (p : t) : Prop :=
  (exists i, lat p = Int i /\ - 2 ^ 31 <= i < 2 ^ 31)
  /\ (exists i, lon p = Int i /\ - 2 ^ 31 <= i < 2 ^ 31)
  /\ 0 <= symbol p < 256
  /\ 1900 <= year (timeString p) <= 2155
  /\ datetime_strptime (timeString p) = Ok (timeString p).

(** What [fromBin] makes of an encoded one. *)
Definition decoded (astimezone : DateTime -> DateTime) (p : t) : t :=
  mk (match lat p with Int i => DivE5 i | v => v end)
     (match lon p with Int i => DivE5 i | v => v end)
     (symbol p) (astimezone (timeString p)).

End Poi.

(** ** Route: what the proofs need *)

(** A character that one UTF-16 code unit holds, and a character table as
    [makeOutCharTable] builds it: the null character first, no character
    twice, every entry one such character. *)
Definition table_char (c : Z) : Prop :=
  0 <= c < 65536 /\ is_surrogate c = false.
Definition char_table (ct : list str) : Prop :=
  (exists ct', ct = [0] :: ct')
  /\ NoDup ct
  /\ Forall (fun s => exists c, s = [c] /\ table_char c) ct.

(** The 64 name bytes of an encoded point. *)
Definition name_bin (inds : list Z) : bytes :=
  concat (map (le_bytes 2) inds) ++ repeat 0 (64 - 2 * length inds).

(** ** Module-level helpers *)

(** [lenOfLongestStringIn( *args )]: every argument is a sequence of strings
    (a dict is the sequence of its keys). *)
Definition lenOfLongestStringIn (args : list (list string)) : nat :=
  fold_left
    (fun maxLen seq =>
       fold_left
         (fun maxLen c =>
            if (maxLen <? String.length c)%nat then String.length c else maxLen)
         seq maxLen)
    args 0%nat.

Section Dict.
Context {K V : Type} `{EqDecision K} `{EqDecision V}.

(** A [dict] as the list of its items in insertion order, the keys pairwise
    distinct.  [d[k] = v] replaces the value of a key that is there and
    appends an item otherwise; [d[k]] raises [KeyError] on a missing key. *)
Fixpoint dict_set (k : K) (v : V) (d : list (K * V)) : list (K * V) :=
  match d with
  | [] => [(k, v)]
  | (k', v') :: d' =>
      if decide (k = k') then (k', v) :: d' else (k', v') :: dict_set k v d'
  end.

Definition dict_get (k : K) (d : list (K * V)) : result V :=
  match find (fun kv => bool_decide (fst kv = k)) d with
  | Some kv => Ok (snd kv)
  | None => Raise KeyError
  end.

(** [dict(items)] of a sequence of pairs. *)
Definition dict_of_items (items : list (K * V)) : list (K * V) :=
  fold_left (fun d kv => dict_set (fst kv) (snd kv) d) items [].

End Dict.

(** [reversedDict(inDict)]: [dict(((v, k) for (k, v) in inDict.items()))]. *)
Definition reversedDict {K V : Type} `{EqDecision V} (inDict : list (K * V))
    : list (V * K) :=
  dict_of_items (map (fun kv => (snd kv, fst kv)) inDict).

(** ** The receive path *)

(** The port together with its bulk reads: [waiting] lists what the coming
    calls of [read(inWaiting())] return, the empty string when nothing is
    waiting. *)
Record Link : Type := mkLink { port : Port; waiting : list bytes }.

Definition on_port {A : Type} (m : M Port A) : M Link A := fun s =>
  let (r, p) := m (port s) in (r, mkLink p (waiting s)).

Definition readWaiting : M Link bytes := fun s =>
  match waiting s with
  | resp :: rest => (Ok resp, mkLink (port s) rest)
  | [] => (Raise OutOfScript, s)
  end.

Definition getDataChunk : M Link bytes :=
  do! resp <- readWaiting; lift (getDataChunk_resp resp).

(** The [while True] loop of [getData]; every round reads from the port. *)
Fixpoint getData_loop (fuel : nat) (dataChunks : list bytes) : M Link (list bytes) :=
  match fuel with
  | O => raise OutOfScript
  | S fuel' => fun s =>
      match getDataChunk s with
      | (Ok chunk, s') =>
          (on_port (sendRawCommand [6]) ;;
           getData_loop fuel' (dataChunks ++ [chunk])) s'
      | (Raise EndOfTransmission, s') => (Ok dataChunks, s')
      | (Raise e, s') => (Raise e, s')
      end
  end.

Definition getData (message : bytes) : M Link (list bytes) :=
  on_port (sendCommand message) ;;
  on_port (getResponse true (Some (b_ "$POEM200,12"))) ;;
  on_port (setBaudrate 115200) ;;
  on_port (sendRawCommand (b_ "C")) ;;
  do! dataChunks <- (fun s => getData_loop (S (length (waiting s))) [] s);
  on_port (setBaudrate 9600) ;;
  ret dataChunks.

(** What the device has sent when [reads] were read and gave the chunks
    [chunks]. *)
Definition received (reads chunks : list bytes) : Prop :=
  Forall2 (fun resp chunk => getDataChunk_resp resp = Ok chunk) reads chunks.

(** ** Route: the layout of the encoded bytes *)

(** The bytes of a route: the 18 header bytes that are summed, their checksum
    [csv], the points [PD], the character table [CT] and what follows it. *)
Definition route_header (n o1 o2 o3 : Z) : bytes :=
  le_bytes 2 1 ++ le_bytes 2 n ++ le_bytes 4 o1 ++ le_bytes 4 o2 ++ le_bytes 4 o3
  ++ [0; 0].
Definition route_image (n o1 o2 o3 csv : Z) (PD CT BM : bytes) : bytes :=
  (route_header n o1 o2 o3 ++ le_bytes 2 csv) ++ PD ++ CT ++ BM.

(** The character table section: two bytes for each character. *)
Definition charTableBin (ct : list str) : bytes :=
  concat (map (fun s => le_bytes 2 (hd 0 s)) ct).

(** ** DeviceConfig: the printable snapshots and the loops of [setConfig] *)

Definition unitsDict : list (Z * string) := [(0, "km, m"); (1, "mile, ft")]%string.

(** [d[v]] for one of the dicts with integer keys, and [cfg[k]] for a
    snapshot. *)
Definition dict_item (d : list (Z * string)) (v : value) : result string :=
  match v with
  | VInt i => dict_get i d
  | _ => Raise KeyError
  end.
Definition cfg_item (cfg : gmap string value) (k : string) : result value :=
  match cfg !! k with
  | Some v => Ok v
  | None => Raise KeyError
  end.

(** ["{:0>2d}".format(n)]: the decimal digits of [n], with its sign, filled
    up on the left with ["0"] to two characters. *)
Definition format_02d (n : Z) : string :=
  let digits := NilEmpty.string_of_int (Z.to_int n) in
  if (String.length digits <? 2)%nat then String "0" digits else digits.

(** The sign and the digits of a time zone.  Only the sign of a positive
    one is set: the branch for a negative one assigns to another name. *)
Definition printable_tz (v : value) : result string :=
  match v with
  | VInt n => Ok (String.append (if 0 <? n then "+"%string else ""%string) (format_02d n))
  | _ => Raise TypeError
  end.

Definition printableDeviceConfig (self : DeviceConfig.t) : result (gmap string value) :=
  let deviceConfig := DeviceConfig.deviceConfig self in
  try! v <- cfg_item deviceConfig "units";
  try! x <- dict_item unitsDict v;
  let deviceConfig := <["units"%string := VStr x]> deviceConfig in
  try! v <- cfg_item deviceConfig "language";
  try! x <- dict_item DeviceConfig.languageDict v;
  let deviceConfig := <["language"%string := VStr x]> deviceConfig in
  try! v <- cfg_item deviceConfig "lightDuration";
  try! x <- dict_item DeviceConfig.lightDurationDict v;
  let deviceConfig := <["lightDuration"%string := VStr x]> deviceConfig in
  try! v <- cfg_item deviceConfig "turnRadius";
  try! x <- dict_item DeviceConfig.turnRadiusDict v;
  let deviceConfig := <["turnRadius"%string := VStr x]> deviceConfig in
  try! v <- cfg_item deviceConfig "autoOff";
  try! x <- dict_item DeviceConfig.autoOffDict v;
  let deviceConfig := <["autoOff"%string := VStr x]> deviceConfig in
  try! v <- cfg_item deviceConfig "homeTz";
  try! x <- printable_tz v;
  let deviceConfig := <["homeTz"%string := VStr x]> deviceConfig in
  try! v <- cfg_item deviceConfig "currentTz";
  try! x <- printable_tz v;
  Ok (<["currentTz"%string := VStr x]> deviceConfig).

(** ["{:d}".format(v)]. *)
Definition format_d (v : value) : result string :=
  match v with
  | VInt n => Ok (NilEmpty.string_of_int (Z.to_int n))
  | VStr _ => Raise ValueError
  | VNone => Raise TypeError
  end.

Definition printableRecordConfig (self : DeviceConfig.t) : result (gmap string value) :=
  let recordConfig : gmap string value := ∅ in
  try! v <- cfg_item (DeviceConfig.recordConfig self) "timeInterval";
  try! x <- format_d v;
  let recordConfig := <["timeInterval"%string := VStr (String.append x " s")]> recordConfig in
  try! v <- cfg_item (DeviceConfig.recordConfig self) "distanceInterval";
  try! x <- format_d v;
  let recordConfig := <["distanceInterval"%string := VStr (String.append x " m")]> recordConfig in
  try! v <- cfg_item (DeviceConfig.recordConfig self) "speedInterval";
  try! x <- format_d v;
  Ok (<["speedInterval"%string := VStr (String.append x " m/s")]> recordConfig).

(** The values that the device knows for each item of the general
    configuration: the keys of the dicts of the class, and [range(-12, 13)]
    for the time zones. *)
Definition device_domains : list (string * list Z) :=
  [("language", map fst DeviceConfig.languageDict);
   ("turnRadius", map fst DeviceConfig.turnRadiusDict);
   ("lightDuration", map fst DeviceConfig.lightDurationDict);
   ("autoOff", map fst DeviceConfig.autoOffDict);
   ("homeTz", map (fun k => Z.of_nat k - 12) (seq 0 25));
   ("currentTz", map (fun k => Z.of_nat k - 12) (seq 0 25));
   ("units", map fst unitsDict)]%string.

(** A snapshot of the general configuration in which every item is an
    integer that the device knows. *)
Definition device_valid (cfg : gmap string value) : Prop :=
  Forall (fun kd => exists i, cfg !! fst kd = Some (VInt i) /\ In i (snd kd))
    device_domains.

Section SetConfig.
Variable lower : string -> string.
Variable int_of_str : string -> option Z.

(** Each of the two loops of [setConfig], over the options of one group
    that were given: every setter but the last is called with [send=False]. *)
Fixpoint setConfig_loop (items : list (DeviceConfig.setter * value))
    : M DeviceConfig.t unit :=
  match items with
  | [] => ret tt
  | [(configItem, v)] => DeviceConfig.call lower int_of_str configItem v true
  | (configItem, v) :: rest =>
      DeviceConfig.call lower int_of_str configItem v false ;; setConfig_loop rest
  end.

End SetConfig.

(** An action of the object that changes neither snapshot. *)
Definition keeps_configs {A : Type} (m : M DeviceConfig.t A) : Prop :=
  forall self,
    DeviceConfig.deviceConfig (snd (m self)) = DeviceConfig.deviceConfig self
    /\ DeviceConfig.recordConfig (snd (m self)) = DeviceConfig.recordConfig self.

(** ** Pois, and the transfers of points of interest and routes *)

Module Pois.

(** [fromLines] and [toBin] on the list of points of interest. *)
Definition fromLines (astimezone : DateTime -> DateTime) (lines : list bytes)
    : result (list Poi.t) :=
  mapM (Poi.fromBin astimezone) lines.

Definition toBin (pois : list Poi.t) : result bytes :=
  try! bins <- mapM Poi.toBin pois; Ok (concat bins).

End Pois.

(** [sendPois] and [sendRoute] behind the GPX parser: [pois] and [points]
    are what the import adapters made of the file. *)
Definition sendPois (pois : list Poi.t) : M Port unit :=
  do! poiData <- lift (Pois.toBin pois);
  sendData (b_ "$POEM12,4") poiData false.

Definition sendRoute (points : list RoutePoint.t) : M Port unit :=
  do! routeData <- lift (Route.toBin points);
  sendData (b_ "$POEM12,11") routeData false.

Definition getPois (astimezone : DateTime -> DateTime) : M Link (list Poi.t) :=
  do! poiChunks <- getData (b_ "$POEM12,2");
  do! poiLines <- lift (parseChunks poiChunks 16);
  lift (Pois.fromLines astimezone poiLines).

Definition getRoute : M Link Route.t :=
  do! routeChunks <- getData (b_ "$POEM12,12");
  lift (Route.fromBin (concat routeChunks)).

(** The bytes of the route of one point, named Hi, with the symbol for a
    left turn, and a chunk that holds them as the device sends it. *)
Definition sample_route_bytes : bytes :=
  [1; 0; 1; 0; 96; 0; 0; 0; 102; 0; 0; 0; 168; 0; 0; 0; 0; 0; 144; 254]
  ++ ([1; 0; 2; 0] ++ repeat 0 60 ++ [4; 0; 0; 0]
      ++ [200; 100; 75; 0] ++ [136; 66; 13; 0])
  ++ [0; 0; 72; 0; 105; 0]
  ++ repeat 0 22
  ++ [0; 252; 252; 32; 32; 32; 252; 252; 0; 0; 0; 0; 3; 3; 0; 0; 0; 3; 3; 0; 0; 0]
  ++ [0; 246; 246; 0; 0; 0; 0; 0; 0; 0; 0; 0; 3; 3; 0; 0; 0; 0; 0; 0; 0; 0].

(** A chunk of the receive path with the payload [payload], filled up to
    1024 bytes with 0xff. *)
Definition device_chunk (seqno : Z) (payload : bytes) : bytes :=
  let padded := payload ++ repeat 255 (1024 - length payload) in
  [2; seqno; 255 - seqno] ++ padded ++ calcCrcChecksum padded.

(** ** Track.makeDatePrefix *)

Section TrackDates.
Variable point : Type.
Variable timestamp : point -> Z.
(** [timestamp2Date] formats a timestamp in the local time zone. *)
Variable timestamp2Date : Z -> string.

Definition makeDatePrefix (self : Track point) : result string :=
  try! first <- index 0 (points self);
  let startDate := timestamp2Date (timestamp first) in
  try! final <- index_neg 1 (points self);
  let endDate := timestamp2Date (timestamp final) in
  if String.eqb startDate endDate then Ok startDate
  else Ok (startDate ++ "-" ++ endDate)%string.

End TrackDates.
Arguments makeDatePrefix {point} timestamp timestamp2Date self.

(** ** DeviceConfig: reading the snapshots from a response *)

(** [s.split(sep)] for a separator of one byte. *)
Fixpoint split_on (sep : Z) (s : bytes) : list bytes :=
  match s with
  | [] => [[]]
  | b :: s' =>
      if b =? sep then [] :: split_on sep s'
      else match split_on sep s' with
           | piece :: pieces => (b :: piece) :: pieces
           | [] => [[b]]
           end
  end.

(** [string.strip().split(b"*")[0].split(b",")[1:]]. *)
Definition config_fields (string : bytes) : result (list bytes) :=
  try! body <- index 0 (split_on 42 (strip string));
  Ok (skipn 1 (split_on 44 body)).

Section ParseConfig.

(** [int] and [float] on [bytes] are library functions; both raise
    [ValueError] on text they do not accept. *)
Variable int_of_bytes : bytes -> result Z.
Variable float : Type.
Variable float_of_bytes : bytes -> result float.

(** The loop [for ind, item in enumerate(items): cfg[item] = int(raw[ind])],
    from index [ind] on. *)
Fixpoint parse_items (ind : nat) (items : list string) (raw : list bytes)
    (cfg : gmap string value) : result (gmap string value) :=
  match items with
  | [] => Ok cfg
  | item :: items' =>
      try! field <- index ind raw;
      try! v <- int_of_bytes field;
      parse_items (S ind) items' raw (<[item := VInt v]> cfg)
  end.

Definition parseDeviceConfig (string' : bytes) : result (gmap string value) :=
  try! rawDeviceConfig <- config_fields string';
  parse_items 0 DeviceConfig.deviceConfigItems rawDeviceConfig ∅.

Definition parseRecordConfig (string' : bytes)
    : result (gmap string value * float) :=
  try! rawRecordConfig <- config_fields string';
  try! recordConfig <- parse_items 0 DeviceConfig.recordConfigItems rawRecordConfig ∅;
  try! last <- index_neg 1 rawRecordConfig;
  try! diskUse <- float_of_bytes last;
  Ok (recordConfig, diskUse).

End ParseConfig.

(** [int] on plain decimal ASCII text, an instance of the library function
    that the parsers take as a parameter; like [decimal_int] it agrees with
    [int] on decimal digits with an optional minus sign in front only. *)
Definition decimal_int_bytes (b : bytes) : result Z :=
  match decimal_int (string_of_list_ascii (map (fun c => ascii_of_N (Z.to_N c)) b)) with
  | Some v => Ok v
  | None => Raise ValueError
  end.

(* ==== end of definitions ==== *)

(** * Properties *)

(** ** Track.split *)

Section TrackSplitFacts.
Variable point : Type.
Variable timestamp : point -> Z.
Variable d : Z.

Lemma last_opt_snoc {A : Type} (l : list A) (x : A) : last_opt (l ++ [x]) = Some x.
Proof. unfold last_opt. rewrite rev_unit. reflexivity. Qed.

(** The loop, started inside a section that ends with [q], produces the
    sections that [runs] reads off from the front. *)
Lemma split_fold_runs (pts : list point) :
  forall tracks cur q,
    (let (t, c) := fold_left (split_step point timestamp d) pts (tracks, cur ++ [q])
     in t ++ [c])
    = tracks ++ ((cur ++ [q]) ++ fst (runs timestamp d q pts))
                :: snd (runs timestamp d q pts).
Proof.
  induction pts as [|p ps IH]; intros tracks cur q.
  - simpl. rewrite app_nil_r. reflexivity.
  - cbn [fold_left runs]. unfold split_step at 2. rewrite last_opt_snoc.
    destruct (runs timestamp d p ps) as [r rs] eqn:E.
    destruct (timestamp p - timestamp q <? d).
    + rewrite (IH tracks (cur ++ [q]) p), E. cbn [fst snd].
      rewrite <- !app_assoc. reflexivity.
    + pose proof (IH (tracks ++ [cur ++ [q]]) [] p) as H. cbn [app] in H.
      rewrite H, E. cbn [fst snd].
      rewrite <- !app_assoc, app_nil_r. reflexivity.
Qed.

Lemma split_sections_cons (q : point) (pts : list point) :
  split_sections timestamp d (q :: pts)
  = (q :: fst (runs timestamp d q pts)) :: snd (runs timestamp d q pts).
Proof.
  unfold split_sections. cbn [fold_left]. unfold split_step at 2. cbn [last_opt rev].
  exact (split_fold_runs pts [] [] q).
Qed.

Lemma runs_concat (pts : list point) :
  forall q, fst (runs timestamp d q pts) ++ concat (snd (runs timestamp d q pts)) = pts.
Proof.
  induction pts as [|p ps IH]; intros q; [reflexivity|].
  cbn [runs]. specialize (IH p).
  destruct (runs timestamp d p ps) as [r rs].
  destruct (timestamp p - timestamp q <? d); cbn [fst snd concat app] in *; congruence.
Qed.

Lemma runs_nonempty (pts : list point) :
  forall q, Forall (fun s => s <> []) (snd (runs timestamp d q pts)).
Proof.
  induction pts as [|p ps IH]; intros q; [constructor|].
  cbn [runs]. specialize (IH p).
  destruct (runs timestamp d p ps) as [r rs].
  destruct (timestamp p - timestamp q <? d); cbn [fst snd] in *; [assumption|].
  constructor; [discriminate | assumption].
Qed.

Lemma runs_gaps_below (pts : list point) :
  forall q, gaps_below timestamp d (q :: fst (runs timestamp d q pts))
            /\ Forall (gaps_below timestamp d) (snd (runs timestamp d q pts)).
Proof.
  induction pts as [|p ps IH]; intros q; [split; [exact I | constructor]|].
  cbn [runs]. destruct (IH p) as [H1 H2].
  destruct (runs timestamp d p ps) as [r rs].
  destruct (timestamp p - timestamp q <? d) eqn:E; cbn [fst snd] in *.
  - split; [|assumption]. split; [lia | assumption].
  - split; [exact I|]. constructor; assumption.
Qed.

Lemma runs_gaps_between (pts : list point) :
  forall pre q,
    gaps_between timestamp d
      ((pre ++ q :: fst (runs timestamp d q pts)) :: snd (runs timestamp d q pts)).
Proof.
  induction pts as [|p ps IH]; intros pre q; [exact I|].
  cbn [runs]. pose proof (IH (pre ++ [q]) p) as H1. pose proof (IH [] p) as H2.
  destruct (runs timestamp d p ps) as [r rs].
  destruct (timestamp p - timestamp q <? d) eqn:E; cbn [fst snd] in *.
  - rewrite <- app_assoc in H1. exact H1.
  - split; [|exact H2].
    change (pre ++ [q]) with (pre ++ [q]). rewrite last_opt_snoc. lia.
Qed.

(** On a non-empty point sequence the sections are non-empty, concatenate
    to the input, have only gaps below the threshold inside and a gap of at
    least the threshold between neighbours. *)
Lemma split_sections_partition (pts : list point) :
  pts <> [] ->
  concat (split_sections timestamp d pts) = pts
  /\ Forall (fun s => s <> []) (split_sections timestamp d pts)
  /\ Forall (gaps_below timestamp d) (split_sections timestamp d pts)
  /\ gaps_between timestamp d (split_sections timestamp d pts).
Proof.
  destruct pts as [|q pts]; [congruence|]. intros _.
  rewrite split_sections_cons.
  repeat split.
  - cbn [concat app]. f_equal. apply runs_concat.
  - constructor; [discriminate | apply runs_nonempty].
  - constructor; apply runs_gaps_below.
  - exact (runs_gaps_between pts [] q).
Qed.
End TrackSplitFacts.

Lemma split_sections_partition_witness :
  [0; 10; 3700; 3710] <> []
  /\ concat (split_sections id 3600 [0; 10; 3700; 3710]) = [0; 10; 3700; 3710].
Proof.
  split; [discriminate|].
  apply (split_sections_partition Z id 3600 [0; 10; 3700; 3710]). discriminate.
Defined.

(** C5. On an empty point sequence [Track.split] returns one Track with no
    points (the [else] clause of the loop appends the empty current
    section), so not every resulting Track is non-empty; the timestamps
    0, 10, 3700, 3710 give the two Tracks 0, 10 and 3700, 3710. *)
Theorem Track_split_empty_input :
  split id (mkTrack []) default_minTimeDiff = [mkTrack []]
  /\ split id (mkTrack [0; 10; 3700; 3710]) default_minTimeDiff
     = [mkTrack [0; 10]; mkTrack [3700; 3710]].
Proof. split; reflexivity. Qed.

(** ** Slicing a sequence into records *)

Section ChopFacts.
Context {A : Type}.
Local Open Scope nat_scope.
Implicit Types l : list A.

Lemma range_len_0 n : 0 < n -> range_len 0 n = 0.
Proof. intros H. unfold range_len. apply Nat.div_small. lia. Qed.

Lemma range_len_succ L n :
  0 < n -> 0 < L -> range_len L n = S (range_len (L - n) n).
Proof.
  intros Hn HL. unfold range_len.
  destruct (Nat.le_gt_cases n L) as [Hle|Hlt].
  - replace (L + n - 1) with ((L - n + n - 1) + 1 * n) by lia.
    rewrite Nat.div_add by lia. lia.
  - replace (L - n) with 0 by lia. rewrite (Nat.div_small (0 + n - 1)) by lia.
    replace (L + n - 1) with ((L - 1) + 1 * n) by lia.
    rewrite Nat.div_add, Nat.div_small by lia. reflexivity.
Qed.

Lemma range_len_spec L n k : 0 < n -> k < range_len L n <-> k * n < L.
Proof.
  intros Hn. unfold range_len.
  pose proof (Nat.div_mod_eq (L + n - 1) n) as E.
  pose proof (Nat.mod_upper_bound (L + n - 1) n ltac:(lia)) as B.
  split; intros H; nia.
Qed.

Lemma chop_nil n : 0 < n -> chop n (@nil A) = [].
Proof. intros H. unfold chop. cbn [length]. rewrite range_len_0 by assumption. reflexivity. Qed.

Lemma chop_cons n l :
  0 < n -> l <> [] -> chop n l = firstn n l :: chop n (skipn n l).
Proof.
  intros Hn Hl. unfold chop.
  rewrite range_len_succ by first [assumption | destruct l; [congruence | cbn; lia]].
  cbn [seq map]. f_equal.
  - unfold slice. cbn [Nat.mul Nat.add skipn]. f_equal. lia.
  - rewrite <- seq_shift, map_map, length_skipn.
    apply map_ext. intros k. unfold slice.
    rewrite skipn_skipn. f_equal; [lia | f_equal; lia].
Qed.

Lemma chop_single n l : 0 < n -> 0 < length l <= n -> chop n l = [l].
Proof.
  intros Hn Hl.
  rewrite chop_cons by first [assumption | destruct l; [cbn in Hl; lia | congruence]].
  rewrite firstn_all2, skipn_all2 by lia. rewrite chop_nil by assumption. reflexivity.
Qed.

(** Records before an aligned offset do not depend on what follows. *)
Lemma chop_app_aligned n q : 0 < n ->
  forall l1 l2, length l1 = q * n -> chop n (l1 ++ l2) = chop n l1 ++ chop n l2.
Proof.
  intros Hn. induction q as [|q IH]; intros l1 l2 Hlen.
  - destruct l1; [|discriminate]. rewrite chop_nil by assumption. reflexivity.
  - assert (Hl1 : l1 <> []) by (destruct l1; [cbn in Hlen; lia | congruence]).
    rewrite (chop_cons n (l1 ++ l2)), (chop_cons n l1); try assumption.
    2: { destruct l1; [congruence | discriminate]. }
    rewrite firstn_app, skipn_app.
    replace (n - length l1) with 0 by lia. cbn [firstn skipn]. rewrite app_nil_r.
    cbn [app]. f_equal. apply IH. rewrite length_skipn. lia.
Qed.

Lemma chop_aligned_lengths n q : 0 < n ->
  forall l, length l = q * n -> Forall (fun r => length r = n) (chop n l).
Proof.
  intros Hn. induction q as [|q IH]; intros l Hlen.
  - destruct l; [|discriminate]. rewrite chop_nil by assumption. constructor.
  - rewrite chop_cons; [|assumption|destruct l; [cbn in Hlen; lia | congruence]].
    constructor; [rewrite length_firstn; lia|].
    apply IH. rewrite length_skipn. lia.
Qed.

Lemma chop_concat n q : 0 < n ->
  forall l, length l = q * n -> concat (chop n l) = l.
Proof.
  intros Hn. induction q as [|q IH]; intros l Hlen.
  - destruct l; [|discriminate]. rewrite chop_nil by assumption. reflexivity.
  - rewrite chop_cons; [|assumption|destruct l; [cbn in Hlen; lia | congruence]].
    cbn [concat]. rewrite IH by (rewrite length_skipn; lia). apply firstn_skipn.
Qed.

(** Every record starts at a record-aligned offset and begins with the
    byte found there. *)
Lemma chop_In_head n (l : list A) r d :
  0 < n -> In r (chop n l) ->
  exists k t, k * n < length l /\ r = nth (k * n) l d :: t.
Proof.
  intros Hn Hin. unfold chop in Hin. apply in_map_iff in Hin as (k & <- & Hk).
  apply in_seq in Hk. cbn in Hk. destruct Hk as [_ Hk].
  apply range_len_spec in Hk; [|assumption].
  unfold slice. replace (k * n + n - k * n) with (S (n - 1)) by lia.
  destruct (skipn (k * n) l) as [|x t] eqn:E.
  - apply (f_equal (@length A)) in E. rewrite length_skipn in E. cbn in E. lia.
  - exists k, (firstn (n - 1) t). split; [assumption|]. cbn [firstn]. f_equal.
    rewrite <- (firstn_skipn (k * n) l) at 1.
    rewrite app_nth2; rewrite length_firstn; [|lia].
    replace (k * n - Nat.min (k * n) (length l)) with 0 by lia.
    rewrite E. reflexivity.
Qed.

Lemma set_last_snoc (L : list A) x y : set_last x (L ++ [y]) = L ++ [x].
Proof. unfold set_last. rewrite removelast_last. reflexivity. Qed.

(** A payload splits into its complete records and a shorter rest. *)
Lemma chop_split_rest n l :
  0 < n ->
  chop n l = chop n (firstn (length l / n * n) l)
             ++ (if length l mod n =? 0 then [] else [skipn (length l / n * n) l]).
Proof.
  intros Hn.
  pose proof (Nat.div_mod_eq (length l) n) as E.
  pose proof (Nat.mod_upper_bound (length l) n ltac:(lia)) as B.
  rewrite <- (firstn_skipn (length l / n * n) l) at 1.
  rewrite (chop_app_aligned n (length l / n)); [|assumption|rewrite length_firstn; lia].
  f_equal. destruct (length l mod n =? 0) eqn:Z0.
  - apply Nat.eqb_eq in Z0. rewrite skipn_all2 by lia. apply chop_nil; assumption.
  - apply Nat.eqb_neq in Z0. apply chop_single; [assumption|].
    rewrite length_skipn. lia.
Qed.
End ChopFacts.

(** ** NaviConnection.parseChunks *)

Section ParseChunksFacts.
Variable n : nat.
Hypothesis Hn : (0 < n)%nat.
Local Open Scope nat_scope.

Lemma chop_checked_pos {A : Type} (l : list A) : chop_checked n l = Ok (chop n l).
Proof. unfold chop_checked. destruct (Nat.eqb_spec n 0); [lia | reflexivity]. Qed.

Lemma is_padding_head (x : Z) (t : bytes) : x <> 255%Z -> is_padding n (x :: t) = false.
Proof.
  intros Hx. unfold is_padding, all_ff. cbn [forallb].
  destruct (Z.eqb_spec 255 x); [congruence|]. cbn. apply andb_false_r.
Qed.

Lemma is_padding_repeat k : 0 < k <= n -> is_padding n (repeat 255%Z k) = true.
Proof.
  intros Hk. unfold is_padding. rewrite repeat_length.
  destruct (Nat.leb_spec k n); [|lia]. cbn [andb].
  destruct k; [lia|]. unfold all_ff. cbn [repeat]. change (255%Z :: repeat 255%Z k)
    with (repeat 255%Z (S k)).
  apply forallb_forall. intros x Hx. apply repeat_spec in Hx. subst. reflexivity.
Qed.

Lemma append_lines_clean (lines acc : list bytes) :
  (forall l, In l lines -> is_padding n l = false) ->
  append_lines n acc lines = acc ++ lines.
Proof.
  revert acc. induction lines as [|l ls IH]; intros acc H.
  - cbn. rewrite app_nil_r. reflexivity.
  - cbn [append_lines]. rewrite (H l) by (left; reflexivity).
    rewrite IH by (intros; apply H; right; assumption).
    rewrite <- app_assoc. reflexivity.
Qed.

Lemma append_lines_break (lines acc : list bytes) p rest :
  (forall l, In l lines -> is_padding n l = false) ->
  is_padding n p = true ->
  append_lines n acc (lines ++ p :: rest) = acc ++ lines.
Proof.
  revert acc. induction lines as [|l ls IH]; intros acc H Hp.
  - cbn. rewrite Hp, app_nil_r. reflexivity.
  - cbn [append_lines app]. rewrite (H l) by (left; reflexivity).
    rewrite IH by (try assumption; intros; apply H; right; assumption).
    rewrite <- app_assoc. reflexivity.
Qed.

Lemma clean_prefix (D X : bytes) :
  record_starts_clean n (D ++ X) -> record_starts_clean n D.
Proof.
  intros H j Hj. rewrite <- (app_nth1 D X) by assumption.
  apply H. rewrite length_app. lia.
Qed.

Lemma chop_In_slice (c l : bytes) :
  In l (chop n c) -> exists k, k * n < length c /\ l = firstn n (skipn (k * n) c).
Proof.
  intros Hin. unfold chop in Hin. apply in_map_iff in Hin as (k & <- & Hk).
  apply in_seq in Hk. cbn in Hk. destruct Hk as [_ Hk].
  apply range_len_spec in Hk; [|assumption].
  exists k. split; [assumption|]. unfold slice. f_equal. lia.
Qed.

(** Behind an aligned prefix no line of a clean chunk is padding. *)
Lemma clean_lines q (D c : bytes) :
  length D = q * n -> chunk_clean n (length D) c ->
  forall l, In l (chop n c) -> is_padding n l = false.
Proof.
  intros HD Hclean l Hl.
  destruct (chop_In_slice c l Hl) as (k & Hk & ->).
  unfold is_padding. apply andb_false_iff. right.
  replace (k * n) with ((q + k) * n - length D) by lia.
  apply Hclean. lia.
Qed.

Lemma chunk_clean_skip off m (c : bytes) :
  m <= length c -> chunk_clean n off c -> chunk_clean n (off + m) (skipn m c).
Proof.
  intros Hm Hclean j Hj. rewrite length_skipn in Hj. rewrite skipn_skipn.
  replace (j * n - (off + m) + m) with (j * n - off) by lia.
  apply Hclean. lia.
Qed.

Lemma all_ff_app (l m : bytes) : l <> [] -> all_ff l = false -> all_ff (l ++ m) = false.
Proof.
  intros Hne H. destruct l as [|x l]; [congruence|].
  unfold all_ff in *. cbn [app]. change (x :: l ++ m) with ((x :: l) ++ m).
  rewrite forallb_app, H. reflexivity.
Qed.

(** A chunk and the payload behind it, taken as one chunk. *)
Lemma chunk_clean_app off (c c' : bytes) :
  chunk_clean n off c -> chunk_clean n (off + length c) c' ->
  chunk_clean n off (c ++ c').
Proof.
  intros H1 H2 j Hj. rewrite length_app in Hj.
  destruct (Nat.lt_ge_cases (j * n) (off + length c)) as [Hlt|Hge].
  - specialize (H1 j ltac:(lia)).
    rewrite skipn_app, firstn_app.
    apply all_ff_app; [|exact H1].
    intros E. apply (f_equal (@length Z)) in E.
    rewrite length_firstn, length_skipn in E. cbn [length] in E. lia.
  - specialize (H2 j ltac:(lia)).
    rewrite skipn_app, skipn_all2 by lia. cbn [app].
    replace (j * n - off - length c) with (j * n - (off + length c)) by lia.
    exact H2.
Qed.

Lemma no_padding_line_concat (chunks : list bytes) :
  forall off, no_padding_line n off chunks -> chunk_clean n off (concat chunks).
Proof.
  induction chunks as [|c cs IH]; intros off H.
  - intros j Hj. cbn [concat length] in Hj. lia.
  - destruct H as [Hc Hcs]. cbn [concat]. apply chunk_clean_app; [exact Hc|].
    apply IH. exact Hcs.
Qed.

Lemma no_padding_line_app (cs1 cs2 : list bytes) :
  forall off, no_padding_line n off (cs1 ++ cs2) ->
    no_padding_line n off cs1
    /\ no_padding_line n (off + length (concat cs1)) cs2.
Proof.
  induction cs1 as [|c cs IH]; intros off H.
  - cbn [concat length]. rewrite Nat.add_0_r. split; [exact I | exact H].
  - destruct H as [Hc H]. destruct (IH _ H) as [H1 H2].
    cbn [concat]. rewrite length_app, Nat.add_assoc.
    split; [split; assumption | exact H2].
Qed.

(** Records that do not begin with 0xff are not padding, whole or in part. *)
Lemma starts_clean_chunk (D c : bytes) :
  record_starts_clean n (D ++ c) -> chunk_clean n (length D) c.
Proof.
  intros H j Hj. specialize (H j ltac:(rewrite length_app; lia)).
  rewrite app_nth2 in H by lia.
  destruct (skipn (j * n - length D) c) as [|x t] eqn:E.
  - apply (f_equal (@length Z)) in E. rewrite length_skipn in E.
    cbn [length] in E. lia.
  - assert (Hx : x = nth (j * n - length D) c 0%Z).
    { rewrite <- (firstn_skipn (j * n - length D) c) at 1.
      rewrite app_nth2; rewrite length_firstn; [|lia].
      replace (j * n - length D - Nat.min (j * n - length D) (length c)) with 0 by lia.
      rewrite E. reflexivity. }
    destruct n as [|n']; [lia|]. cbn [firstn]. unfold all_ff. cbn [forallb].
    destruct (Z.eqb_spec 255 x); [congruence | reflexivity].
Qed.

Abbreviation trailing_pad := (trailing_pad n).

Lemma firstn_repeat {A : Type} (x : A) m k :
  firstn m (repeat x k) = repeat x (Nat.min m k).
Proof.
  revert k. induction m as [|m IH]; intros [|k]; cbn; try reflexivity.
  f_equal. apply IH.
Qed.

Lemma chop_repeat_ff k :
  chop n (repeat 255%Z k) = []
  \/ exists p rest, chop n (repeat 255%Z k) = p :: rest /\ is_padding n p = true.
Proof.
  destruct k as [|k]; [left; apply chop_nil; assumption|]. right.
  rewrite chop_cons by (try assumption; discriminate).
  eexists _, _. split; [reflexivity|].
  rewrite firstn_repeat. apply is_padding_repeat. lia.
Qed.

(** The inner loop behind an aligned prefix. *)
Lemma lines_of_aligned q (D c pad : bytes) :
  length D = q * n -> chunk_clean n (length D) c -> trailing_pad D c pad ->
  append_lines n (chop n D) (chop n (c ++ pad)) = chop n (D ++ c).
Proof.
  intros HD Hclean Hpad.
  rewrite (chop_app_aligned n q Hn D c HD).
  destruct Hpad as [->|(q' & k & Hlen & ->)].
  - rewrite app_nil_r. apply append_lines_clean. exact (clean_lines q D c HD Hclean).
  - rewrite length_app in Hlen. assert (Hc : length c = (q' - q) * n) by nia.
    rewrite (chop_app_aligned n (q' - q) Hn c _ Hc).
    destruct (chop_repeat_ff k) as [E|(p & rest & E & Hp)]; rewrite E.
    + rewrite app_nil_r. apply append_lines_clean. exact (clean_lines q D c HD Hclean).
    + apply append_lines_break; [|assumption]. exact (clean_lines q D c HD Hclean).
Qed.

Lemma last_opt_chop_aligned q (D : bytes) :
  length D = q * n ->
  last_opt (chop n D) = None \/ exists r, last_opt (chop n D) = Some r /\ length r = n.
Proof.
  intros HD. pose proof (chop_aligned_lengths n q Hn D HD) as HF.
  destruct (chop n D) as [|x xs] using rev_ind; [left; reflexivity|]. right.
  rewrite last_opt_snoc. eexists; split; [reflexivity|].
  apply Forall_app in HF as [_ HF]. inversion HF; assumption.
Qed.

(** One round of the outer loop: the lines of [D] followed by a chunk give
    the lines of [D ++ c], wherever the chunk boundary falls. *)
Lemma parseChunks_step_chunk (D c pad : bytes) :
  chunk_clean n (length D) c -> trailing_pad D c pad ->
  parseChunks_step n (chop n D) (c ++ pad) = Ok (chop n (D ++ c)).
Proof.
  intros Hclean Hpad. unfold parseChunks_step, complete_last.
  pose proof (Nat.div_mod_eq (length D) n) as E.
  pose proof (Nat.mod_upper_bound (length D) n ltac:(lia)) as B.
  set (q := length D / n) in *. set (r := length D mod n) in *.
  destruct (Nat.eqb_spec r 0) as [Hr|Hr].
  - (* the prefix ends on a record boundary *)
    assert (HD : length D = q * n) by lia.
    destruct (last_opt_chop_aligned q D HD) as [->|(l & -> & Hl)].
    + rewrite chop_checked_pos. cbn [rbind]. f_equal.
      apply (lines_of_aligned q); assumption.
    + rewrite Hl, Nat.eqb_refl, chop_checked_pos. cbn [rbind]. f_equal.
      apply (lines_of_aligned q); assumption.
  - (* the last line is incomplete *)
    rewrite (chop_split_rest n D Hn). fold q r.
    destruct (Nat.eqb_spec r 0) as [|_]; [contradiction|].
    set (A1 := firstn (q * n) D). set (A2 := skipn (q * n) D).
    assert (HA1 : length A1 = q * n) by (unfold A1; rewrite length_firstn; lia).
    assert (HA2 : length A2 = r) by (unfold A2; rewrite length_skipn; lia).
    assert (HD : D = A1 ++ A2) by (symmetry; apply firstn_skipn).
    rewrite last_opt_snoc, HA2.
    destruct (Nat.eqb_spec r n) as [|_]; [lia|].
    unfold slice_to, slice_from.
    destruct (Z.ltb_spec (Z.of_nat n - Z.of_nat r) 0); [lia|].
    replace (Z.to_nat (Z.of_nat n - Z.of_nat r)) with (n - r) by lia.
    rewrite set_last_snoc, chop_checked_pos. cbn [rbind]. f_equal.
    assert (Hcases : (length c < n - r /\ pad = []) \/ n - r <= length c).
    { destruct Hpad as [->|(q' & k & Hlen & _)].
      { destruct (Nat.lt_ge_cases (length c) (n - r));
          [left; split; [assumption | reflexivity] | right; assumption]. }
      rewrite length_app in Hlen. right.
      destruct (Nat.le_gt_cases q' q) as [Hq|Hq].
      - pose proof (Nat.mul_le_mono_r q' q n Hq). lia.
      - pose proof (Nat.mul_le_mono_r (S q) q' n Hq). lia. }
    destruct Hcases as [[Hshort ->]|Hlong].
    + rewrite app_nil_r, firstn_all2, skipn_all2 by lia.
      rewrite chop_nil by assumption. cbn [append_lines].
      rewrite HD, <- app_assoc, (chop_app_aligned n q Hn A1 _ HA1).
      f_equal. symmetry. apply chop_single; [assumption|]. rewrite length_app. lia.
    + rewrite firstn_app, skipn_app.
      replace (n - r - length c) with 0 by lia. cbn [firstn skipn]. rewrite app_nil_r.
      set (P := firstn (n - r) c). set (c' := skipn (n - r) c).
      assert (HP : length P = n - r) by (unfold P; rewrite length_firstn; lia).
      assert (Hc : c = P ++ c') by (symmetry; apply firstn_skipn).
      assert (HD1 : length (D ++ P) = S q * n) by (rewrite length_app; lia).
      assert (E1 : chop n A1 ++ [A2 ++ P] = chop n (D ++ P)).
      { rewrite HD, <- app_assoc, (chop_app_aligned n q Hn A1 _ HA1).
        f_equal. symmetry. apply chop_single; [assumption|]. rewrite length_app. lia. }
      rewrite E1.
      replace (D ++ c) with ((D ++ P) ++ c') by (rewrite Hc, app_assoc; reflexivity).
      apply (lines_of_aligned (S q)); [assumption| |].
      * rewrite length_app, HP. unfold c'. apply chunk_clean_skip; [lia | assumption].
      * destruct Hpad as [->|(q' & k & Hlen & ->)]; [left; reflexivity|].
        right. exists q', k. split; [|reflexivity].
        rewrite <- app_assoc, <- Hc. assumption.
Qed.

Lemma parseChunks_step_lines (D c pad : bytes) :
  record_starts_clean n (D ++ c) -> trailing_pad D c pad ->
  parseChunks_step n (chop n D) (c ++ pad) = Ok (chop n (D ++ c)).
Proof.
  intros Hclean Hpad. apply parseChunks_step_chunk; [|exact Hpad].
  apply starts_clean_chunk. exact Hclean.
Qed.

Lemma parseChunks_loop_app (cs1 cs2 : list bytes) :
  forall acc,
    parseChunks_loop n acc (cs1 ++ cs2)
    = rbind (parseChunks_loop n acc cs1) (fun acc' => parseChunks_loop n acc' cs2).
Proof.
  induction cs1 as [|c cs IH]; intros acc; [reflexivity|].
  cbn [parseChunks_loop app]. destruct (parseChunks_step n acc c); [apply IH | reflexivity].
Qed.

(** The outer loop over chunks without a padding line. *)
Lemma parseChunks_loop_chunks (chunks : list bytes) :
  forall D, no_padding_line n (length D) chunks ->
    parseChunks_loop n (chop n D) chunks = Ok (chop n (D ++ concat chunks)).
Proof.
  induction chunks as [|c cs IH]; intros D Hclean.
  - cbn. rewrite app_nil_r. reflexivity.
  - destruct Hclean as [Hc Hcs]. cbn [parseChunks_loop concat].
    rewrite <- (app_nil_r c) at 1.
    rewrite parseChunks_step_chunk; [|exact Hc | left; reflexivity].
    cbn [rbind]. rewrite IH; rewrite <- ?app_assoc; [reflexivity|].
    rewrite length_app. exact Hcs.
Qed.

Lemma starts_clean_no_padding (chunks : list bytes) :
  forall D, record_starts_clean n (D ++ concat chunks) ->
    no_padding_line n (length D) chunks.
Proof.
  induction chunks as [|c cs IH]; intros D H; [exact I|].
  cbn [concat] in H. split.
  - apply starts_clean_chunk. rewrite app_assoc in H.
    eapply clean_prefix; eassumption.
  - rewrite <- length_app. apply IH. rewrite <- app_assoc. exact H.
Qed.

Lemma parseChunks_loop_lines (chunks : list bytes) :
  forall D, record_starts_clean n (D ++ concat chunks) ->
    parseChunks_loop n (chop n D) chunks = Ok (chop n (D ++ concat chunks)).
Proof.
  intros D H. apply parseChunks_loop_chunks, starts_clean_no_padding, H.
Qed.
End ParseChunksFacts.

(** A payload that is shorter than a record is emitted as it is; a part
    0xff at the end of a chunk is dropped although its record goes on in the
    next chunk, while the same bytes in one chunk are kept; a record of
    0xff only ends its chunk. *)
Lemma parseChunks_counterexample :
  parseChunks [[1; 2; 3]] 20 = Ok [[1; 2; 3]]
  /\ parseChunks [[1; 2; 255]; [3; 4; 5]] 2 = Ok [[1; 2]; [3; 4]; [5]]
  /\ parseChunks [[1; 2; 255; 3; 4; 5]] 2 = Ok [[1; 2]; [255; 3]; [4; 5]]
  /\ parseChunks [[1; 2; 255; 255; 3; 4]] 2 = Ok [[1; 2]].
Proof. repeat split; reflexivity. Qed.

(** C2 (amended). For a positive record length [n] and chunk payloads whose
    concatenation has a length that is a multiple of [n], and in which no
    record, and no part of a record that begins the record and ends with its
    chunk, consists of 0xff only, [parseChunks] returns the [n]-byte records
    of the concatenated payload, wherever the chunk boundaries fall: the
    result is that of the single-chunk stream, every record has length [n],
    the records concatenate to the payload, and a run of 0xff of any length
    behind the payload, at the end of the last chunk or as a chunk of its
    own, adds no record. *)
Theorem parseChunks_reassembly (n : nat) (chunks : list bytes) :
  (0 < n)%nat ->
  no_padding_line n 0 chunks ->
  (length (concat chunks) mod n = 0)%nat ->
  parseChunks chunks n = Ok (chop n (concat chunks))
  /\ parseChunks chunks n = parseChunks [concat chunks] n
  /\ Forall (fun r => length r = n) (chop n (concat chunks))
  /\ concat (chop n (concat chunks)) = concat chunks
  /\ (forall k, parseChunks (chunks ++ [repeat 255 k]) n = Ok (chop n (concat chunks)))
  /\ (forall pre c k, chunks = pre ++ [c] ->
        parseChunks (pre ++ [c ++ repeat 255 k]) n = Ok (chop n (concat chunks))).
Proof.
  intros Hn Hclean Hmod.
  pose proof (Nat.div_mod_eq (length (concat chunks)) n) as E.
  set (q := (length (concat chunks) / n)%nat) in *.
  assert (Hlen : length (concat chunks) = (q * n)%nat) by lia.
  assert (Hchop0 : chop n (@nil Z) = []) by (apply chop_nil; assumption).
  assert (Hloop : forall cs, no_padding_line n 0 cs ->
            parseChunks cs n = Ok (chop n (concat cs))).
  { intros cs Hcs. unfold parseChunks. rewrite <- Hchop0.
    apply (parseChunks_loop_chunks n Hn cs []). exact Hcs. }
  split; [apply Hloop; assumption|].
  split.
  { rewrite (Hloop chunks Hclean), (Hloop [concat chunks]).
    - cbn [concat]. rewrite app_nil_r. reflexivity.
    - split; [|exact I]. apply no_padding_line_concat; assumption. }
  split; [apply (chop_aligned_lengths n q); assumption|].
  split; [apply (chop_concat n q); assumption|].
  split.
  - intros k. unfold parseChunks. rewrite parseChunks_loop_app.
    fold (parseChunks chunks n). rewrite Hloop by assumption.
    cbn [rbind parseChunks_loop].
    rewrite <- (app_nil_l (repeat 255 k)).
    rewrite (parseChunks_step_chunk n Hn (concat chunks) [] (repeat 255 k)).
    + cbn [rbind]. rewrite app_nil_r. reflexivity.
    + intros j Hj. cbn [length] in Hj. lia.
    + right. exists q, k. rewrite app_nil_r. split; [assumption | reflexivity].
  - intros pre c k ->.
    destruct (no_padding_line_app n pre [c] 0 Hclean) as [Hpre [Hc _]].
    rewrite concat_app in *. cbn [concat] in *. rewrite app_nil_r in *.
    unfold parseChunks. rewrite parseChunks_loop_app.
    fold (parseChunks pre n). rewrite Hloop by exact Hpre.
    cbn [rbind parseChunks_loop].
    rewrite (parseChunks_step_chunk n Hn (concat pre) c (repeat 255 k)).
    + reflexivity.
    + exact Hc.
    + right. exists q, k. split; [assumption | reflexivity].
Qed.

(** A 20-byte record that straddles the boundary between a chunk of 30 and
    a chunk of 10 bytes, with 16 bytes of padding behind it; and records of
    3 bytes of which the first begins with 0xff and the second straddles a
    chunk boundary. *)
Lemma parseChunks_reassembly_witness :
  parseChunks [repeat 7 30; repeat 7 10] 20 = Ok [repeat 7 20; repeat 7 20]
  /\ parseChunks [repeat 7 30; repeat 7 10 ++ repeat 255 16] 20
     = Ok [repeat 7 20; repeat 7 20]
  /\ parseChunks [[255; 1; 2; 3]; [4; 5]] 3 = Ok [[255; 1; 2]; [3; 4; 5]].
Proof.
  assert (H0 : (0 < 20)%nat) by lia.
  assert (H1 : no_padding_line 20 0 [repeat 7 30; repeat 7 10]).
  { cbn [no_padding_line]. rewrite !repeat_length.
    repeat split; intros j Hj; rewrite repeat_length in Hj;
      destruct j as [|[|j]]; first [exfalso; lia | reflexivity]. }
  assert (H2 : (length (concat [repeat 7 30; repeat 7 10]) mod 20 = 0)%nat)
    by reflexivity.
  pose proof (parseChunks_reassembly 20 [repeat 7 30; repeat 7 10] H0 H1 H2)
    as (Ha & _ & _ & _ & _ & Hb).
  split; [exact Ha|].
  split; [exact (Hb [repeat 7 30] (repeat 7 10) 16%nat eq_refl)|].
  refine (proj1 (parseChunks_reassembly 3 [[255; 1; 2; 3]; [4; 5]] _ _ _)).
  - lia.
  - cbn [no_padding_line length].
    repeat split; intros j Hj; cbn [length] in Hj; destruct j as [|[|j]];
      first [exfalso; lia | reflexivity].
  - reflexivity.
Defined.

(** ** NaviConnection.makeChunks *)

Section MakeChunksFacts.
Local Open Scope nat_scope.

Lemma sum_land_255 (c : bytes) :
  Z.land (sum c) 255 = (sum c mod 256)%Z /\ is_byteb (Z.land (sum c) 255) = true.
Proof.
  assert (E : Z.land (sum c) 255 = (sum c mod 256)%Z).
  { change 255%Z with (Z.ones 8). rewrite Z.land_ones by lia. reflexivity. }
  split; [exact E|]. rewrite E. unfold is_byteb.
  pose proof (Z.mod_pos_bound (sum c) 256 ltac:(lia)).
  apply andb_true_intro. split; [apply Z.leb_le | apply Z.ltb_lt]; lia.
Qed.

Lemma frame_chunk_ok i (c : bytes) :
  i < 255 ->
  frame_chunk i c
  = Ok ([2; Z.of_nat i + 1; 255 - (Z.of_nat i + 1)] ++ c ++ [sum c mod 256])%Z.
Proof.
  intros Hi. unfold frame_chunk, py_bytes.
  assert (H : forallb is_byteb [2; Z.of_nat i + 1; 255 - Z.of_nat i - 1]%Z = true).
  { apply forallb_forall. intros x [<-|[<-|[<-|[]]]]; unfold is_byteb;
      apply andb_true_intro; split; (apply Z.leb_le || apply Z.ltb_lt); lia. }
  rewrite H. cbn [rbind forallb].
  destruct (sum_land_255 c) as [E ->]. cbn [andb rbind]. rewrite E.
  replace (255 - Z.of_nat i - 1)%Z with (255 - (Z.of_nat i + 1))%Z by lia.
  reflexivity.
Qed.

Lemma frame_chunk_overflow (c : bytes) : frame_chunk 255 c = Raise ValueError.
Proof. reflexivity. Qed.

Lemma frame_chunks_map (g : nat -> bytes) m :
  forall s, s + m <= 255 ->
    frame_chunks s (map g (seq s m))
    = Ok (map (fun i => [2; Z.of_nat i + 1; 255 - (Z.of_nat i + 1)]
                          ++ g i ++ [sum (g i) mod 256])%Z (seq s m)).
Proof.
  induction m as [|m IH]; intros s Hs; [reflexivity|].
  cbn [seq map frame_chunks]. rewrite frame_chunk_ok by lia. cbn [rbind].
  rewrite IH by lia. reflexivity.
Qed.

Lemma frame_chunks_overflow (cs : list bytes) :
  forall s, s <= 255 -> 255 < s + length cs -> frame_chunks s cs = Raise ValueError.
Proof.
  induction cs as [|c cs IH]; intros s Hs Hlen; [cbn in Hlen; lia|].
  cbn [frame_chunks]. destruct (Nat.eq_dec s 255) as [->|Hne].
  - rewrite frame_chunk_overflow. reflexivity.
  - rewrite frame_chunk_ok by lia. cbn [rbind].
    rewrite IH by (cbn in Hlen; lia). reflexivity.
Qed.

Lemma frame_chunks_length (cs : list bytes) :
  forall s fs, frame_chunks s cs = Ok fs -> length fs = length cs.
Proof.
  induction cs as [|c cs IH]; intros s fs H; cbn in H.
  - injection H as <-. reflexivity.
  - destruct (frame_chunk s c); [|discriminate]. cbn in H.
    destruct (frame_chunks (S s) cs) eqn:E; [|discriminate].
    injection H as <-. cbn. f_equal. eapply IH; eassumption.
Qed.

Lemma index_neg_1_snoc {A : Type} (L : list A) x : index_neg 1 (L ++ [x]) = Ok x.
Proof.
  unfold index_neg, index. rewrite length_app. cbn [length].
  destruct (Nat.ltb_spec (length L + 1) 1); [lia|].
  rewrite nth_error_app2 by lia.
  replace (length L + 1 - 1 - length L) with 0 by lia. reflexivity.
Qed.

Lemma length_slice {A : Type} a b (l : list A) :
  length (slice a b l) = Nat.min (b - a) (length l - a).
Proof. unfold slice. rewrite length_firstn, length_skipn. reflexivity. Qed.

Lemma length_padded_chunk (data : bytes) i : length (padded_chunk data i) = 1024.
Proof.
  unfold padded_chunk. rewrite length_app, repeat_length, length_slice. lia.
Qed.

Lemma padded_chunk_full (data : bytes) i :
  S i * 1024 <= length data ->
  padded_chunk data i = slice (i * 1024) (i * 1024 + 1024) data.
Proof.
  intros H. unfold padded_chunk. rewrite length_slice.
  replace (1024 - _) with 0 by lia. apply app_nil_r.
Qed.

(** The chunk list just before the framing loop. *)
Lemma makeChunks_chunks (data : bytes) :
  data <> [] ->
  exists lastChunk,
    index_neg 1 (chop 1024 data) = Ok lastChunk
    /\ set_last (lastChunk ++ repeat 255%Z (1024 - length lastChunk)) (chop 1024 data)
       = map (padded_chunk data) (seq 0 (range_len (length data) 1024)).
Proof.
  intros Hd. unfold chop.
  assert (HL : 0 < length data) by (destruct data; [congruence | cbn; lia]).
  rewrite (range_len_succ (length data) 1024) by lia.
  set (m := range_len (length data - 1024) 1024).
  assert (Hm : forall k, k < m -> S k * 1024 <= length data).
  { intros k Hk. assert (Hk' : S k < range_len (length data) 1024)
      by (rewrite (range_len_succ (length data) 1024) by lia; fold m; lia).
    apply range_len_spec in Hk'; lia. }
  rewrite seq_S, map_app. cbn [map Nat.add].
  eexists. split; [apply index_neg_1_snoc|].
  rewrite set_last_snoc, map_app. cbn [map]. f_equal.
  apply map_ext_in. intros k Hk. apply in_seq in Hk.
  symmetry. apply padded_chunk_full. apply Hm. lia.
Qed.

Lemma makeChunks_nil : makeChunks [] = Raise IndexError.
Proof. reflexivity. Qed.

Lemma makeChunks_ok (data : bytes) :
  data <> [] -> length data <= 255 * 1024 ->
  makeChunks data
  = Ok (map (fun i => [2; Z.of_nat i + 1; 255 - (Z.of_nat i + 1)]
                        ++ padded_chunk data i
                        ++ [sum (padded_chunk data i) mod 256])%Z
            (seq 0 (range_len (length data) 1024))).
Proof.
  intros Hd Hlen. unfold makeChunks.
  destruct (makeChunks_chunks data Hd) as (lastChunk & E1 & E2).
  rewrite E1. cbn [rbind]. rewrite E2.
  apply frame_chunks_map.
  destruct (Nat.le_gt_cases (range_len (length data) 1024) 255) as [H|H]; [lia|].
  apply range_len_spec in H; lia.
Qed.

Lemma makeChunks_too_long (data : bytes) :
  255 * 1024 < length data -> makeChunks data = Raise ValueError.
Proof.
  intros Hlen. unfold makeChunks.
  assert (Hd : data <> []) by (intros ->; cbn [length] in Hlen; lia).
  destruct (makeChunks_chunks data Hd) as (lastChunk & E1 & E2).
  rewrite E1. cbn [rbind]. rewrite E2.
  apply frame_chunks_overflow; [lia|].
  rewrite length_map, length_seq. apply (range_len_spec _ 1024 255); lia.
Qed.

Lemma makeChunks_Ok_inv (data : bytes) frames :
  makeChunks data = Ok frames ->
  0 < length data <= 255 * 1024 /\ 1 <= length frames <= 255.
Proof.
  intros H.
  destruct data as [|b data]; [rewrite makeChunks_nil in H; discriminate|].
  destruct (Nat.le_gt_cases (length (b :: data)) (255 * 1024)) as [Hle|Hgt].
  - assert (Hm : 1 <= range_len (length (b :: data)) 1024 <= 255).
    { split.
      - apply (proj2 (range_len_spec (length (b :: data)) 1024 0 ltac:(lia))).
        cbn [length]. lia.
      - destruct (Nat.le_gt_cases (range_len (length (b :: data)) 1024) 255)
          as [H'|H']; [exact H'|].
        apply range_len_spec in H'; lia. }
    rewrite makeChunks_ok in H by (congruence || assumption).
    assert (E : length frames = range_len (length (b :: data)) 1024).
    { injection H as <-. rewrite length_map. apply length_seq. }
    rewrite E. split; [|exact Hm]. split; [cbn [length]; lia | exact Hle].
  - rewrite makeChunks_too_long in H by assumption. discriminate.
Qed.
End MakeChunksFacts.

(** C6 (amended). For every non-empty payload of at most 255 * 1024 bytes
    [makeChunks] returns one frame per 1024 bytes of payload (rounded up);
    frame number [i] (from 0) is the start byte 0x02, the sequence number
    [i + 1], its complement [0xff - (i + 1)], the 1024 bytes of chunk [i]
    and the sum of these 1024 bytes modulo 256, 1028 bytes in all; a chunk
    other than the last one is the plain slice of the payload, the last one
    is filled up with 0xff. *)
Theorem makeChunks_framing (data : bytes) :
  data <> [] -> (length data <= 255 * 1024)%nat ->
  exists frames,
    makeChunks data = Ok frames
    /\ length frames = range_len (length data) 1024
    /\ forall i, (i < length frames)%nat ->
         nth i frames []
         = [2; Z.of_nat i + 1; 255 - (Z.of_nat i + 1)]
             ++ padded_chunk data i ++ [sum (padded_chunk data i) mod 256]
         /\ length (nth i frames []) = 1028%nat
         /\ length (padded_chunk data i) = 1024%nat
         /\ ((i + 1 < length frames)%nat ->
             padded_chunk data i = slice (i * 1024) (i * 1024 + 1024) data).
Proof.
  intros Hd Hlen. eexists. split; [apply makeChunks_ok; assumption|].
  rewrite length_map, length_seq. split; [reflexivity|].
  intros i Hi.
  set (f := fun i : nat => [2; Z.of_nat i + 1; 255 - (Z.of_nat i + 1)]
              ++ padded_chunk data i ++ [sum (padded_chunk data i) mod 256]).
  assert (E : nth i (map f (seq 0 (range_len (length data) 1024))) [] = f i).
  { rewrite (nth_indep _ [] (f 0%nat)) by (rewrite length_map, length_seq; assumption).
    rewrite map_nth, seq_nth by assumption. reflexivity. }
  rewrite E. unfold f. split; [reflexivity|].
  split; [rewrite !length_app, length_padded_chunk; reflexivity|].
  split; [apply length_padded_chunk|].
  intros Hi'. apply padded_chunk_full.
  assert (H : (S i < range_len (length data) 1024)%nat) by lia.
  apply range_len_spec in H; lia.
Qed.

Lemma makeChunks_framing_witness :
  exists frames,
    makeChunks [1; 2; 3] = Ok frames
    /\ length frames = 1%nat
    /\ nth 0 frames [] = [2; 1; 254] ++ ([1; 2; 3] ++ repeat 255 1021) ++ [9].
Proof.
  destruct (makeChunks_framing [1; 2; 3]) as (frames & H1 & H2 & H3);
    [discriminate | cbn [length]; lia |].
  exists frames. split; [exact H1|]. split; [exact H2|].
  destruct (H3 0%nat) as [H4 _]; [rewrite H2; vm_compute; lia|].
  rewrite H4. vm_compute. reflexivity.
Defined.

(** The frame of a three-byte payload has 1028 bytes, not 1029, and a
    payload of 255 * 1024 + 1 bytes, which needs the sequence number 256,
    is not framed at all. *)
Lemma makeChunks_counterexample :
  (exists frame, makeChunks [1; 2; 3] = Ok [frame] /\ length frame = 1028%nat)
  /\ repeat 0 (255 * 1024 + 1) <> []
  /\ makeChunks (repeat 0 (255 * 1024 + 1)) = Raise ValueError.
Proof.
  split; [|split].
  - eexists. split; [vm_compute; reflexivity | reflexivity].
  - intros H. apply (f_equal (@length Z)) in H. rewrite repeat_length in H.
    cbn [length] in H. lia.
  - apply makeChunks_too_long. rewrite repeat_length. lia.
Qed.

(** ** Checksums: test vectors *)

Example calcNMEAChecksum_example :
  calcNMEAChecksum (b_ "$POEM12,14") true = b_ "3D".
Proof. reflexivity. Qed.

Example crc16_xmodem_check : crc16_xmodem (b_ "123456789") = 12739.
Proof. reflexivity. Qed.

(** ** The send path *)

Section SendFacts.
Local Open Scope nat_scope.

Lemma port_after_after p n ws bs n' ws' bs' :
  port_after (port_after p n ws bs) n' ws' bs' = port_after p (n + n') (ws ++ ws') bs'.
Proof. unfold port_after. cbn. f_equal; [lia | symmetry; apply app_assoc]. Qed.

Lemma write_after c p : write c p = (Ok tt, port_after p 0 [c] (rx_bytes p)).
Proof. unfold write, port_after. rewrite Nat.add_0_r. reflexivity. Qed.

Lemma time_time_after p :
  time_time p = (Ok (clock p (ticks p)), port_after p 1 [] (rx_bytes p)).
Proof. unfold time_time, port_after. rewrite app_nil_r, Nat.add_1_r. reflexivity. Qed.

Lemma readByte_after p b bs :
  rx_bytes p = b :: bs -> readByte p = (Ok b, port_after p 0 [] bs).
Proof.
  intros H. unfold readByte, port_after. rewrite H, app_nil_r, Nat.add_0_r. reflexivity.
Qed.

Lemma getResponse_ok checkChecksum expected resp lines p :
  rx_lines p = resp :: lines ->
  (checkChecksum = true -> checkNMEAChecksum resp = Ok tt) ->
  expected <> [] ->
  startswith expected resp = true ->
  getResponse checkChecksum (Some expected) p
  = (Ok resp, mkPort lines (rx_bytes p) (clock p) (ticks p) (tx p) (baudrate p) (breaks p)).
Proof.
  intros Hlines Hchk Hne Hstart. unfold getResponse, bind, readline. rewrite Hlines.
  assert (Hc : (if checkChecksum then lift (checkNMEAChecksum resp) else ret tt)
               = (ret tt : M Port unit)).
  { destruct checkChecksum; [rewrite Hchk by reflexivity|]; reflexivity. }
  rewrite Hc. unfold ret at 1. cbv beta iota.
  destruct expected as [|e es]; [congruence|]. rewrite Hstart. reflexivity.
Qed.

(** An acknowledge byte at the head of the script ends the wait at once. *)
Lemma waitForAcknowledge_byte timeout p b rest :
  rx_bytes p = Some b :: rest -> (b = 6 \/ b = 21)%Z ->
  waitForAcknowledge timeout p = (Ok (b =? 6)%Z, port_after p 1 [] rest).
Proof.
  intros Hrx Hb. unfold waitForAcknowledge, wait_body, bind.
  rewrite time_time_after. cbn [port_after rx_bytes length wait_loop]. unfold bind.
  rewrite (readByte_after _ (Some b) rest) by (cbn; rewrite Hrx; reflexivity).
  rewrite port_after_after. destruct Hb as [-> | ->]; reflexivity.
Qed.

(** A chunk that is refused [k] times is written [k + 1] times. *)
Lemma send_chunk_retry chunk k :
  forall fuel p rest,
    rx_bytes p = acks_of k ++ rest -> k < fuel ->
    send_chunk fuel chunk p = (Ok tt, port_after p (S k) (repeat chunk (S k)) rest).
Proof.
  unfold acks_of. induction k as [|k IH]; intros fuel p rest Hrx Hfuel;
    (destruct fuel as [|fuel]; [lia|]); cbn [send_chunk]; unfold bind, sendRawCommand;
    rewrite write_after.
  - rewrite (waitForAcknowledge_byte _ _ 6%Z rest) by (cbn; rewrite ?Hrx; auto).
    cbn [Z.eqb Pos.eqb]. rewrite port_after_after. reflexivity.
  - rewrite (waitForAcknowledge_byte _ _ 21%Z (repeat (Some 21%Z) k ++ [Some 6%Z] ++ rest))
      by (cbn; rewrite ?Hrx, <- ?app_assoc; auto).
    cbn [Z.eqb Pos.eqb]. rewrite port_after_after.
    rewrite (IH fuel _ rest) by (cbn; rewrite <- ?app_assoc; auto; lia).
    rewrite port_after_after. reflexivity.
Qed.

Lemma send_chunks_retry frames :
  forall ks p rest,
    length ks = length frames ->
    rx_bytes p = concat (map acks_of ks) ++ rest ->
    send_chunks frames p
    = (Ok tt, port_after p (length (concat (map acks_of ks))) (writes_of frames ks) rest).
Proof.
  induction frames as [|f fs IH]; intros ks p rest Hlen Hrx.
  - destruct ks; [|discriminate]. cbn in *. unfold ret, port_after.
    rewrite Nat.add_0_r, app_nil_r. destruct p; cbn in *; subst; reflexivity.
  - destruct ks as [|k ks]; [discriminate|]. cbn [send_chunks map concat writes_of] in *.
    rewrite <- app_assoc in Hrx. unfold bind.
    rewrite (send_chunk_retry f k _ p _ Hrx).
    2: { rewrite Hrx, length_app. unfold acks_of. rewrite length_app, repeat_length.
         cbn [length]. lia. }
    rewrite (IH ks _ rest) by (cbn; auto; lia).
    rewrite port_after_after. f_equal. f_equal.
    rewrite length_app. unfold acks_of at 2. rewrite length_app, repeat_length.
    cbn [length]. lia.
Qed.

(** A wait in which the clock passes the bound before an acknowledge or a
    negative acknowledge arrives: the [try] block raises [TimeoutError]. *)
Lemma wait_loop_timeout timeout start pre :
  forall p fuel r rest,
    rx_bytes p = pre ++ r :: rest ->
    Forall not_ack (pre ++ [r]) ->
    (forall i, i < length pre -> (clock p (ticks p + i) - start <= timeout)%Z) ->
    (clock p (ticks p + length pre) - start > timeout)%Z ->
    length pre < fuel ->
    wait_loop fuel start timeout p
    = (Raise TimeoutError, port_after p (S (length pre)) [] rest).
Proof.
  assert (Hother : forall (o : option Z) (A : Type) (x y m : A), not_ack o ->
            match o with
            | Some b => if (b =? 21)%Z then x else if (b =? 6)%Z then y else m
            | None => m
            end = m).
  { intros [b|] A x y m [H6 H21]; [|reflexivity].
    destruct (Z.eqb_spec b 21); [subst; congruence|].
    destruct (Z.eqb_spec b 6); [subst; congruence|]. reflexivity. }
  induction pre as [|o pre IH]; intros p fuel r rest Hrx Hna Hle Hgt Hfuel;
    (destruct fuel as [|fuel]; [cbn in Hfuel; lia|]); cbn [wait_loop]; unfold bind at 1;
    cbn [app] in Hrx; rewrite (readByte_after p _ _ Hrx);
    rewrite Hother by (inversion Hna; assumption);
    unfold bind; rewrite time_time_after; cbn [port_after clock ticks].
  - cbn [length] in *. rewrite !Nat.add_0_r in *.
    destruct (Z.gtb_spec (clock p (ticks p) - start) timeout); [|lia].
    unfold raise. rewrite port_after_after. reflexivity.
  - cbn [length] in *. rewrite !Nat.add_0_r.
    pose proof (Hle 0 ltac:(lia)) as H0. rewrite Nat.add_0_r in H0.
    destruct (Z.gtb_spec (clock p (ticks p) - start) timeout); [lia|].
    rewrite port_after_after.
    rewrite (IH _ fuel r rest).
    + rewrite port_after_after. f_equal.
    + reflexivity.
    + inversion Hna; assumption.
    + intros i Hi. cbn [port_after clock ticks].
      replace (ticks p + (0 + 1) + i) with (ticks p + S i) by lia. apply Hle. lia.
    + cbn [port_after clock ticks].
      replace (ticks p + (0 + 1) + length pre) with (ticks p + S (length pre)) by lia.
      assumption.
    + lia.
Qed.

Lemma wait_body_timeout timeout p pre r rest :
  rx_bytes p = pre ++ r :: rest ->
  Forall not_ack (pre ++ [r]) ->
  (forall i, i < length pre ->
     (clock p (ticks p + 1 + i) - clock p (ticks p) <= timeout)%Z) ->
  (clock p (ticks p + 1 + length pre) - clock p (ticks p) > timeout)%Z ->
  wait_body timeout p = (Raise TimeoutError, port_after p (2 + length pre) [] rest).
Proof.
  intros Hrx Hna Hle Hgt. unfold wait_body, bind. rewrite time_time_after.
  cbn [port_after rx_bytes].
  rewrite (wait_loop_timeout timeout _ pre _ _ r rest); cbn [port_after rx_bytes clock ticks];
    try assumption.
  - rewrite port_after_after. reflexivity.
  - rewrite Hrx, length_app. cbn [length]. lia.
Qed.
End SendFacts.

(** C7.  In the send path a chunk that is answered by [k] negative
    acknowledges (0x15) and then an acknowledge (0x06) is written [k + 1]
    times, the same bytes each time, and only then the next chunk follows.
    For a whole transfer: after the response to the initiation command and a
    first acknowledge byte, the frames of [makeChunks] are written in order,
    frame [i] as often as its acknowledge script demands, then the single byte
    0x04, and the transfer ends normally with the baud rate back at 9600. *)
Theorem sendData_retry (p : Port) (initMessage data : bytes) (checkChecksum : bool)
    (frames : list bytes) (ks : list nat) (resp : bytes) (lines : list bytes)
    (a0 : Z) (rest : list (option Z)) :
  makeChunks data = Ok frames ->
  length ks = length frames ->
  rx_lines p = resp :: lines ->
  (checkChecksum = true -> checkNMEAChecksum resp = Ok tt) ->
  startswith (b_ "$POEM200,12") resp = true ->
  a0 = 6 \/ a0 = 21 ->
  rx_bytes p = Some a0 :: concat (map acks_of ks) ++ Some 6 :: rest ->
  (forall chunk k q rest',
      rx_bytes q = acks_of k ++ rest' ->
      send_chunk (S (length (rx_bytes q))) chunk q
      = (Ok tt, port_after q (S k) (repeat chunk (S k)) rest'))
  /\ exists p',
      sendData initMessage data checkChecksum p = (Ok tt, p')
      /\ tx p' = tx p
                 ++ [initMessage ++ b_ "*" ++ calcNMEAChecksum initMessage true ++ [13; 10]]
                 ++ writes_of frames ks ++ [[4]]
      /\ rx_bytes p' = rest
      /\ baudrate p' = 9600.
Proof.
  intros Hframes Hlen Hlines Hchk Hstart Ha0 Hrx. split.
  - intros chunk k q rest' Hq. apply send_chunk_retry; [assumption|].
    rewrite Hq, length_app. unfold acks_of. rewrite length_app, repeat_length.
    cbn [length]. lia.
  - unfold sendData, sendCommand, sendRawCommand.
    unfold bind at 1. rewrite write_after.
    unfold bind at 1.
    rewrite (getResponse_ok checkChecksum (b_ "$POEM200,12") resp lines);
      [|assumption|assumption|discriminate|assumption].
    unfold bind at 1. unfold setBaudrate at 1.
    unfold bind at 1. unfold lift at 1. rewrite Hframes.
    unfold bind at 1.
    rewrite (waitForAcknowledge_byte _ _ a0 (concat (map acks_of ks) ++ Some 6 :: rest))
      by (cbn; auto).
    unfold bind at 1.
    rewrite (send_chunks_retry frames ks _ (Some 6 :: rest)) by (cbn; auto).
    unfold bind at 1. rewrite write_after.
    unfold bind at 1.
    rewrite (waitForAcknowledge_byte _ _ 6 rest) by (cbn; auto).
    cbn [Z.eqb Pos.eqb]. unfold bind at 1. unfold ret at 1. unfold setBaudrate.
    eexists. split; [reflexivity|].
    cbn [tx rx_bytes baudrate port_after].
    split; [|split; reflexivity].
    rewrite !app_nil_r. repeat rewrite <- app_assoc. reflexivity.
Qed.

(** The scenario of the specification: one chunk, refused twice, then
    accepted. *)
Lemma sendData_retry_witness :
  exists p',
    sendData (b_ "$POEM12,4") [1; 2; 3] false
      (scripted_port [b_ "$POEM200,12,004*00"]
         [Some 21; Some 21; Some 21; Some 6; Some 6] 50)
    = (Ok tt, p')
    /\ tx p' = [b_ "$POEM12,4*0C" ++ [13; 10]]
              ++ repeat ([2; 1; 254] ++ ([1; 2; 3] ++ repeat 255 1021) ++ [9]) 3
              ++ [[4]].
Proof.
  destruct (sendData_retry
              (scripted_port [b_ "$POEM200,12,004*00"]
                 [Some 21; Some 21; Some 21; Some 6; Some 6] 50)
              (b_ "$POEM12,4") [1; 2; 3] false
              [[2; 1; 254] ++ ([1; 2; 3] ++ repeat 255 1021) ++ [9]]
              [2%nat] (b_ "$POEM200,12,004*00") [] 21 [])
    as [_ (p' & H1 & H2 & _)].
  - vm_compute. reflexivity.
  - reflexivity.
  - reflexivity.
  - discriminate.
  - vm_compute. reflexivity.
  - right. reflexivity.
  - reflexivity.
  - exists p'. split; [exact H1|]. rewrite H2. vm_compute. reflexivity.
Defined.

(** Nothing arrives and the clock passes the default bound at the first
    reading: the call ends with [TypeError]. *)
Example waitForAcknowledge_no_byte :
  fst (waitForAcknowledge default_timeout (scripted_port [] [None] 10001))
  = Raise TypeError.
Proof. reflexivity. Qed.

(** C8 (defect of the code).  If neither an acknowledge (0x06) nor a
    negative acknowledge (0x15) is read before a reading of the clock lies
    more than the bound after the start of the wait, the wait loop raises
    [TimeoutError], as the docstring says.  The handler around the loop
    catches it and fails in its first statement, [msg + "\n"], so that
    [waitForAcknowledge] ends with [TypeError]: the caller gets neither the
    [TimeoutError] of the docstring nor the [SystemExit] of the [sys.exit(1)]
    that the handler was written to reach.  Nothing is read beyond the byte
    that preceded the decisive clock reading and nothing is written; the
    loop that sends a chunk ends with the same [TypeError] after a single
    write of the chunk. *)
Theorem waitForAcknowledge_timeout (timeout : Z) (p : Port)
    (pre : list (option Z)) (r : option Z) (rest : list (option Z)) :
  rx_bytes p = pre ++ r :: rest ->
  Forall not_ack (pre ++ [r]) ->
  (forall i, (i < length pre)%nat ->
     clock p (ticks p + 1 + i) - clock p (ticks p) <= timeout) ->
  clock p (ticks p + 1 + length pre) - clock p (ticks p) > timeout ->
  wait_body timeout p = (Raise TimeoutError, port_after p (2 + length pre) [] rest)
  /\ waitForAcknowledge timeout p
     = (Raise TypeError, port_after p (2 + length pre) [] rest)
  /\ (timeout = default_timeout ->
      forall fuel chunk,
        send_chunk (S fuel) chunk p
        = (Raise TypeError, port_after p (2 + length pre) [chunk] rest)).
Proof.
  intros Hrx Hna Hle Hgt.
  pose proof (wait_body_timeout timeout p pre r rest Hrx Hna Hle Hgt) as Hbody.
  split; [exact Hbody|]. split.
  - unfold waitForAcknowledge. rewrite Hbody. reflexivity.
  - intros -> fuel chunk. cbn [send_chunk].
    unfold bind, sendRawCommand. rewrite write_after.
    unfold waitForAcknowledge.
    rewrite (wait_body_timeout default_timeout
               (port_after p 0 [chunk] (rx_bytes p)) pre r rest);
      cbn [port_after rx_bytes clock ticks]; rewrite ?Nat.add_0_r; try assumption.
    unfold timeout_handler, raise. rewrite port_after_after, app_nil_r.
    reflexivity.
Qed.

(** Nothing arrives: three reads time out after a second each. *)
Lemma waitForAcknowledge_timeout_witness :
  waitForAcknowledge 2500 (scripted_port [] [None; None; None; Some 6] 1000)
  = (Raise TypeError,
     port_after (scripted_port [] [None; None; None; Some 6] 1000) 4 [] [Some 6]).
Proof.
  destruct (waitForAcknowledge_timeout 2500
              (scripted_port [] [None; None; None; Some 6] 1000)
              [None; None] None [Some 6]) as (_ & H & _).
  - reflexivity.
  - repeat constructor; discriminate.
  - intros i Hi. cbn in Hi. destruct i as [|[|i]]; cbn; lia.
  - cbn. lia.
  - exact H.
Defined.

Section WrittenFacts.

(** Waiting for an acknowledge writes nothing. *)
Lemma wait_loop_tx fuel :
  forall startTime timeout p, tx (snd (wait_loop fuel startTime timeout p)) = tx p.
Proof.
  induction fuel as [|fuel IH]; intros startTime timeout p; [reflexivity|].
  cbn [wait_loop]. unfold bind at 1. unfold readByte.
  destruct (rx_bytes p) as [|b bs]; [reflexivity|].
  assert (Hother : forall q, tx q = tx p ->
            tx (snd ((do! now <- time_time;
                      if now - startTime >? timeout then raise TimeoutError
                      else wait_loop fuel startTime timeout) q)) = tx p).
  { intros q Hq. unfold bind, time_time.
    destruct (_ >? _); [exact Hq|]. rewrite IH. exact Hq. }
  destruct b as [z|]; [|apply Hother; reflexivity].
  destruct (z =? 21); [reflexivity|].
  destruct (z =? 6); [reflexivity|]. apply Hother. reflexivity.
Qed.

Lemma waitForAcknowledge_tx timeout p :
  tx (snd (waitForAcknowledge timeout p)) = tx p.
Proof.
  unfold waitForAcknowledge, wait_body, bind, time_time.
  match goal with
  | |- context [wait_loop ?f ?s ?t ?q] =>
      pose proof (wait_loop_tx f s t q) as H;
      destruct (wait_loop f s t q) as [[b|e] p']
  end; cbn [snd tx] in *; [exact H|].
  destruct e; exact H.
Qed.

(** A chunk that was sent was written at least once, and nothing else was
    written meanwhile. *)
Lemma send_chunk_written fuel chunk :
  forall p p', send_chunk fuel chunk p = (Ok tt, p') ->
    exists k, tx p' = tx p ++ repeat chunk (S k).
Proof.
  induction fuel as [|fuel IH]; intros p p' H; [discriminate|].
  cbn [send_chunk] in H. unfold bind at 1 in H. unfold sendRawCommand, write in H.
  unfold bind at 1 in H.
  match type of H with
  | context [waitForAcknowledge ?t ?q] =>
      pose proof (waitForAcknowledge_tx t q) as Htx;
      destruct (waitForAcknowledge t q) as [[resp|e] p1]
  end; cbn [snd tx] in Htx; [|discriminate].
  destruct resp.
  - injection H as <-. exists 0%nat. exact Htx.
  - destruct (IH p1 p' H) as [k Hk]. exists (S k).
    rewrite Hk, Htx, <- app_assoc. reflexivity.
Qed.

Lemma send_chunks_written frames :
  forall p p', send_chunks frames p = (Ok tt, p') ->
    exists ks, length ks = length frames /\ tx p' = tx p ++ writes_of frames ks.
Proof.
  induction frames as [|f frames IH]; intros p p' H.
  - injection H as <-. exists []. split; [reflexivity|].
    cbn [writes_of]. rewrite app_nil_r. reflexivity.
  - cbn [send_chunks] in H. unfold bind at 1 in H.
    destruct (send_chunk (S (length (rx_bytes p))) f p) as [[u|e] p1] eqn:E;
      [|discriminate].
    destruct u. destruct (send_chunk_written _ _ _ _ E) as [k Hk].
    destruct (IH p1 p' H) as (ks & Hlen & Hks).
    exists (k :: ks). split; [cbn [length]; lia|].
    cbn [writes_of]. rewrite Hks, Hk, <- app_assoc. reflexivity.
Qed.

Lemma getResponse_tx checkChecksum expected p :
  tx (snd (getResponse checkChecksum expected p)) = tx p.
Proof.
  unfold getResponse, bind, readline.
  destruct (rx_lines p) as [|l ls]; [reflexivity|].
  assert (H : forall q : Port, tx q = tx p ->
            tx (snd (match expected with
                     | Some ((_ :: _) as e) =>
                         if negb (startswith e l) then raise BadResponse else ret l
                     | _ => ret l
                     end q)) = tx p).
  { intros q Hq. destruct expected as [[|x e]|]; try exact Hq.
    destruct (negb _); exact Hq. }
  destruct checkChecksum.
  - unfold lift. destruct (checkNMEAChecksum l); [apply H|]; reflexivity.
  - apply H. reflexivity.
Qed.

(** What a transfer that ended normally has written. *)
Lemma sendData_written initMessage data checkChecksum p p' :
  sendData initMessage data checkChecksum p = (Ok tt, p') ->
  exists frames ks,
    makeChunks data = Ok frames
    /\ length ks = length frames
    /\ tx p' = tx p
               ++ [initMessage ++ b_ "*" ++ calcNMEAChecksum initMessage true ++ [13; 10]]
               ++ writes_of frames ks ++ [[4]].
Proof.
  intros H. unfold sendData in H.
  unfold bind at 1 in H. unfold sendCommand, sendRawCommand, write in H.
  unfold bind at 1 in H.
  match type of H with
  | context [getResponse ?c ?e ?q] =>
      pose proof (getResponse_tx c e q) as T1;
      destruct (getResponse c e q) as [[resp|e1] p1]
  end; cbn [snd tx] in T1; [|discriminate].
  unfold bind at 1 in H. unfold setBaudrate at 1 in H.
  unfold bind at 1 in H. unfold lift at 1 in H.
  destruct (makeChunks data) as [frames|e] eqn:E; [|discriminate].
  unfold bind at 1 in H.
  match type of H with
  | context [waitForAcknowledge ?t ?q] =>
      pose proof (waitForAcknowledge_tx t q) as T2;
      destruct (waitForAcknowledge t q) as [[a0|e2] p2]
  end; cbn [snd tx] in T2; [|discriminate].
  unfold bind at 1 in H.
  destruct (send_chunks frames p2) as [[u|e3] p3] eqn:E3; [|discriminate].
  destruct u. destruct (send_chunks_written _ _ _ E3) as (ks & Hlen & T3).
  unfold bind at 1 in H. unfold sendRawCommand, write in H.
  unfold bind at 1 in H.
  match type of H with
  | context [waitForAcknowledge ?t ?q] =>
      pose proof (waitForAcknowledge_tx t q) as T4;
      destruct (waitForAcknowledge t q) as [[a1|e4] p4]
  end; cbn [snd tx] in T4; [|discriminate].
  unfold bind at 1 in H. destruct a1; [|discriminate].
  unfold ret, setBaudrate in H. injection H as <-. cbn [tx].
  exists frames, ks. split; [reflexivity|]. split; [exact Hlen|].
  rewrite T4, T3, T2, T1, <- !app_assoc. reflexivity.
Qed.

End WrittenFacts.

(** C10.  [makeChunks] raises [IndexError] on the empty payload and
    [ValueError] on a payload of more than 255 * 1024 bytes, and returns
    frames exactly for the payloads in between, between 1 and 255 of them.
    A transfer by [sendData] that ends normally has therefore carried
    between 1 and 255 chunks: what it has written is the command line, then
    the frames of [makeChunks] in order, each at least once, then the byte
    0x04, and nothing else. *)
Theorem makeChunks_domain :
  makeChunks [] = Raise IndexError
  /\ (forall data, (255 * 1024 < length data)%nat -> makeChunks data = Raise ValueError)
  /\ (forall data, (0 < length data <= 255 * 1024)%nat ->
        exists frames, makeChunks data = Ok frames)
  /\ (forall data frames, makeChunks data = Ok frames ->
        (0 < length data <= 255 * 1024)%nat /\ (1 <= length frames <= 255)%nat)
  /\ (forall initMessage data checkChecksum p p',
        sendData initMessage data checkChecksum p = (Ok tt, p') ->
        exists frames ks,
          makeChunks data = Ok frames
          /\ (1 <= length frames <= 255)%nat
          /\ length ks = length frames
          /\ tx p' = tx p
                     ++ [initMessage ++ b_ "*" ++ calcNMEAChecksum initMessage true
                         ++ [13; 10]]
                     ++ writes_of frames ks ++ [[4]]).
Proof.
  split; [exact makeChunks_nil|].
  split; [exact makeChunks_too_long|].
  split.
  { intros data [Hpos Hle]. eexists. apply makeChunks_ok; [|exact Hle].
    intros ->. cbn [length] in Hpos. lia. }
  split; [exact makeChunks_Ok_inv|].
  intros initMessage data checkChecksum p p' H.
  destruct (sendData_written _ _ _ _ _ H) as (frames & ks & E & Hlen & Htx).
  exists frames, ks. split; [exact E|].
  split; [apply (makeChunks_Ok_inv data frames E)|].
  split; [exact Hlen | exact Htx].
Qed.

(** Three bytes are framed and too many are refused; a transfer of three
    bytes whose chunk is refused once has written the command, the frame
    twice and the byte 0x04. *)
Lemma makeChunks_domain_witness :
  (exists frames, makeChunks [1; 2; 3] = Ok frames)
  /\ makeChunks (repeat 0 (255 * 1024 + 1)) = Raise ValueError
  /\ exists frames ks,
       makeChunks [1; 2; 3] = Ok frames
       /\ (1 <= length frames <= 255)%nat
       /\ length ks = length frames
       /\ tx (snd (sendData (b_ "$POEM12,4") [1; 2; 3] false
                     (scripted_port [b_ "$POEM200,12,004*00"]
                        [Some 21; Some 21; Some 6; Some 6] 50)))
          = [] ++ [b_ "$POEM12,4" ++ b_ "*" ++ calcNMEAChecksum (b_ "$POEM12,4") true
                   ++ [13; 10]]
            ++ writes_of frames ks ++ [[4]].
Proof.
  destruct makeChunks_domain as (_ & Hlong & Hok & _ & Hsent).
  split; [|split].
  - apply Hok. cbn [length]. lia.
  - apply Hlong. rewrite repeat_length. lia.
  - apply (Hsent (b_ "$POEM12,4") [1; 2; 3] false
             (scripted_port [b_ "$POEM200,12,004*00"]
                [Some 21; Some 21; Some 6; Some 6] 50)).
    vm_compute. reflexivity.
Defined.

(** ** Route: test vectors *)

Example Route_toBin_parseBin_example :
  rbind (Route.toBin [RoutePoint.mk [72; 105] 4 (Int 4941000) (Int 869000)])
        Route.parseBin
  = Ok (Route.mk
          ([1; 0; 1; 0; 96; 0; 0; 0; 102; 0; 0; 0; 168; 0; 0; 0; 0; 0; 144; 254]
           ++ ([1; 0; 2; 0] ++ repeat 0 60 ++ [4; 0; 0; 0]
               ++ [200; 100; 75; 0] ++ [136; 66; 13; 0])
           ++ [0; 0; 72; 0; 105; 0]
           ++ repeat 0 22
           ++ [0; 252; 252; 32; 32; 32; 252; 252; 0; 0; 0; 0; 3; 3; 0; 0; 0; 3; 3; 0; 0; 0]
           ++ [0; 246; 246; 0; 0; 0; 0; 0; 0; 0; 0; 0; 3; 3; 0; 0; 0; 0; 0; 0; 0; 0])
          [RoutePoint.mk [72; 105] 4 (MulEm5 4941000) (MulEm5 869000)]
          [[0]; [72]; [105]] 1 1 96 102 168).
Proof. vm_compute. reflexivity. Qed.

(** ** Checksums *)

Section BitFacts.

Lemma lxor_range n a b :
  0 <= n -> 0 <= a < 2 ^ n -> 0 <= b < 2 ^ n -> 0 <= Z.lxor a b < 2 ^ n.
Proof.
  intros Hn Ha Hb.
  assert (H0 : 0 <= Z.lxor a b) by (apply Z.lxor_nonneg; lia).
  split; [exact H0|].
  assert (Hs : Z.shiftr (Z.lxor a b) n = 0).
  { rewrite Z.shiftr_lxor, !Z.shiftr_div_pow2 by lia.
    rewrite !Z.div_small by lia. reflexivity. }
  rewrite Z.shiftr_div_pow2 in Hs by lia.
  apply Z.div_small_iff in Hs; lia.
Qed.

Lemma lxor_cancel_r a b c : Z.lxor a c = Z.lxor b c -> a = b.
Proof.
  intros H. apply (f_equal (fun x => Z.lxor x c)) in H.
  rewrite !Z.lxor_assoc, Z.lxor_nilpotent, !Z.lxor_0_r in H. exact H.
Qed.

Lemma lxor_cancel_l a b c : Z.lxor c a = Z.lxor c b -> a = b.
Proof. rewrite !(Z.lxor_comm c). apply lxor_cancel_r. Qed.

Lemma check_range_spec P count :
  forall from, check_range P from count = true ->
    forall z, from <= z < from + Z.of_nat count -> P z = true.
Proof.
  induction count as [|c IH]; intros from H z Hz; [lia|].
  cbn [check_range] in H. apply andb_true_iff in H as [H1 H2].
  destruct (Z.eq_dec z from) as [->|Hne]; [exact H1|].
  apply (IH (from + 1) H2). lia.
Qed.

End BitFacts.

Section CrcFacts.

Lemma crc_shift_facts s :
  in16 s -> in16 (crc_shift s) /\ crc_unshift (crc_shift s) = s.
Proof.
  intros Hs.
  assert (H : check_range
                (fun s => (0 <=? crc_shift s) && (crc_shift s <? 65536)
                          && (crc_unshift (crc_shift s) =? s))
                0 (Z.to_nat 65536) = true) by (vm_compute; reflexivity).
  pose proof (check_range_spec _ _ _ H s) as Hc. unfold in16 in *.
  specialize (Hc ltac:(lia)). cbv beta in Hc.
  apply andb_true_iff in Hc as [Hc H3]. apply andb_true_iff in Hc as [H1 H2].
  lia.
Qed.

Lemma crc_iter_range k s : in16 s -> in16 (Nat.iter k crc_shift s).
Proof.
  induction k as [|k IH]; intros Hs; [exact Hs|].
  cbn [Nat.iter]. apply crc_shift_facts. apply IH. exact Hs.
Qed.

Lemma crc_iter_inj k s s' :
  in16 s -> in16 s' -> Nat.iter k crc_shift s = Nat.iter k crc_shift s' -> s = s'.
Proof.
  intros Hs Hs'. induction k as [|k IH]; intros H; [exact H|].
  rewrite !Nat.iter_succ in H. apply IH.
  destruct (crc_shift_facts _ (crc_iter_range k s Hs)) as [_ E1].
  destruct (crc_shift_facts _ (crc_iter_range k s' Hs')) as [_ E2].
  apply (f_equal crc_unshift) in H. rewrite E1, E2 in H. exact H.
Qed.

Lemma byte_shift_range b : is_byte b -> in16 (Z.shiftl b 8).
Proof. unfold is_byte, in16. intros H. rewrite Z.shiftl_mul_pow2 by lia. lia. Qed.

Lemma crc_feed_range s b : in16 s -> is_byte b -> in16 (Z.lxor s (Z.shiftl b 8)).
Proof.
  intros Hs Hb. pose proof (byte_shift_range b Hb) as Hb'. unfold in16 in *.
  apply (lxor_range 16); lia.
Qed.

Lemma crc_update_range s b : in16 s -> is_byte b -> in16 (crc_update s b).
Proof. intros Hs Hb. apply crc_iter_range, crc_feed_range; assumption. Qed.

Lemma crc_update_inj_state s s' b :
  in16 s -> in16 s' -> is_byte b -> crc_update s b = crc_update s' b -> s = s'.
Proof.
  intros Hs Hs' Hb H. unfold crc_update in H.
  apply crc_iter_inj in H; [|apply crc_feed_range; assumption ..].
  eapply lxor_cancel_r; eassumption.
Qed.

Lemma crc_update_inj_byte s b b' :
  in16 s -> is_byte b -> is_byte b' -> crc_update s b = crc_update s b' -> b = b'.
Proof.
  intros Hs Hb Hb' H. unfold crc_update in H.
  apply crc_iter_inj in H; [|apply crc_feed_range; assumption ..].
  apply lxor_cancel_l in H. unfold is_byte in *.
  rewrite !Z.shiftl_mul_pow2 in H by lia. lia.
Qed.

Lemma crc_fold_range l :
  forall s, in16 s -> Forall is_byte l -> in16 (fold_left crc_update l s).
Proof.
  induction l as [|b l IH]; intros s Hs Hl; [exact Hs|].
  inversion Hl; subst. cbn [fold_left]. apply IH; [|assumption].
  apply crc_update_range; assumption.
Qed.

Lemma crc_fold_inj l :
  forall s s', in16 s -> in16 s' -> Forall is_byte l ->
    fold_left crc_update l s = fold_left crc_update l s' -> s = s'.
Proof.
  induction l as [|b l IH]; intros s s' Hs Hs' Hl H; [exact H|].
  inversion Hl; subst. cbn [fold_left] in H.
  apply IH in H; [|apply crc_update_range; assumption ..|assumption].
  eapply crc_update_inj_state; eassumption.
Qed.

(** Two payloads that differ in one byte have different CRCs. *)
Lemma crc_detects pre b b' post :
  Forall is_byte pre -> Forall is_byte post -> is_byte b -> is_byte b' -> b <> b' ->
  crc16_xmodem (pre ++ b :: post) <> crc16_xmodem (pre ++ b' :: post).
Proof.
  intros Hpre Hpost Hb Hb' Hne H. unfold crc16_xmodem in H.
  rewrite !fold_left_app in H. cbn [fold_left] in H.
  assert (H0 : in16 (fold_left crc_update pre 0))
    by (apply crc_fold_range; [unfold in16; lia | assumption]).
  apply crc_fold_inj in H; [|apply crc_update_range; assumption ..|assumption].
  apply crc_update_inj_byte in H; auto.
Qed.

Lemma crc16_range l : Forall is_byte l -> in16 (crc16_xmodem l).
Proof. intros H. apply crc_fold_range; [unfold in16; lia | assumption]. Qed.

Lemma digest_inj c c' :
  in16 c -> in16 c' -> [c / 256; c mod 256] = [c' / 256; c' mod 256] -> c = c'.
Proof.
  intros _ _ H. injection H as H1 H2.
  rewrite (Z.div_mod c 256), (Z.div_mod c' 256) by lia. congruence.
Qed.

Lemma checkCrcChecksum_spec string checksum :
  (calcCrcChecksum string = checksum -> checkCrcChecksum string checksum = Ok tt)
  /\ (calcCrcChecksum string <> checksum ->
      checkCrcChecksum string checksum = Raise BadChecksum).
Proof.
  unfold checkCrcChecksum. split; intros H.
  - rewrite bool_decide_eq_true_2 by assumption. reflexivity.
  - rewrite bool_decide_eq_false_2 by assumption. reflexivity.
Qed.

Lemma checkCrcChecksum_Ok string checksum :
  checkCrcChecksum string checksum = Ok tt -> calcCrcChecksum string = checksum.
Proof.
  unfold checkCrcChecksum. destruct (bool_decide_reflect (calcCrcChecksum string = checksum));
    [auto | discriminate].
Qed.

(** A changed payload byte, or a changed byte of the trailer, fails the CRC
    check. *)
Lemma crc_guard pre b b' post trailer :
  Forall is_byte pre -> Forall is_byte post -> is_byte b -> is_byte b' -> b <> b' ->
  checkCrcChecksum (pre ++ b :: post) trailer = Ok tt ->
  checkCrcChecksum (pre ++ b' :: post) trailer = Raise BadChecksum.
Proof.
  intros Hpre Hpost Hb Hb' Hne Hok. apply checkCrcChecksum_Ok in Hok.
  apply checkCrcChecksum_spec. rewrite <- Hok. unfold calcCrcChecksum. intros H.
  apply digest_inj in H.
  - symmetry in H. revert H. apply crc_detects; assumption.
  - apply crc16_range. apply Forall_app. split; [assumption|]. constructor; assumption.
  - apply crc16_range. apply Forall_app. split; [assumption|]. constructor; assumption.
Qed.

Lemma crc_trailer_guard string t1 x x' t2 :
  x <> x' ->
  checkCrcChecksum string (t1 ++ x :: t2) = Ok tt ->
  checkCrcChecksum string (t1 ++ x' :: t2) = Raise BadChecksum.
Proof.
  intros Hne Hok. apply checkCrcChecksum_Ok in Hok.
  apply checkCrcChecksum_spec. rewrite Hok. intros H.
  apply app_inv_head in H. congruence.
Qed.

End CrcFacts.

Section NmeaFacts.

Lemma xor_fold l : forall a, fold_left Z.lxor l a = Z.lxor a (xor_all l).
Proof.
  unfold xor_all. induction l as [|x l IH]; intros a; cbn [fold_left].
  - rewrite Z.lxor_0_r. reflexivity.
  - rewrite IH, (IH (Z.lxor 0 x)), Z.lxor_0_l, Z.lxor_assoc. reflexivity.
Qed.

Lemma xor_all_cons x l : xor_all (x :: l) = Z.lxor x (xor_all l).
Proof. unfold xor_all at 1. cbn [fold_left]. rewrite xor_fold, Z.lxor_0_l. reflexivity. Qed.

Lemma xor_all_app a b : xor_all (a ++ b) = Z.lxor (xor_all a) (xor_all b).
Proof. unfold xor_all at 1. rewrite fold_left_app. fold (xor_all a). apply xor_fold. Qed.

Lemma xor_all_range l : Forall is_byte l -> is_byte (xor_all l).
Proof.
  induction 1 as [|x l Hx Hl IH]; [unfold is_byte, xor_all; cbn; lia|].
  rewrite xor_all_cons. unfold is_byte in *. apply (lxor_range 8); lia.
Qed.

Lemma xor_all_change b1 x x' b2 :
  x <> x' -> xor_all (b1 ++ x :: b2) <> xor_all (b1 ++ x' :: b2).
Proof.
  intros Hne H. rewrite !xor_all_app, !xor_all_cons in H.
  apply lxor_cancel_l, lxor_cancel_r in H. contradiction.
Qed.

Lemma hex_facts d :
  0 <= d < 16 ->
  unhex (upper_byte (hexdigit d)) = d
  /\ is_space (upper_byte (hexdigit d)) = false
  /\ upper_byte (upper_byte (hexdigit d)) = upper_byte (hexdigit d).
Proof.
  intros Hd.
  assert (H : check_range
                (fun d => (unhex (upper_byte (hexdigit d)) =? d)
                          && negb (is_space (upper_byte (hexdigit d)))
                          && (upper_byte (upper_byte (hexdigit d))
                              =? upper_byte (hexdigit d)))
                0 16 = true) by reflexivity.
  pose proof (check_range_spec _ _ _ H d ltac:(lia)) as Hc. cbv beta in Hc.
  apply andb_true_iff in Hc as [Hc H3]. apply andb_true_iff in Hc as [H1 H2].
  apply negb_true_iff in H2. apply Z.eqb_eq in H1, H3.
  split; [exact H1|]. split; [exact H2 | exact H3].
Qed.

Lemma format_inj c c' :
  is_byte c -> is_byte c' -> upper (format_02x c) = upper (format_02x c') -> c = c'.
Proof.
  unfold is_byte. intros Hc Hc' H. unfold upper, format_02x in H. cbn [map] in H.
  injection H as H1 H2.
  apply (f_equal unhex) in H1, H2.
  assert (D1 : 0 <= c / 16 < 16)
    by (split; [apply Z.div_pos | apply Z.div_lt_upper_bound]; lia).
  assert (D1' : 0 <= c' / 16 < 16)
    by (split; [apply Z.div_pos | apply Z.div_lt_upper_bound]; lia).
  assert (D2 : 0 <= c mod 16 < 16) by (apply Z.mod_pos_bound; lia).
  assert (D2' : 0 <= c' mod 16 < 16) by (apply Z.mod_pos_bound; lia).
  rewrite (proj1 (hex_facts _ D1)), (proj1 (hex_facts _ D1')) in H1.
  rewrite (proj1 (hex_facts _ D2)), (proj1 (hex_facts _ D2')) in H2.
  rewrite (Z.div_mod c 16), (Z.div_mod c' 16) by lia. congruence.
Qed.

Lemma calc_no_dollar body :
  calcNMEAChecksum body false = upper (format_02x (xor_all body)).
Proof. reflexivity. Qed.

Lemma checksum_of_eq body : checksum_of body = upper (format_02x (xor_all body)).
Proof. reflexivity. Qed.

Lemma checksum_of_chars body :
  Forall is_byte body ->
  exists c1 c2,
    checksum_of body = [c1; c2] /\ is_space c2 = false
    /\ upper_byte c1 = c1 /\ upper_byte c2 = c2.
Proof.
  intros Hb. pose proof (xor_all_range body Hb) as Hx. unfold is_byte in Hx.
  rewrite checksum_of_eq. unfold upper, format_02x. cbn [map].
  eexists _, _. split; [reflexivity|].
  assert (H1 : 0 <= xor_all body / 16 < 16)
    by (split; [apply Z.div_pos | apply Z.div_lt_upper_bound]; lia).
  assert (H2 : 0 <= xor_all body mod 16 < 16) by (apply Z.mod_pos_bound; lia).
  split; [apply hex_facts; assumption|]. split; apply hex_facts; assumption.
Qed.

Lemma lstrip_keep b l : is_space b = false -> lstrip (b :: l) = b :: l.
Proof. intros H. cbn [lstrip]. rewrite H. reflexivity. Qed.

Lemma lstrip_app_stop (h : bytes) (c : Z) (r : bytes) :
  is_space c = false -> lstrip (h ++ c :: r) = lstrip h ++ c :: r.
Proof.
  intros Hc. induction h as [|a h IH]; cbn [app lstrip].
  - rewrite Hc. reflexivity.
  - destruct (is_space a); [exact IH | reflexivity].
Qed.

Lemma lstrip_Forall (P : Z -> Prop) (h : bytes) :
  Forall P h -> Forall P (lstrip h).
Proof.
  induction 1 as [|a h Ha Hh IH]; cbn [lstrip]; [constructor|].
  destruct (is_space a); [exact IH | constructor; assumption].
Qed.

Lemma lstrip_spaces (w l : bytes) :
  Forall (fun b => is_space b = true) w -> lstrip (w ++ l) = lstrip l.
Proof.
  induction 1 as [|b w Hb Hw IH]; [reflexivity|].
  cbn [app lstrip]. rewrite Hb. exact IH.
Qed.

(** [strip] of a line between two bytes that are not white space, with
    white space behind. *)
Lemma strip_ends h X c ws :
  is_space h = false -> is_space c = false ->
  Forall (fun b => is_space b = true) ws ->
  strip (h :: X ++ c :: ws) = h :: X ++ [c].
Proof.
  intros Hh Hc Hws. unfold strip. rewrite lstrip_keep by assumption.
  change (h :: X ++ c :: ws) with ((h :: X) ++ c :: ws).
  rewrite rev_app_distr. cbn [rev]. rewrite <- !app_assoc. cbn [app].
  rewrite lstrip_spaces by (apply List.Forall_rev; assumption).
  rewrite lstrip_keep by assumption.
  change (c :: rev X ++ [h]) with ([c] ++ rev X ++ [h]).
  rewrite !rev_app_distr, rev_involutive. reflexivity.
Qed.

Lemma startswith_dollar h t : startswith (b_ "$") (h :: t) = (h =? 36).
Proof.
  unfold startswith. change (b_ "$") with [36]. cbn [length firstn].
  destruct (Z.eqb_spec h 36) as [->|Hne].
  - apply bool_decide_eq_true_2. reflexivity.
  - apply bool_decide_eq_false_2. congruence.
Qed.

(** The check behind the two stripping steps, on what they leave. *)
Lemma checkNMEAChecksum_tail respString msg s a b :
  (if startswith (b_ "$") (strip respString) then skipn 1 (strip respString)
   else strip respString) = msg ++ [s; a; b] ->
  checkNMEAChecksum respString
  = if s =? 42
    then if bool_decide (upper [a; b] = upper (calcNMEAChecksum msg false))
         then Ok tt else Raise BadChecksum
    else Raise BadChecksum.
Proof.
  intros H. unfold checkNMEAChecksum. cbv zeta. rewrite H.
  assert (Hlen : length (msg ++ [s; a; b]) = (length msg + 3)%nat)
    by (rewrite length_app; reflexivity).
  unfold index_neg, index. rewrite Hlen.
  destruct (Nat.ltb_spec (length msg + 3) 3); [lia|].
  replace (length msg + 3 - 3)%nat with (length msg) by lia.
  rewrite nth_error_app2 by lia. rewrite Nat.sub_diag. cbn [nth_error rbind].
  destruct (s =? 42); [|reflexivity]. cbn [negb].
  unfold slice_but_last, slice_last. rewrite Hlen.
  replace (length msg + 3 - 3)%nat with (length msg) by lia.
  replace (length msg + 3 - 2)%nat with (length msg + 1)%nat by lia.
  rewrite firstn_app, firstn_all, Nat.sub_diag. cbn [firstn]. rewrite app_nil_r.
  rewrite skipn_app, skipn_all2 by lia.
  replace (length msg + 1 - length msg)%nat with 1%nat by lia. cbn [skipn app].
  reflexivity.
Qed.

(** How the check runs on a line with its [$] and its line end in place. *)
Lemma checkNMEAChecksum_line body star c1 c2 :
  is_space c2 = false ->
  checkNMEAChecksum (line_of 36 body star c1 c2 13 10)
  = if star =? 42
    then if bool_decide (upper [c1; c2] = upper (calcNMEAChecksum body false))
         then Ok tt else Raise BadChecksum
    else Raise BadChecksum.
Proof.
  intros Hc. apply checkNMEAChecksum_tail. unfold line_of.
  replace (body ++ [star; c1; c2; 13; 10]) with ((body ++ [star; c1]) ++ c2 :: [13; 10])
    by (rewrite <- app_assoc; reflexivity).
  rewrite strip_ends; [|reflexivity | assumption | repeat constructor].
  rewrite startswith_dollar. cbn [Z.eqb Pos.eqb skipn].
  rewrite <- app_assoc. reflexivity.
Qed.

(** The characters of a checksum: upper-case hexadecimal digits. *)
Lemma hex_char d :
  0 <= d < 16 ->
  upper_byte (hexdigit d) <> 42 /\ is_space (upper_byte (hexdigit d)) = false
  /\ upper_byte (upper_byte (hexdigit d)) = upper_byte (hexdigit d).
Proof.
  intros Hd.
  assert (H : check_range
                (fun d => negb (upper_byte (hexdigit d) =? 42)
                          && negb (is_space (upper_byte (hexdigit d)))
                          && (upper_byte (upper_byte (hexdigit d))
                              =? upper_byte (hexdigit d)))
                0 16 = true) by reflexivity.
  pose proof (check_range_spec _ _ _ H d ltac:(lia)) as Hc. cbv beta in Hc.
  apply andb_true_iff in Hc as [Hc H3]. apply andb_true_iff in Hc as [H1 H2].
  apply negb_true_iff in H1, H2. apply Z.eqb_neq in H1. apply Z.eqb_eq in H3.
  split; [exact H1|]. split; [exact H2 | exact H3].
Qed.

Lemma format_chars c :
  is_byte c ->
  exists c1 c2,
    upper (format_02x c) = [c1; c2]
    /\ c1 <> 42 /\ c2 <> 42 /\ is_space c1 = false /\ is_space c2 = false
    /\ upper_byte c1 = c1 /\ upper_byte c2 = c2.
Proof.
  unfold is_byte. intros Hc. unfold upper, format_02x. cbn [map].
  assert (H1 : 0 <= c / 16 < 16)
    by (split; [apply Z.div_pos | apply Z.div_lt_upper_bound]; lia).
  assert (H2 : 0 <= c mod 16 < 16) by (apply Z.mod_pos_bound; lia).
  destruct (hex_char _ H1) as (A1 & A2 & A3).
  destruct (hex_char _ H2) as (B1 & B2 & B3).
  eexists _, _. split; [reflexivity|]. repeat split; assumption.
Qed.

Lemma checksum_chars body c1 c2 :
  Forall is_byte body -> checksum_of body = [c1; c2] ->
  c1 <> 42 /\ c2 <> 42 /\ is_space c1 = false /\ is_space c2 = false
  /\ upper_byte c1 = c1 /\ upper_byte c2 = c2.
Proof.
  intros Hb Hc.
  destruct (format_chars _ (xor_all_range body Hb)) as (d1 & d2 & E & H).
  rewrite checksum_of_eq, E in Hc. injection Hc as <- <-. exact H.
Qed.

Lemma nmea_valid body c1 c2 :
  Forall is_byte body -> checksum_of body = [c1; c2] ->
  checkNMEAChecksum (line_of 36 body 42 c1 c2 13 10) = Ok tt.
Proof.
  intros Hb Hc. destruct (checksum_chars body c1 c2 Hb Hc) as (_ & _ & _ & Hs & U1 & U2).
  rewrite checkNMEAChecksum_line by assumption. cbn [Z.eqb Pos.eqb].
  rewrite bool_decide_eq_true_2; [reflexivity|].
  rewrite calc_no_dollar, <- checksum_of_eq, Hc. cbn [upper map]. congruence.
Qed.

(** The checksum of a line does not fit a message with another XOR. *)
Lemma nmea_message_guard body msg c1 c2 :
  Forall is_byte body -> Forall is_byte msg -> checksum_of body = [c1; c2] ->
  xor_all msg <> xor_all body ->
  bool_decide (upper [c1; c2] = upper (calcNMEAChecksum msg false)) = false.
Proof.
  intros Hb Hm Hc Hne.
  destruct (checksum_chars body c1 c2 Hb Hc) as (_ & _ & _ & _ & U1 & U2).
  apply bool_decide_eq_false_2. intros H. rewrite calc_no_dollar in H.
  assert (Hup : upper [c1; c2] = [c1; c2]) by (cbn [upper map]; congruence).
  rewrite Hup, <- Hc, checksum_of_eq in H.
  assert (Hidem : upper (upper (format_02x (xor_all msg)))
                  = upper (format_02x (xor_all msg))).
  { destruct (format_chars _ (xor_all_range msg Hm)) as (e1 & e2 & E & _ & _ & _ & _ & V1 & V2).
    rewrite E. cbn [upper map]. congruence. }
  rewrite Hidem in H. apply format_inj in H; try (apply xor_all_range; assumption).
  congruence.
Qed.

(** A changed byte of the body. *)
Lemma nmea_body_guard b1 x x' b2 c1 c2 :
  Forall is_byte (b1 ++ x :: b2) -> is_byte x' -> x <> x' ->
  checksum_of (b1 ++ x :: b2) = [c1; c2] ->
  checkNMEAChecksum (line_of 36 (b1 ++ x' :: b2) 42 c1 c2 13 10) = Raise BadChecksum.
Proof.
  intros Hb Hx' Hne Hc.
  destruct (checksum_chars _ c1 c2 Hb Hc) as (_ & _ & _ & Hs & _).
  rewrite checkNMEAChecksum_line by assumption. cbn [Z.eqb Pos.eqb].
  assert (Hb' : Forall is_byte (b1 ++ x' :: b2)).
  { apply Forall_app in Hb as [H1 H2]. inversion H2; subst.
    apply Forall_app. split; [assumption|]. constructor; assumption. }
  rewrite (nmea_message_guard (b1 ++ x :: b2)); try assumption; [reflexivity|].
  intros H. symmetry in H. revert H. apply xor_all_change. assumption.
Qed.

(** A changed [$]: what takes its place is not stripped unless it is white
    space, and enters the XOR. *)
Lemma nmea_dollar_guard body c1 c2 y :
  Forall is_byte body -> checksum_of body = [c1; c2] ->
  is_byte y -> y <> 36 -> y <> 0 -> is_space y = false ->
  checkNMEAChecksum (line_of y body 42 c1 c2 13 10) = Raise BadChecksum.
Proof.
  intros Hb Hc Hy H36 H0 Hsp.
  destruct (checksum_chars _ c1 c2 Hb Hc) as (_ & _ & _ & Hs & _).
  rewrite (checkNMEAChecksum_tail _ (y :: body) 42 c1 c2).
  - cbn [Z.eqb Pos.eqb].
    rewrite (nmea_message_guard body); try assumption; [reflexivity | |].
    + constructor; assumption.
    + rewrite xor_all_cons. intros H.
      rewrite <- (Z.lxor_0_l (xor_all body)) in H at 2.
      apply lxor_cancel_r in H. contradiction.
  - unfold line_of.
    replace (body ++ [42; c1; c2; 13; 10]) with ((body ++ [42; c1]) ++ c2 :: [13; 10])
      by (rewrite <- app_assoc; reflexivity).
    rewrite strip_ends; [|assumption | assumption | repeat constructor].
    rewrite startswith_dollar. destruct (Z.eqb_spec y 36); [contradiction|].
    rewrite <- app_assoc. reflexivity.
Qed.

(** A changed separator and changed checksum characters. *)
Lemma nmea_tail_guard body c1 c2 :
  Forall is_byte body -> checksum_of body = [c1; c2] ->
  (forall y, y <> 42 ->
     checkNMEAChecksum (line_of 36 body y c1 c2 13 10) = Raise BadChecksum)
  /\ (forall d, upper_byte d <> c1 ->
        checkNMEAChecksum (line_of 36 body 42 d c2 13 10) = Raise BadChecksum)
  /\ (forall d, upper_byte d <> c2 -> is_space d = false \/ body <> [] ->
        checkNMEAChecksum (line_of 36 body 42 c1 d 13 10) = Raise BadChecksum).
Proof.
  intros Hb Hc.
  destruct (checksum_chars body c1 c2 Hb Hc) as (_ & _ & Hs1 & Hs & U1 & U2).
  assert (Hexp : upper (calcNMEAChecksum body false) = [c1; c2]).
  { rewrite calc_no_dollar, <- checksum_of_eq, Hc. cbn [upper map]. congruence. }
  repeat split.
  - intros y Hy. rewrite checkNMEAChecksum_line by assumption.
    destruct (Z.eqb_spec y 42); [contradiction | reflexivity].
  - intros d Hd. rewrite checkNMEAChecksum_line by assumption. cbn [Z.eqb Pos.eqb].
    rewrite bool_decide_eq_false_2; [reflexivity|].
    rewrite Hexp. cbn [upper map]. congruence.
  - intros d Hd Hcase. destruct (is_space d) eqn:Hsp.
    + (* white space: stripped with the line end *)
      destruct Hcase as [Hcase|Hne]; [discriminate|].
      destruct (exists_last Hne) as (b' & z & ->).
      assert (Hb' : Forall is_byte b') by (apply Forall_app in Hb; tauto).
      rewrite (checkNMEAChecksum_tail _ b' z 42 c1).
      * destruct (z =? 42); [|reflexivity].
        rewrite bool_decide_eq_false_2; [reflexivity|].
        rewrite calc_no_dollar.
        destruct (format_chars _ (xor_all_range b' Hb'))
          as (e1 & e2 & E & He1 & _ & _ & _ & V1 & V2).
        rewrite E. cbn [upper map]. change (upper_byte 42) with 42.
        intros H. injection H as H _. congruence.
      * unfold line_of.
        replace ((b' ++ [z]) ++ [42; c1; d; 13; 10])
          with ((b' ++ [z; 42]) ++ c1 :: [d; 13; 10])
          by (rewrite <- !app_assoc; reflexivity).
        rewrite strip_ends; [|reflexivity | assumption | repeat constructor; assumption].
        rewrite startswith_dollar. cbn [Z.eqb Pos.eqb skipn].
        rewrite <- !app_assoc. reflexivity.
    + rewrite checkNMEAChecksum_line by assumption. cbn [Z.eqb Pos.eqb].
      rewrite bool_decide_eq_false_2; [reflexivity|].
      rewrite Hexp. cbn [upper map]. congruence.
Qed.

(** A changed line end: a byte that is not white space stays on the line
    and moves the place where the separator is looked for. *)
Lemma nmea_eol_guard body c1 c2 y :
  Forall is_byte body -> checksum_of body = [c1; c2] -> is_space y = false ->
  checkNMEAChecksum (line_of 36 body 42 c1 c2 y 10) = Raise BadChecksum
  /\ checkNMEAChecksum (line_of 36 body 42 c1 c2 13 y) = Raise BadChecksum.
Proof.
  intros Hb Hc Hy.
  destruct (checksum_chars body c1 c2 Hb Hc) as (N1 & N2 & _).
  split.
  - rewrite (checkNMEAChecksum_tail _ (body ++ [42]) c1 c2 y).
    + destruct (Z.eqb_spec c1 42); [contradiction | reflexivity].
    + unfold line_of.
      replace (body ++ [42; c1; c2; y; 10]) with ((body ++ [42; c1; c2]) ++ y :: [10])
        by (rewrite <- app_assoc; reflexivity).
      rewrite strip_ends; [|reflexivity | assumption | repeat constructor].
      rewrite startswith_dollar. cbn [Z.eqb Pos.eqb skipn].
      rewrite <- !app_assoc. reflexivity.
  - rewrite (checkNMEAChecksum_tail _ (body ++ [42; c1]) c2 13 y).
    + destruct (Z.eqb_spec c2 42); [contradiction | reflexivity].
    + unfold line_of.
      replace (body ++ [42; c1; c2; 13; y]) with ((body ++ [42; c1; c2; 13]) ++ y :: [])
        by (rewrite <- app_assoc; reflexivity).
      rewrite strip_ends; [|reflexivity | assumption | constructor].
      rewrite startswith_dollar. cbn [Z.eqb Pos.eqb skipn].
      rewrite <- !app_assoc. reflexivity.
Qed.

(** The changes that pass: a checksum character in lower case, NUL for
    the [$], white space for the carriage return or the line feed. *)
Lemma nmea_unguarded body c1 c2 :
  Forall is_byte body -> checksum_of body = [c1; c2] ->
  (forall d, upper_byte d = c1 ->
     checkNMEAChecksum (line_of 36 body 42 d c2 13 10) = Ok tt)
  /\ (forall d, upper_byte d = c2 ->
        checkNMEAChecksum (line_of 36 body 42 c1 d 13 10) = Ok tt)
  /\ checkNMEAChecksum (line_of 0 body 42 c1 c2 13 10) = Ok tt
  /\ (forall y, is_space y = true ->
        checkNMEAChecksum (line_of 36 body 42 c1 c2 y 10) = Ok tt
        /\ checkNMEAChecksum (line_of 36 body 42 c1 c2 13 y) = Ok tt).
Proof.
  intros Hb Hc.
  destruct (checksum_chars body c1 c2 Hb Hc) as (_ & _ & Hs1 & Hs & U1 & U2).
  assert (Hexp : upper (calcNMEAChecksum body false) = [c1; c2]).
  { rewrite calc_no_dollar, <- checksum_of_eq, Hc. cbn [upper map]. congruence. }
  assert (Hsame : forall respString,
            (if startswith (b_ "$") (strip respString) then skipn 1 (strip respString)
             else strip respString) = body ++ [42; c1; c2] ->
            checkNMEAChecksum respString = Ok tt).
  { intros respString H. rewrite (checkNMEAChecksum_tail _ body 42 c1 c2 H).
    cbn [Z.eqb Pos.eqb]. rewrite bool_decide_eq_true_2; [reflexivity|].
    rewrite Hexp. cbn [upper map]. congruence. }
  split; [|split; [|split]].
  - intros d Hd. rewrite checkNMEAChecksum_line by assumption. cbn [Z.eqb Pos.eqb].
    rewrite bool_decide_eq_true_2; [reflexivity|].
    rewrite Hexp. cbn [upper map]. congruence.
  - intros d Hd.
    assert (Hsd : is_space d = false).
    { destruct (is_space d) eqn:E; [|reflexivity].
      assert (upper_byte d = d) as Hud.
      { unfold upper_byte. unfold is_space in E.
        destruct ((97 <=? d) && (d <=? 122)) eqn:E2; [|reflexivity]. lia. }
      rewrite Hud in Hd. subst d. congruence. }
    rewrite checkNMEAChecksum_line by assumption. cbn [Z.eqb Pos.eqb].
    rewrite bool_decide_eq_true_2; [reflexivity|].
    rewrite Hexp. cbn [upper map]. congruence.
  - rewrite (checkNMEAChecksum_tail _ (0 :: body) 42 c1 c2).
    + cbn [Z.eqb Pos.eqb]. rewrite bool_decide_eq_true_2; [reflexivity|].
      rewrite calc_no_dollar, xor_all_cons, Z.lxor_0_l, <- calc_no_dollar, Hexp.
      cbn [upper map]. congruence.
    + unfold line_of.
      replace (body ++ [42; c1; c2; 13; 10]) with ((body ++ [42; c1]) ++ c2 :: [13; 10])
        by (rewrite <- app_assoc; reflexivity).
      rewrite strip_ends; [|reflexivity | assumption | repeat constructor].
      rewrite startswith_dollar. cbn [Z.eqb]. rewrite <- app_assoc. reflexivity.
  - intros y Hy. split; apply Hsame; unfold line_of.
    + replace (body ++ [42; c1; c2; y; 10]) with ((body ++ [42; c1]) ++ c2 :: [y; 10])
        by (rewrite <- app_assoc; reflexivity).
      rewrite strip_ends; [|reflexivity | assumption | repeat constructor; assumption].
      rewrite startswith_dollar. cbn [Z.eqb Pos.eqb skipn].
      rewrite <- app_assoc. reflexivity.
    + replace (body ++ [42; c1; c2; 13; y]) with ((body ++ [42; c1]) ++ c2 :: [13; y])
        by (rewrite <- app_assoc; reflexivity).
      rewrite strip_ends; [|reflexivity | assumption | repeat constructor; assumption].
      rewrite startswith_dollar. cbn [Z.eqb Pos.eqb skipn].
      rewrite <- app_assoc. reflexivity.
Qed.

Lemma strip_dollar_app (m t : bytes) :
  strip_dollar (m ++ 42 :: t) = strip_dollar m ++ 42 :: t.
Proof.
  unfold strip_dollar. destruct m as [|h m]; [reflexivity|].
  cbn [app]. rewrite !startswith_dollar. destruct (h =? 36); reflexivity.
Qed.

Lemma strip_dollar_Forall (P : Z -> Prop) (m : bytes) :
  Forall P m -> Forall P (strip_dollar m).
Proof.
  intros H. unfold strip_dollar. destruct (startswith _ m); [|exact H].
  destruct H; [constructor | assumption].
Qed.

(** White space in place of the [$] is stripped together with the white
    space and the [$] that the body begins with: the change is found out
    exactly when the bytes lost in this way do not cancel in the XOR. *)
Lemma nmea_dollar_space body c1 c2 y :
  Forall is_byte body -> checksum_of body = [c1; c2] -> is_space y = true ->
  checkNMEAChecksum (line_of y body 42 c1 c2 13 10)
  = if xor_all (strip_dollar (lstrip body)) =? xor_all body
    then Ok tt else Raise BadChecksum.
Proof.
  intros Hb Hc Hy.
  destruct (checksum_chars body c1 c2 Hb Hc) as (_ & _ & Hs1 & Hs & U1 & U2).
  assert (Hexp : upper (calcNMEAChecksum body false) = [c1; c2]).
  { rewrite calc_no_dollar, <- checksum_of_eq, Hc. cbn [upper map]. congruence. }
  assert (Hm : Forall is_byte (strip_dollar (lstrip body)))
    by (apply strip_dollar_Forall, lstrip_Forall; assumption).
  rewrite (checkNMEAChecksum_tail _ (strip_dollar (lstrip body)) 42 c1 c2).
  - cbn [Z.eqb Pos.eqb]. destruct (Z.eqb_spec (xor_all (strip_dollar (lstrip body)))
                                     (xor_all body)) as [E|E].
    + rewrite bool_decide_eq_true_2; [reflexivity|].
      rewrite calc_no_dollar, E, <- calc_no_dollar, Hexp. cbn [upper map]. congruence.
    + rewrite (nmea_message_guard body); try assumption. reflexivity.
  - unfold line_of, strip. cbn [lstrip]. rewrite Hy.
    rewrite lstrip_app_stop by reflexivity.
    replace (lstrip body ++ [42; c1; c2; 13; 10])
      with ((lstrip body ++ [42; c1]) ++ c2 :: [13; 10])
      by (rewrite <- app_assoc; reflexivity).
    rewrite rev_app_distr. cbn [rev app].
    change (lstrip (10 :: 13 :: c2 :: rev (lstrip body ++ [42; c1])))
      with (lstrip (c2 :: rev (lstrip body ++ [42; c1]))).
    rewrite lstrip_keep by assumption.
    change (c2 :: rev (lstrip body ++ [42; c1]))
      with ([c2] ++ rev (lstrip body ++ [42; c1])).
    rewrite rev_app_distr, rev_involutive, <- app_assoc. cbn [rev app].
    fold (strip_dollar (lstrip body ++ [42; c1; c2])).
    apply strip_dollar_app.
Qed.

(** White space in place of the last checksum character of a line without
    a body leaves too little to index. *)
Lemma nmea_empty_body c1 d :
  is_space c1 = false -> is_space d = true ->
  checkNMEAChecksum (line_of 36 [] 42 c1 d 13 10) = Raise IndexError.
Proof.
  intros Hc Hd. unfold checkNMEAChecksum, line_of. cbv zeta.
  change (36 :: [] ++ [42; c1; d; 13; 10]) with (36 :: [42] ++ c1 :: [d; 13; 10]).
  rewrite strip_ends; [|reflexivity | assumption | repeat constructor; assumption].
  rewrite startswith_dollar. reflexivity.
Qed.

End NmeaFacts.

Section HeaderFacts.
Local Open Scope nat_scope.

Lemma firstn_mid {A : Type} n (pre : list A) x post :
  length pre < n ->
  firstn n (pre ++ x :: post) = pre ++ x :: firstn (n - length pre - 1) post.
Proof.
  intros H. rewrite firstn_app, firstn_all2 by lia.
  destruct (n - length pre) as [|m] eqn:E; [lia|].
  cbn [firstn]. replace (S m - 1) with m by lia. reflexivity.
Qed.

Lemma skipn_mid {A : Type} n (pre : list A) x post :
  length pre < n -> skipn n (pre ++ x :: post) = skipn (n - length pre - 1) post.
Proof.
  intros H. rewrite skipn_app, skipn_all2 by lia.
  destruct (n - length pre) as [|m] eqn:E; [lia|].
  cbn [skipn app]. replace (S m - 1) with m by lia. reflexivity.
Qed.

Lemma firstn_before {A : Type} n (pre : list A) x post :
  n <= length pre -> firstn n (pre ++ x :: post) = firstn n pre.
Proof.
  intros H. rewrite firstn_app. replace (n - length pre) with 0 by lia.
  cbn [firstn]. apply app_nil_r.
Qed.

Lemma sum_fold l : forall a, fold_left Z.add l a = (a + sum l)%Z.
Proof.
  unfold sum. induction l as [|x l IH]; intros a; cbn [fold_left]; [lia|].
  rewrite IH, (IH (0 + x)%Z). lia.
Qed.

Lemma sum_cons x l : sum (x :: l) = (x + sum l)%Z.
Proof. unfold sum at 1. cbn [fold_left]. rewrite sum_fold. lia. Qed.

Lemma sum_app a b : sum (a ++ b) = (sum a + sum b)%Z.
Proof. unfold sum at 1. rewrite fold_left_app. fold (sum a). apply sum_fold. Qed.

Lemma sum_range l :
  Forall is_byte l -> (0 <= sum l <= 255 * Z.of_nat (length l))%Z.
Proof.
  induction 1 as [|x l Hx Hl IH]; [cbn; lia|].
  rewrite sum_cons. unfold is_byte in Hx. cbn [length]. lia.
Qed.

Lemma le_bytes2_inj u u' :
  (0 <= u < 65536)%Z -> (0 <= u' < 65536)%Z -> le_bytes 2 u = le_bytes 2 u' -> u = u'.
Proof.
  intros Hu Hu' H. cbn [le_bytes] in H. injection H as H1 H2.
  rewrite (Z.mod_small (u / 256)), (Z.mod_small (u' / 256)) in H2
    by (split; [apply Z.div_pos | apply Z.div_lt_upper_bound]; lia).
  rewrite (Z.div_mod u 256), (Z.div_mod u' 256) by lia. congruence.
Qed.

(** The checksum of 18 header bytes. *)
Lemma header_checksum_bytes pre :
  Forall is_byte pre -> length pre = 18 ->
  Route.header_checksum pre = Ok (le_bytes 2 ((- sum pre) mod 65536))
  /\ (0 <= sum pre <= 4590)%Z.
Proof.
  intros Hb Hlen. pose proof (sum_range pre Hb) as Hs. rewrite Hlen in Hs.
  split; [|lia]. unfold Route.header_checksum, pack_signed.
  change (256 ^ Z.of_nat 2)%Z with 65536%Z. change (65536 / 2)%Z with 32768%Z.
  change 65535%Z with (Z.ones 16). rewrite Z.land_ones by lia.
  change (2 ^ 16)%Z with 65536%Z. rewrite (Z.mod_small (sum pre)) by lia.
  match goal with
  | |- context [(?a <=? ?b)%Z] => destruct (Z.leb_spec a b); [|lia]
  end.
  destruct (Z.ltb_spec (- sum pre) 32768); [|lia]. reflexivity.
Qed.

Lemma header_checksum_inj pre pre' :
  Forall is_byte pre -> length pre = 18 -> Forall is_byte pre' -> length pre' = 18 ->
  sum pre <> sum pre' -> Route.header_checksum pre <> Route.header_checksum pre'.
Proof.
  intros Hb Hl Hb' Hl' Hne H.
  destruct (header_checksum_bytes pre Hb Hl) as [E R].
  destruct (header_checksum_bytes pre' Hb' Hl') as [E' R'].
  rewrite E, E' in H.
  assert (H' : ((- sum pre) mod 65536 = (- sum pre') mod 65536)%Z).
  { apply le_bytes2_inj; [apply Z.mod_pos_bound; lia ..|].
    congruence. }
  clear E E' H. revert H'. Z.to_euclidean_division_equations. lia.
Qed.

(** [parseBin] stops with [BadChecksum] when the stored checksum is not the
    computed one. *)
Lemma parseBin_bad_header binData e :
  20 <= length binData ->
  Route.header_checksum (firstn 18 (firstn 20 binData)) = Ok e ->
  slice 18 20 (firstn 20 binData) <> e ->
  Route.parseBin binData = Raise BadChecksum.
Proof.
  intros Hlen He Hne. unfold Route.parseBin.
  assert (H1 : unpack_unsigned 2 2 (firstn 4 (firstn 20 binData))
               = Ok (map le_value (chop 2 (firstn 4 (firstn 20 binData))))).
  { unfold unpack_unsigned. rewrite !length_firstn.
    replace (Nat.min 4 (Nat.min 20 (length binData))) with 4 by lia. reflexivity. }
  assert (H2 : unpack_unsigned 4 3 (slice 4 16 (firstn 20 binData))
               = Ok (map le_value (chop 4 (slice 4 16 (firstn 20 binData))))).
  { unfold unpack_unsigned, slice. rewrite length_firstn, length_skipn, length_firstn.
    replace (Nat.min (16 - 4) (Nat.min 20 (length binData) - 4)) with 12 by lia.
    reflexivity. }
  rewrite H1, H2. cbn [rbind]. rewrite He. cbn [rbind].
  rewrite bool_decide_eq_false_2 by assumption. reflexivity.
Qed.

(** A changed byte among the 20 header bytes. *)
Lemma route_header_guard pre x x' post :
  length pre < 20 -> 20 <= length (pre ++ x :: post) ->
  Forall is_byte (pre ++ x :: post) -> is_byte x' -> x <> x' ->
  Route.header_valid (pre ++ x :: post) ->
  Route.parseBin (pre ++ x' :: post) = Raise BadChecksum.
Proof.
  intros Hi Hlen Hb Hx' Hne Hvalid. unfold Route.header_valid in Hvalid.
  assert (Hlen' : 20 <= length (pre ++ x' :: post))
    by (rewrite length_app in *; cbn [length] in *; lia).
  assert (Hb' : Forall is_byte (pre ++ x' :: post)).
  { apply Forall_app in Hb as [H1 H2]. inversion H2; subst.
    apply Forall_app. split; [assumption|]. constructor; assumption. }
  assert (Hx : is_byte x).
  { apply Forall_app in Hb as [_ H2]. inversion H2; assumption. }
  assert (F18 : forall l : bytes, firstn 18 (firstn 20 l) = firstn 18 l)
    by (intros l; rewrite firstn_firstn; reflexivity).
  assert (B18 : forall l : bytes, Forall is_byte l -> 20 <= length l ->
            Forall is_byte (firstn 18 l) /\ length (firstn 18 l) = 18).
  { intros l Hl Hn. split; [apply Forall_take; assumption|].
    rewrite length_firstn. lia. }
  rewrite F18 in Hvalid.
  destruct (Nat.lt_ge_cases (length pre) 18) as [Hlo|Hhi].
  - (* the byte is one of the 18 summed bytes *)
    destruct (header_checksum_bytes (firstn 18 (pre ++ x' :: post))) as [E' _];
      [apply B18; assumption ..|].
    eapply parseBin_bad_header; [exact Hlen' | rewrite F18; exact E' |].
    assert (Hsl : slice 18 20 (firstn 20 (pre ++ x' :: post))
                  = slice 18 20 (firstn 20 (pre ++ x :: post))).
    { unfold slice. rewrite !firstn_mid by lia.
      rewrite !skipn_mid by lia. reflexivity. }
    rewrite Hsl. intros H. rewrite H in Hvalid. rewrite <- E' in Hvalid.
    revert Hvalid. apply header_checksum_inj; try (apply B18; assumption).
    rewrite !firstn_mid by lia. rewrite !sum_app, !sum_cons. lia.
  - (* the byte is one of the two checksum bytes *)
    assert (Hsame : firstn 18 (pre ++ x' :: post) = firstn 18 (pre ++ x :: post))
      by (rewrite !firstn_before by lia; reflexivity).
    eapply parseBin_bad_header; [exact Hlen' | rewrite F18, Hsame; exact Hvalid |].
    intros H.
    apply (f_equal (fun l => nth (length pre - 18) l 0%Z)) in H.
    unfold slice in H. rewrite !nth_firstn in H.
    destruct (Nat.ltb_spec (length pre - 18) (20 - 18)); [|lia].
    rewrite !nth_skipn, !nth_firstn in H.
    destruct (Nat.ltb_spec (18 + (length pre - 18)) 20); [|lia].
    replace (18 + (length pre - 18)) with (length pre) in H by lia.
    rewrite !nth_middle in H. congruence.
Qed.

End HeaderFacts.

(** The line [$J*4A] passes the check, and so does the same line with the
    last checksum character changed to [a], with the leading [$] changed
    to a NUL byte or to a blank, or with the carriage return or the line
    feed changed to a blank; on the line [$*00] a blank for the last
    checksum character ends the check with [IndexError]. *)
Lemma checksum_guard_counterexample :
  calcNMEAChecksum (b_ "$J") true = b_ "4A"
  /\ checkNMEAChecksum (line_of 36 (b_ "J") 42 52 65 13 10) = Ok tt
  /\ checkNMEAChecksum (line_of 36 (b_ "J") 42 52 97 13 10) = Ok tt
  /\ checkNMEAChecksum (line_of 0 (b_ "J") 42 52 65 13 10) = Ok tt
  /\ checkNMEAChecksum (line_of 32 (b_ "J") 42 52 65 13 10) = Ok tt
  /\ checkNMEAChecksum (line_of 36 (b_ "J") 42 52 65 32 10) = Ok tt
  /\ checkNMEAChecksum (line_of 36 (b_ "J") 42 52 65 13 32) = Ok tt
  /\ checkNMEAChecksum (line_of 36 [] 42 48 48 13 10) = Ok tt
  /\ checkNMEAChecksum (line_of 36 [] 42 48 32 13 10) = Raise IndexError.
Proof. repeat split; reflexivity. Qed.

(** C4 (amended).  Changing one byte to a different value makes validation
    fail with [BadChecksum]
    - in a command line [$body*HH] followed by CR LF, as [sendCommand]
      writes it, at every position: a byte of the body, the separator [*],
      a checksum character, the leading [$], the carriage return and the
      line feed - except in the cases that the second half of the statement
      lists: a checksum character in lower case, NUL for the [$], and white
      space for the carriage return or the line feed pass the check; white
      space for the [$] passes exactly when what is stripped with it cancels
      in the XOR (always, when the body begins with neither white space nor
      [$]); white space for the last checksum character of a line without a
      body ends in [IndexError];
    - in a chunk payload or in its CRC-16/XMODEM trailer;
    - among the 20 bytes of a route header that [Route.parseBin] accepts. *)
Theorem checksum_guard :
  (forall body c1 c2,
      Forall is_byte body -> checksum_of body = [c1; c2] ->
      checkNMEAChecksum (line_of 36 body 42 c1 c2 13 10) = Ok tt
      /\ (forall b1 x x' b2, body = b1 ++ x :: b2 -> is_byte x' -> x <> x' ->
            checkNMEAChecksum (line_of 36 (b1 ++ x' :: b2) 42 c1 c2 13 10)
            = Raise BadChecksum)
      /\ (forall y, y <> 42 ->
            checkNMEAChecksum (line_of 36 body y c1 c2 13 10) = Raise BadChecksum)
      /\ (forall d, upper_byte d <> c1 ->
            checkNMEAChecksum (line_of 36 body 42 d c2 13 10) = Raise BadChecksum)
      /\ (forall d, upper_byte d <> c2 -> is_space d = false \/ body <> [] ->
            checkNMEAChecksum (line_of 36 body 42 c1 d 13 10) = Raise BadChecksum)
      /\ (forall y, is_byte y -> y <> 36 -> y <> 0 -> is_space y = false ->
            checkNMEAChecksum (line_of y body 42 c1 c2 13 10) = Raise BadChecksum)
      /\ (forall y, is_space y = false ->
            checkNMEAChecksum (line_of 36 body 42 c1 c2 y 10) = Raise BadChecksum)
      /\ (forall y, is_space y = false ->
            checkNMEAChecksum (line_of 36 body 42 c1 c2 13 y) = Raise BadChecksum)
      /\ (forall d, upper_byte d = c1 ->
            checkNMEAChecksum (line_of 36 body 42 d c2 13 10) = Ok tt)
      /\ (forall d, upper_byte d = c2 ->
            checkNMEAChecksum (line_of 36 body 42 c1 d 13 10) = Ok tt)
      /\ (forall d, is_space d = true -> body = [] ->
            checkNMEAChecksum (line_of 36 body 42 c1 d 13 10) = Raise IndexError)
      /\ checkNMEAChecksum (line_of 0 body 42 c1 c2 13 10) = Ok tt
      /\ (forall y, is_space y = true ->
            checkNMEAChecksum (line_of y body 42 c1 c2 13 10)
            = if xor_all (strip_dollar (lstrip body)) =? xor_all body
              then Ok tt else Raise BadChecksum)
      /\ (forall y, is_space y = true ->
            checkNMEAChecksum (line_of 36 body 42 c1 c2 y 10) = Ok tt
            /\ checkNMEAChecksum (line_of 36 body 42 c1 c2 13 y) = Ok tt))
  /\ (forall pre b b' post trailer,
        Forall is_byte pre -> Forall is_byte post -> is_byte b -> is_byte b' ->
        b <> b' ->
        checkCrcChecksum (pre ++ b :: post) trailer = Ok tt ->
        checkCrcChecksum (pre ++ b' :: post) trailer = Raise BadChecksum)
  /\ (forall string t1 x x' t2,
        x <> x' ->
        checkCrcChecksum string (t1 ++ x :: t2) = Ok tt ->
        checkCrcChecksum string (t1 ++ x' :: t2) = Raise BadChecksum)
  /\ (forall pre x x' post,
        (length pre < 20)%nat -> (20 <= length (pre ++ x :: post))%nat ->
        Forall is_byte (pre ++ x :: post) -> is_byte x' -> x <> x' ->
        Route.header_valid (pre ++ x :: post) ->
        Route.parseBin (pre ++ x' :: post) = Raise BadChecksum).
Proof.
  split.
  { intros body c1 c2 Hb Hc.
    destruct (nmea_tail_guard body c1 c2 Hb Hc) as (T1 & T2 & T3).
    split; [apply nmea_valid; assumption|].
    split.
    { intros b1 x x' b2 -> Hx' Hne. eapply nmea_body_guard; eassumption. }
    split; [exact T1|]. split; [exact T2|]. split; [exact T3|].
    split.
    { intros y Hy H36 H0 Hsp. apply nmea_dollar_guard; assumption. }
    split; [intros y Hy; apply (nmea_eol_guard body c1 c2 y Hb Hc Hy)|].
    split; [intros y Hy; apply (nmea_eol_guard body c1 c2 y Hb Hc Hy)|].
    destruct (nmea_unguarded body c1 c2 Hb Hc) as (U1 & U2 & U3 & U4).
    split; [exact U1|]. split; [exact U2|].
    split.
    { intros d Hd ->. apply nmea_empty_body; [|exact Hd].
      apply (checksum_chars [] c1 c2 Hb Hc). }
    split; [exact U3|].
    split; [|exact U4].
    intros y Hy. apply nmea_dollar_space; assumption. }
  split; [exact crc_guard|].
  split; [exact crc_trailer_guard|].
  exact route_header_guard.
Qed.

(** The command [$POEM12,14] with its [M] changed to [N], its [$] to [#],
    its carriage return to [X] and its last checksum character to a blank;
    the CRC of the payload 1 2 3 with the 2 changed to 7, and the header of
    an empty route with its point count changed from 0 to 1. *)
Lemma checksum_guard_witness :
  checkNMEAChecksum (b_ "$POEN12,14*3D" ++ [13; 10]) = Raise BadChecksum
  /\ checkNMEAChecksum (b_ "#POEM12,14*3D" ++ [13; 10]) = Raise BadChecksum
  /\ checkNMEAChecksum (b_ "$POEM12,14*3DX" ++ [10]) = Raise BadChecksum
  /\ checkNMEAChecksum (b_ "$POEM12,14*3 " ++ [13; 10]) = Raise BadChecksum
  /\ checkCrcChecksum [1; 7; 3] (calcCrcChecksum [1; 2; 3]) = Raise BadChecksum
  /\ Route.parseBin
       ([1; 0] ++ 1 :: [0; 20; 0; 0; 0; 22; 0; 0; 0; 44; 0; 0; 0; 0; 0; 169; 255]
        ++ [0; 0] ++ repeat 0 22)
     = Raise BadChecksum.
Proof.
  destruct checksum_guard as (Hnmea & Hcrc & _ & Hhdr).
  assert (Hbytes : forall l : bytes, forallb is_byteb l = true -> Forall is_byte l).
  { intros l H. apply List.Forall_forall. intros z Hz.
    rewrite forallb_forall in H. specialize (H z Hz). unfold is_byteb in H.
    apply andb_true_iff in H as [H1 H2]. unfold is_byte. lia. }
  destruct (Hnmea (b_ "POEM12,14") 51 68 (Hbytes (b_ "POEM12,14") eq_refl) eq_refl)
    as (_ & Hbody & _ & _ & Hc2 & Hdollar & Hcr & _).
  clear Hnmea.
  split; [|split; [|split; [|split; [|split]]]].
  - refine (Hbody (b_ "POE") 77 78 (b_ "12,14") eq_refl _ _).
    + unfold is_byte. lia.
    + discriminate.
  - apply (Hdollar 35); [unfold is_byte; lia | discriminate | discriminate | reflexivity].
  - apply (Hcr 88). reflexivity.
  - apply (Hc2 32); [discriminate | right; discriminate].
  - refine (Hcrc [1] 2 7 [3] _ _ _ _ _ _ _).
    + apply Hbytes. reflexivity.
    + apply Hbytes. reflexivity.
    + unfold is_byte. lia.
    + unfold is_byte. lia.
    + discriminate.
    + reflexivity.
  - refine (Hhdr [1; 0] 0 1 _ _ _ _ _ _ _).
    + cbn [length]. lia.
    + vm_compute. lia.
    + apply Hbytes. reflexivity.
    + unfold is_byte. lia.
    + discriminate.
    + reflexivity.
Defined.

(** ** DeviceConfig *)

Example set_units_example :
  fst (DeviceConfig.set_units ascii_lower (VStr "Mile") true sample_config) = Ok tt
  /\ tx (DeviceConfig.con
           (snd (DeviceConfig.set_units ascii_lower (VStr "Mile") true sample_config)))
     = [b_ "$POEM14,1,2,10,30,0,1,1,1*12" ++ [13; 10]].
Proof. split; vm_compute; reflexivity. Qed.

Section SetterFacts.
Variable lower : string -> string.
Variable int_of_str : string -> option Z.

Lemma bind_raise {S A B : Type} (e : exn) (k : A -> M S B) (self : S) :
  bind (raise e) k self = (Raise e, self).
Proof. reflexivity. Qed.

Lemma existsb_keys i (d : list (Z * string)) :
  existsb (fun kv => fst kv =? i) d = existsb (Z.eqb i) (map fst d).
Proof.
  induction d as [|kv d IH]; [reflexivity|].
  cbn [existsb map]. rewrite IH, Z.eqb_sym. reflexivity.
Qed.

Lemma existsb_values x (d : list (Z * string)) :
  existsb (fun kv => String.eqb (snd kv) x) d = existsb (String.eqb x) (map snd d).
Proof.
  induction d as [|kv d IH]; [reflexivity|].
  cbn [existsb map]. rewrite IH, String.eqb_sym. reflexivity.
Qed.

Lemma is_one_of_two y a b :
  DeviceConfig.is_one_of y [a; b] = false ->
  String.eqb y a = false /\ String.eqb y b = false.
Proof.
  unfold DeviceConfig.is_one_of. cbn [existsb]. rewrite orb_false_r.
  intros H. apply orb_false_iff in H. exact H.
Qed.

Lemma setters_reject_illegal (s : DeviceConfig.setter) (v : value) (send : bool)
    (self : DeviceConfig.t) :
  DeviceConfig.legal lower int_of_str s v = false ->
  DeviceConfig.well_typed s v ->
  DeviceConfig.call lower int_of_str s v send self = (Raise UnsupportedValue, self).
Proof.
  intros Hlegal Htyped.
  destruct s; cbn [DeviceConfig.call].
  - (* set_language *)
    unfold DeviceConfig.set_language.
    assert (E : DeviceConfig.in_values v DeviceConfig.languageDict = false).
    { destruct v as [i|x|]; try reflexivity.
      cbn [DeviceConfig.in_values]. rewrite existsb_values. exact Hlegal. }
    rewrite E. reflexivity.
  - (* set_turnRadius *)
    unfold DeviceConfig.set_turnRadius.
    assert (E : DeviceConfig.in_keys v DeviceConfig.turnRadiusDict = false).
    { destruct v as [i|x|]; try reflexivity.
      cbn [DeviceConfig.in_keys]. rewrite existsb_keys. exact Hlegal. }
    rewrite E. reflexivity.
  - (* set_lightDuration *)
    unfold DeviceConfig.set_lightDuration.
    assert (E : DeviceConfig.in_keys v DeviceConfig.lightDurationDict = false).
    { destruct v as [i|x|]; try reflexivity.
      cbn [DeviceConfig.in_keys]. rewrite existsb_keys. exact Hlegal. }
    rewrite E. destruct v as [i|x|]; try reflexivity.
    cbn [DeviceConfig.legal] in Hlegal. apply is_one_of_two in Hlegal as [H1 H2].
    rewrite H1, H2. reflexivity.
  - (* set_autoOff *)
    unfold DeviceConfig.set_autoOff.
    assert (E : DeviceConfig.in_keys v DeviceConfig.autoOffDict = false).
    { destruct v as [i|x|]; try reflexivity.
      cbn [DeviceConfig.in_keys]. rewrite existsb_keys. exact Hlegal. }
    rewrite E. reflexivity.
  - (* set_homeTz *)
    unfold DeviceConfig.set_homeTz, DeviceConfig._set_timezone.
    assert (E : DeviceConfig.in_tz_range v = false).
    { destruct v as [i|x|]; try reflexivity.
      cbn [DeviceConfig.legal DeviceConfig.in_tz_range] in *.
      destruct (Z.leb_spec (-12) i), (Z.leb_spec i 12), (Z.ltb_spec i 13);
        cbn in *; try reflexivity; try discriminate; lia. }
    rewrite E. reflexivity.
  - (* set_currentTz *)
    unfold DeviceConfig.set_currentTz, DeviceConfig._set_timezone.
    assert (E : DeviceConfig.in_tz_range v = false).
    { destruct v as [i|x|]; try reflexivity.
      cbn [DeviceConfig.legal DeviceConfig.in_tz_range] in *.
      destruct (Z.leb_spec (-12) i), (Z.leb_spec i 12), (Z.ltb_spec i 13);
        cbn in *; try reflexivity; try discriminate; lia. }
    rewrite E. reflexivity.
  - (* set_units *)
    destruct (Htyped eq_refl) as [x ->].
    unfold DeviceConfig.set_units.
    cbn [DeviceConfig.legal] in Hlegal. apply is_one_of_two in Hlegal as [H1 H2].
    rewrite H1, H2. reflexivity.
  - (* set_timeInterval *)
    unfold DeviceConfig.set_timeInterval, DeviceConfig.set_interval.
    destruct v as [i|x|]; cbn [DeviceConfig.legal DeviceConfig.py_int] in *;
      [discriminate | | reflexivity].
    destruct (int_of_str x); [discriminate | reflexivity].
  - (* set_distanceInterval *)
    unfold DeviceConfig.set_distanceInterval, DeviceConfig.set_interval.
    destruct v as [i|x|]; cbn [DeviceConfig.legal DeviceConfig.py_int] in *;
      [discriminate | | reflexivity].
    destruct (int_of_str x); [discriminate | reflexivity].
  - (* set_speedInterval *)
    unfold DeviceConfig.set_speedInterval, DeviceConfig.set_interval.
    destruct v as [i|x|]; cbn [DeviceConfig.legal DeviceConfig.py_int] in *;
      [discriminate | | reflexivity].
    destruct (int_of_str x); [discriminate | reflexivity].
Qed.

End SetterFacts.

(** [set_units(5)]: the argument is outside the legal values, and the call
    ends with [AttributeError] (an [int] has no [lower]). *)
Lemma setters_counterexample :
  DeviceConfig.legal ascii_lower decimal_int DeviceConfig.Units (VInt 5) = false
  /\ DeviceConfig.call ascii_lower decimal_int DeviceConfig.Units (VInt 5) true
       sample_config
     = (Raise AttributeError, sample_config).
Proof. split; reflexivity. Qed.

(** C9 (amended).  For every setter of [DeviceConfig] and every argument
    that is an integer, a string or [None] - a string in the case of
    [set_units] - and that lies outside the legal values of the setter (for
    the three recording intervals: that [int] does not accept), the call
    raises [UnsupportedValue] and leaves the object as it was: both
    snapshots are unchanged and nothing is sent.  [lower] and [int_of_str]
    stand for [str.lower] and [int] on strings. *)
Theorem setters_reject (lower : string -> string) (int_of_str : string -> option Z)
    (s : DeviceConfig.setter) (v : value) (send : bool) (self : DeviceConfig.t) :
  DeviceConfig.legal lower int_of_str s v = false ->
  DeviceConfig.well_typed s v ->
  DeviceConfig.call lower int_of_str s v send self = (Raise UnsupportedValue, self)
  /\ DeviceConfig.deviceConfig
       (snd (DeviceConfig.call lower int_of_str s v send self))
     = DeviceConfig.deviceConfig self
  /\ DeviceConfig.recordConfig
       (snd (DeviceConfig.call lower int_of_str s v send self))
     = DeviceConfig.recordConfig self.
Proof.
  intros Hlegal Htyped.
  rewrite (setters_reject_illegal lower int_of_str s v send self Hlegal Htyped).
  repeat split.
Qed.

Lemma setters_reject_witness :
  DeviceConfig.call ascii_lower decimal_int DeviceConfig.TurnRadius (VInt 7) true
    sample_config
  = (Raise UnsupportedValue, sample_config)
  /\ DeviceConfig.call ascii_lower decimal_int DeviceConfig.TimeInterval (VStr "soon")
       true sample_config
     = (Raise UnsupportedValue, sample_config).
Proof.
  split.
  - apply (setters_reject ascii_lower decimal_int DeviceConfig.TurnRadius (VInt 7)
             true sample_config); [reflexivity | discriminate].
  - apply (setters_reject ascii_lower decimal_int DeviceConfig.TimeInterval
             (VStr "soon") true sample_config); [reflexivity | discriminate].
Defined.

(** ** struct *)

Section StructFacts.

Lemma length_le_bytes n : forall u, length (le_bytes n u) = n.
Proof. induction n as [|n IH]; intros u; cbn [le_bytes length]; [|rewrite IH]; reflexivity. Qed.

Lemma le_bytes_range n : forall u, Forall is_byte (le_bytes n u).
Proof.
  induction n as [|n IH]; intros u; cbn [le_bytes]; constructor; [|apply IH].
  unfold is_byte. apply Z.mod_pos_bound. lia.
Qed.

Lemma le_value_le_bytes n :
  forall u, 0 <= u < 256 ^ Z.of_nat n -> le_value (le_bytes n u) = u.
Proof.
  induction n as [|n IH]; intros u Hu.
  - cbn in *. lia.
  - rewrite Nat2Z.inj_succ, Z.pow_succ_r in Hu by lia.
    cbn [le_bytes le_value]. rewrite IH.
    + pose proof (Z.div_mod u 256 ltac:(lia)). lia.
    + split; [apply Z.div_pos; lia | apply Z.div_lt_upper_bound; lia].
Qed.

Lemma to_signed_4 v :
  - 2 ^ 31 <= v < 2 ^ 31 -> to_signed 4 (v mod 256 ^ Z.of_nat 4) = v.
Proof.
  intros Hv. unfold to_signed. change (256 ^ Z.of_nat 4) with 4294967296.
  change (2 ^ 31) with 2147483648 in Hv. change (4294967296 / 2) with 2147483648.
  destruct (Z.ltb_spec (v mod 4294967296) 2147483648);
    revert H; Z.to_euclidean_division_equations; lia.
Qed.

Lemma pack_signed_4 v :
  - 2 ^ 31 <= v < 2 ^ 31 -> pack_signed 4 v = Ok (le_bytes 4 (v mod 256 ^ Z.of_nat 4)).
Proof.
  intros Hv. unfold pack_signed. change (256 ^ Z.of_nat 4 / 2) with (2 ^ 31).
  destruct (Z.leb_spec (- 2 ^ 31) v); [|lia].
  destruct (Z.ltb_spec v (2 ^ 31)); [|lia]. reflexivity.
Qed.

Lemma pack_unsigned_ok n v :
  0 <= v < 256 ^ Z.of_nat n -> pack_unsigned n v = Ok (le_bytes n v).
Proof.
  intros Hv. unfold pack_unsigned.
  destruct (Z.leb_spec 0 v); [|lia].
  destruct (Z.ltb_spec v (256 ^ Z.of_nat n)); [|lia]. reflexivity.
Qed.

Lemma pack_byte v : 0 <= v < 256 -> pack_unsigned 1 v = Ok [v].
Proof.
  intros Hv. rewrite pack_unsigned_ok by (change (256 ^ Z.of_nat 1) with 256; lia).
  cbn [le_bytes]. rewrite Z.mod_small by lia. reflexivity.
Qed.

(** Two signed 32-bit integers, packed and unpacked. *)
Lemma unpack_two_signed a b :
  - 2 ^ 31 <= a < 2 ^ 31 -> - 2 ^ 31 <= b < 2 ^ 31 ->
  unpack_signed 4 2
    (le_bytes 4 (a mod 256 ^ Z.of_nat 4) ++ le_bytes 4 (b mod 256 ^ Z.of_nat 4))
  = Ok [a; b].
Proof.
  intros Ha Hb. unfold unpack_signed, unpack_unsigned.
  rewrite length_app, !length_le_bytes. cbn [Nat.eqb Nat.add Nat.mul rbind].
  rewrite (chop_app_aligned 4 1) by (rewrite ?length_le_bytes; lia).
  rewrite !chop_single by (rewrite ?length_le_bytes; lia). cbn [app map].
  rewrite !le_value_le_bytes by (apply Z.mod_pos_bound; lia).
  rewrite !to_signed_4 by assumption. reflexivity.
Qed.

Lemma slice_app_skip {A : Type} (a b : nat) (pre l : list A) :
  length pre = a -> length l = (b - a)%nat -> slice a b (pre ++ l) = l.
Proof.
  intros Hp Hl. unfold slice. rewrite skipn_app, skipn_all2 by lia.
  rewrite Hp, Nat.sub_diag. cbn [skipn app]. apply firstn_all2. lia.
Qed.

End StructFacts.

(** ** Poi *)

Section PoiFacts.
Variable astimezone : DateTime -> DateTime.

(** What [fromBin] returns holds floats, which [toBin] does not pack. *)
Lemma Poi_toBin_of_fromBin line p :
  Poi.fromBin astimezone line = Ok p -> Poi.toBin p = Raise StructError.
Proof.
  unfold Poi.fromBin. intros H.
  destruct (unpack_signed 4 2 (slice 8 16 line)) as [ll|]; [|discriminate].
  cbn [rbind] in H.
  destruct (index 6 line); [|discriminate]. cbn [rbind] in H.
  destruct (index 0 line); [|discriminate]. cbn [rbind] in H.
  destruct (slice 1 6 line) as [|m [|d [|h [|mi [|s [|? ?]]]]]]; try discriminate.
  destruct (datetime_strptime _); [|discriminate]. cbn [rbind] in H.
  injection H as <-. reflexivity.
Qed.

Lemma between_spec lo x hi : between lo x hi = true <-> lo <= x <= hi.
Proof. unfold between. rewrite andb_true_iff, !Z.leb_le. reflexivity. Qed.

Lemma days_in_month_le y m : days_in_month y m <= 31.
Proof.
  unfold days_in_month. destruct (m =? 2); [destruct (is_leap y); lia|].
  destruct (_ || _); lia.
Qed.

Lemma datetime_valid_fields t :
  datetime_strptime t = Ok t ->
  time_strptime t = Ok t
  /\ 0 <= month t < 256 /\ 0 <= day t < 256 /\ 0 <= hour t < 256
  /\ 0 <= minute t < 256 /\ 0 <= second t < 256.
Proof.
  unfold datetime_strptime, time_strptime. intros H.
  destruct (valid_date t) eqn:Hv; [|discriminate].
  destruct (between 0 (hour t) 23) eqn:Hh; [|discriminate].
  destruct (between 0 (minute t) 59) eqn:Hm; [|discriminate].
  destruct (between 0 (second t) 59) eqn:Hs; [|discriminate].
  apply between_spec in Hh, Hm, Hs.
  unfold valid_date in Hv.
  apply andb_true_iff in Hv as [Hv Hd]. apply andb_true_iff in Hv as [Hy Hmo].
  apply between_spec in Hy, Hmo, Hd.
  pose proof (days_in_month_le (year t) (month t)) as Hdim.
  rewrite (proj2 (between_spec 0 (second t) 61)) by lia.
  repeat split; lia.
Qed.

Lemma Poi_toBin_ok p a b :
  Poi.lat p = Int a -> Poi.lon p = Int b ->
  - 2 ^ 31 <= a < 2 ^ 31 -> - 2 ^ 31 <= b < 2 ^ 31 ->
  0 <= Poi.symbol p < 256 ->
  1900 <= year (Poi.timeString p) <= 2155 ->
  datetime_strptime (Poi.timeString p) = Ok (Poi.timeString p) ->
  Poi.toBin p
  = Ok ([year (Poi.timeString p) - 1900; month (Poi.timeString p);
         day (Poi.timeString p); hour (Poi.timeString p);
         minute (Poi.timeString p); second (Poi.timeString p);
         Poi.symbol p; 160]
        ++ le_bytes 4 (a mod 256 ^ Z.of_nat 4) ++ le_bytes 4 (b mod 256 ^ Z.of_nat 4)).
Proof.
  intros Ha Hb Ra Rb Hsym Hy Ht.
  destruct (datetime_valid_fields _ Ht) as (Htime & Hmo & Hd & Hh & Hmi & Hs).
  unfold Poi.toBin. rewrite Ha, Hb. cbn [pack_i].
  rewrite !pack_signed_4 by assumption. cbn [rbind].
  rewrite Htime. cbn [rbind mapM].
  rewrite !pack_byte by lia. cbn [rbind concat app]. reflexivity.
Qed.

Lemma Poi_fromBin_ok t sym a b :
  - 2 ^ 31 <= a < 2 ^ 31 -> - 2 ^ 31 <= b < 2 ^ 31 ->
  datetime_strptime t = Ok t ->
  Poi.fromBin astimezone
    ([year t - 1900; month t; day t; hour t; minute t; second t; sym; 160]
     ++ le_bytes 4 (a mod 256 ^ Z.of_nat 4) ++ le_bytes 4 (b mod 256 ^ Z.of_nat 4))
  = Ok (Poi.mk (DivE5 a) (DivE5 b) sym (astimezone t)).
Proof.
  intros Ra Rb Ht. unfold Poi.fromBin.
  rewrite slice_app_skip
    by (rewrite ?length_app, ?length_le_bytes; reflexivity).
  rewrite unpack_two_signed by assumption. cbn [rbind].
  cbn [app index nth_error rbind slice skipn firstn Nat.sub nth].
  replace (1900 + (year t - 1900)) with (year t) by lia.
  replace (mkDateTime (year t) (month t) (day t) (hour t) (minute t) (second t))
    with t by (destruct t; reflexivity).
  rewrite Ht. reflexivity.
Qed.

End PoiFacts.

(** A well-formed buffer decodes, and what it decodes to is not encoded
    again: [lat] is the float 0/1e5, which [struct.pack] refuses. *)
Lemma Poi_counterexample :
  Poi.fromBin (fun t => t) [115; 2; 2; 12; 30; 0; 1; 160; 0; 0; 0; 0; 0; 0; 0; 0]
  = Ok (Poi.mk (DivE5 0) (DivE5 0) 1 (mkDateTime 2015 2 2 12 30 0))
  /\ Poi.toBin (Poi.mk (DivE5 0) (DivE5 0) 1 (mkDateTime 2015 2 2 12 30 0))
     = Raise StructError
  /\ Poi.fromBin (fun t => t) (repeat 0 16) = Raise ValueError.
Proof. repeat split; reflexivity. Qed.

(** C3 (amended).  A point of interest that comes from the import adapter
    (scaled integer coordinates in the 32-bit range, a symbol below 256, a
    valid time between the years 1900 and 2155) is encoded by [Poi.toBin]
    in 16 bytes with 0xA0 at offset 7, and [Poi.fromBin] reads from these
    bytes the same symbol, the coordinates as the floats [i / 1e5] and the
    time, moved from UTC to the local time zone.  In the other direction
    nothing that [Poi.fromBin] returns is encoded by [Poi.toBin]: the call
    ends with [struct.error]. *)
Theorem Poi_roundtrip (astimezone : DateTime -> DateTime) (p : Poi.t) :
  Poi.encodable p ->
  (exists raw,
      Poi.toBin p = Ok raw
      /\ length raw = 16%nat
      /\ nth 7 raw 0 = 160
      /\ Poi.fromBin astimezone raw = Ok (Poi.decoded astimezone p))
  /\ (forall line q,
        Poi.fromBin astimezone line = Ok q -> Poi.toBin q = Raise StructError).
Proof.
  intros ((a & Ha & Ra) & (b & Hb & Rb) & Hsym & Hy & Ht).
  split; [|exact (Poi_toBin_of_fromBin astimezone)].
  eexists. split; [apply (Poi_toBin_ok p a b); assumption|].
  split; [cbn [length app]; rewrite length_app, !length_le_bytes; reflexivity|].
  split; [reflexivity|].
  rewrite Poi_fromBin_ok by assumption.
  unfold Poi.decoded. rewrite Ha, Hb. reflexivity.
Qed.

(** A point of interest at 49.41 N 8.69 E, read back on a machine that is
    one hour ahead of UTC all year. *)
Lemma Poi_roundtrip_witness :
  exists raw,
    Poi.toBin (Poi.fromGpxValues 869000 4941000 (mkDateTime 2015 2 2 12 30 0) 3)
    = Ok raw
    /\ Poi.fromBin (fun t => mkDateTime (year t) (month t) (day t) (hour t + 1)
                               (minute t) (second t)) raw
       = Ok (Poi.mk (DivE5 4941000) (DivE5 869000) 3 (mkDateTime 2015 2 2 13 30 0)).
Proof.
  destruct (Poi_roundtrip
              (fun t => mkDateTime (year t) (month t) (day t) (hour t + 1)
                          (minute t) (second t))
              (Poi.fromGpxValues 869000 4941000 (mkDateTime 2015 2 2 12 30 0) 3))
    as [(raw & H1 & _ & _ & H2) _].
  - unfold Poi.encodable. cbn.
    repeat split; try lia; try reflexivity; eexists; (split; [reflexivity | lia]).
  - exists raw. split; [exact H1 | exact H2].
Defined.

(** ** Route: encoding and decoding *)

Section CharTableFacts.

Lemma mapM_map {A B : Type} (f : A -> result B) (g : A -> B) l :
  Forall (fun x => f x = Ok (g x)) l -> mapM f l = Ok (map g l).
Proof.
  induction 1 as [|x l Hx _ IH]; cbn [mapM map rbind]; [reflexivity|].
  rewrite Hx. cbn [rbind]. rewrite IH. reflexivity.
Qed.

Lemma name_char_table_char c : name_char c -> table_char c.
Proof. intros [H1 H2]. split; [lia | exact H2]. Qed.

Lemma add_char_table ct c :
  table_char c -> char_table ct -> char_table (Route.add_char ct c).
Proof.
  intros Hc (Hhd & Hnd & Hall). unfold Route.add_char.
  destruct (decide ([c] ∈ ct)) as [Hin|Hin]; [repeat split; assumption|].
  destruct Hhd as [ct' ->].
  split; [exists (ct' ++ [[c]]); reflexivity|].
  split.
  - apply NoDup_app. split; [assumption|]. split; [|apply NoDup_singleton].
    intros x Hx Hx'. apply list_elem_of_singleton in Hx'. subst x. contradiction.
  - apply Forall_app. split; [assumption|].
    constructor; [|constructor]. exists c. split; [reflexivity | assumption].
Qed.

Lemma add_char_mono ct c s : s ∈ ct -> s ∈ Route.add_char ct c.
Proof.
  intros H. unfold Route.add_char.
  destruct (decide ([c] ∈ ct)); [assumption|].
  apply elem_of_app. left. assumption.
Qed.

Lemma add_char_in ct c : [c] ∈ Route.add_char ct c.
Proof.
  unfold Route.add_char. destruct (decide ([c] ∈ ct)); [assumption|].
  apply elem_of_app. right. apply list_elem_of_singleton. reflexivity.
Qed.

Lemma fold_add_char name :
  forall ct, Forall table_char name -> char_table ct ->
    char_table (fold_left Route.add_char name ct)
    /\ (forall s, s ∈ ct -> s ∈ fold_left Route.add_char name ct)
    /\ (forall c, In c name -> [c] ∈ fold_left Route.add_char name ct).
Proof.
  induction name as [|c name IH]; intros ct Hname Hct; cbn [fold_left].
  - split; [assumption|]. split; [tauto|]. intros c [].
  - inversion Hname as [|? ? Hc Hname']; subst.
    destruct (IH (Route.add_char ct c) Hname' (add_char_table ct c Hc Hct))
      as (I1 & I2 & I3).
    split; [assumption|]. split.
    + intros s Hs. apply I2, add_char_mono, Hs.
    + intros c' [->|Hc']; [apply I2, add_char_in | apply I3, Hc'].
Qed.

Lemma fold_names pts :
  forall ct,
    Forall (fun p => Forall table_char (RoutePoint.name p)) pts -> char_table ct ->
    char_table
      (fold_left (fun ct p => fold_left Route.add_char (RoutePoint.name p) ct) pts ct)
    /\ (forall s, s ∈ ct ->
         s ∈ fold_left (fun ct p => fold_left Route.add_char (RoutePoint.name p) ct)
               pts ct)
    /\ (forall p c, In p pts -> In c (RoutePoint.name p) ->
         [c] ∈ fold_left (fun ct p => fold_left Route.add_char (RoutePoint.name p) ct)
                 pts ct).
Proof.
  induction pts as [|p pts IH]; intros ct Hpts Hct; cbn [fold_left].
  - split; [assumption|]. split; [tauto|]. intros p c [].
  - inversion Hpts as [|? ? Hp Hpts']; subst.
    destruct (fold_add_char (RoutePoint.name p) ct Hp Hct) as (J1 & J2 & J3).
    destruct (IH _ Hpts' J1) as (I1 & I2 & I3).
    split; [assumption|]. split.
    + intros s Hs. apply I2, J2, Hs.
    + intros p' c [->|Hp'] Hc; [apply I2, J3, Hc | exact (I3 p' c Hp' Hc)].
Qed.

Lemma char_table_init : char_table [[0]].
Proof.
  split; [exists []; reflexivity|]. split; [apply NoDup_singleton|].
  constructor; [|constructor]. exists 0. split; [reflexivity|].
  split; [lia | reflexivity].
Qed.

Lemma outCharTable_spec pts :
  Forall encodable pts ->
  char_table (Route.outCharTable pts)
  /\ (forall p c, In p pts -> In c (RoutePoint.name p) -> [c] ∈ Route.outCharTable pts).
Proof.
  intros Hpts. unfold Route.outCharTable.
  assert (H : Forall (fun p => Forall table_char (RoutePoint.name p)) pts).
  { eapply List.Forall_impl; [|exact Hpts]. intros p (_ & Hn & _).
    eapply List.Forall_impl; [|exact Hn]. exact name_char_table_char. }
  destruct (fold_names pts [[0]] H char_table_init) as (I1 & _ & I3).
  split; assumption.
Qed.

(** At most 65536 characters: every index fits in 16 bits. *)
Lemma char_table_length ct : char_table ct -> Z.of_nat (length ct) <= 65536.
Proof.
  intros (_ & Hnd & Hall). apply NoDup_ListNoDup in Hnd.
  pose proof (List.NoDup_incl_length (l := ct)
                (l' := map (fun k => [Z.of_nat k]) (seq 0 (Z.to_nat 65536))) Hnd) as H.
  rewrite length_map, length_seq in H.
  enough (length ct <= Z.to_nat 65536)%nat by lia. apply H.
  intros s Hs. rewrite List.Forall_forall in Hall.
  destruct (Hall s Hs) as (c & -> & [Hc _]).
  apply in_map_iff. exists (Z.to_nat c). split; [f_equal; lia|].
  apply in_seq. lia.
Qed.

End CharTableFacts.

Section CharCodecFacts.

Lemma surrogate_halves c :
  is_surrogate c = false -> is_low_surrogate c = false /\ is_high_surrogate c = false.
Proof.
  unfold is_surrogate, is_low_surrogate, is_high_surrogate. intros H.
  apply andb_false_iff in H. rewrite !andb_false_iff, !Z.leb_gt in *. lia.
Qed.

Lemma encode_table_char c : table_char c -> encode_utf16le [c] = Ok (le_bytes 2 c).
Proof.
  intros [Hc Hs]. unfold encode_utf16le, encode_char. cbn [mapM rbind].
  rewrite Hs. destruct (Z.ltb_spec c 65536); [|lia].
  cbn [rbind concat]. rewrite app_nil_r. reflexivity.
Qed.

Lemma decode_table_char c : table_char c -> decode_utf16le (le_bytes 2 c) = Ok [c].
Proof.
  intros [Hc Hs]. destruct (surrogate_halves c Hs) as [Hl Hh].
  cbn [le_bytes decode_utf16le].
  replace (c mod 256 + 256 * (c / 256 mod 256)) with c
    by (Z.to_euclidean_division_equations; lia).
  rewrite Hl, Hh. reflexivity.
Qed.

Lemma glyph_length k g : charBitmapDict !! k = Some g -> length g = 22%nat.
Proof.
  unfold charBitmapDict. intros H.
  apply elem_of_list_to_map_2, list_elem_of_In in H.
  assert (F : forallb (fun kv => (length (snd kv) =? 22)%nat) charBitmapTable = true)
    by (vm_compute; reflexivity).
  rewrite forallb_forall in F. apply F in H. cbn [snd] in H.
  apply Nat.eqb_eq. exact H.
Qed.

Lemma charBitmap_ok c :
  table_char c -> exists g, Route.charBitmap [c] = Ok g /\ length g = 22%nat.
Proof.
  intros Hc. unfold Route.charBitmap. rewrite encode_table_char by assumption.
  cbn [rbind]. destruct (charBitmapDict !! le_bytes 2 c) as [g|] eqn:E.
  - exists g. split; [reflexivity | exact (glyph_length _ _ E)].
  - destruct (charBitmapDict !! [63; 0]) as [g|] eqn:E2.
    + exists g. split; [reflexivity | exact (glyph_length _ _ E2)].
    + vm_compute in E2. discriminate E2.
Qed.

Lemma charBitmaps_ok ct :
  Forall (fun s => exists c, s = [c] /\ table_char c) ct ->
  exists glyphs,
    mapM Route.charBitmap ct = Ok glyphs
    /\ length (concat glyphs) = (22 * length ct)%nat.
Proof.
  induction 1 as [|s ct (c & -> & Hc) _ (glyphs & E & L)]; cbn [mapM].
  - exists []. split; reflexivity.
  - destruct (charBitmap_ok c Hc) as (g & Eg & Lg).
    exists (g :: glyphs). rewrite Eg. cbn [rbind]. rewrite E. cbn [rbind].
    split; [reflexivity|]. cbn [concat length]. rewrite length_app. lia.
Qed.

(** The character table on the wire: two bytes for each entry. *)
Lemma charTableBin_ok ct :
  Forall (fun s => exists c, s = [c] /\ table_char c) ct ->
  mapM encode_utf16le ct = Ok (map (fun s => le_bytes 2 (hd 0 s)) ct).
Proof.
  intros H. apply mapM_map. eapply List.Forall_impl; [|exact H].
  intros s (c & -> & Hc). exact (encode_table_char c Hc).
Qed.

Lemma range_len_mul q n : (0 < n)%nat -> range_len (q * n) n = q.
Proof.
  intros Hn. unfold range_len.
  replace (q * n + n - 1)%nat with ((n - 1) + q * n)%nat by lia.
  rewrite Nat.div_add by lia. rewrite Nat.div_small by lia. reflexivity.
Qed.

Lemma chop_pieces {A : Type} n (ls : list (list A)) :
  (0 < n)%nat -> Forall (fun r => length r = n) ls -> chop n (concat ls) = ls.
Proof.
  intros Hn. induction 1 as [|r ls Hr _ IH]; cbn [concat].
  - apply chop_nil. assumption.
  - rewrite (chop_app_aligned n 1) by lia.
    rewrite chop_single by lia. rewrite IH. reflexivity.
Qed.

Lemma length_pieces {A : Type} n (ls : list (list A)) :
  Forall (fun r => length r = n) ls -> length (concat ls) = (length ls * n)%nat.
Proof.
  induction 1 as [|r ls Hr _ IH]; [reflexivity|].
  cbn [concat length]. rewrite length_app, IH, Hr. lia.
Qed.

Lemma makeInCharTable_ok ct :
  Forall (fun s => exists c, s = [c] /\ table_char c) ct ->
  Route.makeInCharTable (concat (map (fun s => le_bytes 2 (hd 0 s)) ct)) = Ok ct.
Proof.
  intros H. unfold Route.makeInCharTable.
  rewrite chop_pieces;
    [|lia|apply Forall_map, Forall_true; intros s; apply length_le_bytes].
  induction H as [|s ct (c & -> & Hc) _ IH]; [reflexivity|].
  cbn [map mapM hd]. rewrite decode_table_char by assumption.
  cbn [rbind]. rewrite IH. reflexivity.
Qed.

End CharCodecFacts.

Section RoutePointFacts.

Lemma list_index_spec x l :
  x ∈ l ->
  exists i, list_index x l = Ok i /\ nth_error l i = Some x /\ (i < length l)%nat.
Proof.
  induction l as [|y l IH]; intros H; [apply elem_of_nil in H; contradiction|].
  cbn [list_index]. destruct (decide (x = y)) as [->|Hne].
  - exists 0%nat. repeat split. cbn [length]. lia.
  - apply elem_of_cons in H. destruct H as [H|H]; [contradiction|].
    destruct (IH H) as (i & E & N & L). exists (S i). rewrite E.
    repeat split; [exact N | cbn [length]; lia].
Qed.

Lemma list_index_nonzero x y l i :
  x <> y -> list_index x (y :: l) = Ok i -> i <> 0%nat.
Proof.
  intros Hne. cbn [list_index]. destruct (decide (x = y)); [contradiction|].
  destruct (list_index x l); cbn [rbind]; intros H; inversion H. lia.
Qed.

(** The indices of the characters of a name: each one fits in 16 bits, none
    is the index 0 of the null character, and each leads back to its
    character. *)
Lemma name_inds_ok ct name :
  char_table ct -> Forall name_char name -> (forall c, In c name -> [c] ∈ ct) ->
  exists inds,
    mapM (fun c => try! i <- list_index [c] ct; pack_unsigned 2 (Z.of_nat i)) name
    = Ok (map (le_bytes 2) inds)
    /\ length inds = length name
    /\ Forall (fun i => 0 < i < 65536) inds
    /\ mapM (fun ind => index (Z.to_nat ind) ct) inds = Ok (map (fun c => [c]) name).
Proof.
  intros Hct Hname Hin. pose proof (char_table_length ct Hct) as Hlen.
  destruct Hct as ([ct' Hhd] & _ & _).
  induction Hname as [|c name Hc _ IH].
  - exists []. repeat split. constructor.
  - destruct IH as (inds & E1 & E2 & E3 & E4);
      [intros c' Hc'; apply Hin; right; exact Hc'|].
    destruct (list_index_spec [c] ct (Hin c (or_introl eq_refl))) as (i & Ei & Ni & Li).
    assert (Hi : i <> 0%nat).
    { rewrite Hhd in Ei. apply (list_index_nonzero [c] [0] ct' i); [|exact Ei].
      intros [= ->]. destruct Hc as [Hc _]. lia. }
    exists (Z.of_nat i :: inds). cbn [mapM map].
    rewrite Ei. cbn [rbind].
    rewrite pack_unsigned_ok by (change (256 ^ Z.of_nat 2) with 65536; lia).
    cbn [rbind]. rewrite E1. cbn [rbind].
    split; [reflexivity|]. split; [cbn [length]; lia|].
    split; [constructor; [lia | exact E3]|].
    rewrite Nat2Z.id. unfold index at 1. rewrite Ni. cbn [rbind].
    rewrite E4. reflexivity.
Qed.

Lemma firstn_app_length {A : Type} n (l1 l2 : list A) :
  length l1 = n -> firstn n (l1 ++ l2) = l1.
Proof.
  intros H. rewrite firstn_app, H, Nat.sub_diag. cbn [firstn].
  rewrite app_nil_r. apply firstn_all2. lia.
Qed.

Lemma slice_app_mid {A : Type} (a b : nat) (pre l post : list A) :
  length pre = a -> length l = (b - a)%nat -> slice a b (pre ++ l ++ post) = l.
Proof.
  intros Hp Hl. unfold slice. rewrite skipn_app, skipn_all2 by lia.
  rewrite Hp, Nat.sub_diag. cbn [skipn app]. apply firstn_app_length. exact Hl.
Qed.

Lemma length_name_bin inds : (length inds <= 32)%nat -> length (name_bin inds) = 64%nat.
Proof.
  intros H. unfold name_bin.
  rewrite length_app, repeat_length, (length_pieces 2), length_map;
    [lia | apply Forall_map, Forall_true; intros s; apply length_le_bytes].
Qed.

Lemma repeat_pairs k : repeat 0 (2 * k) = concat (repeat [0; 0] k).
Proof.
  induction k as [|k IH]; [reflexivity|].
  replace (2 * S k)%nat with (S (S (2 * k))) by lia.
  cbn [repeat concat app]. rewrite IH. reflexivity.
Qed.

Lemma unpack_name_bin inds :
  (length inds <= 32)%nat -> Forall (fun i => 0 < i < 65536) inds ->
  unpack_unsigned 2 32 (name_bin inds) = Ok (inds ++ repeat 0 (32 - length inds)).
Proof.
  intros Hlen Hinds. unfold unpack_unsigned.
  rewrite length_name_bin by assumption. cbn [Nat.mul Nat.add Nat.eqb].
  unfold name_bin.
  replace (64 - 2 * length inds)%nat with (2 * (32 - length inds))%nat by lia.
  rewrite repeat_pairs, <- concat_app.
  rewrite chop_pieces; [|lia|].
  - rewrite map_app, map_map. f_equal. f_equal.
    + clear Hlen. induction Hinds as [|i inds Hi _ IH]; [reflexivity|].
      cbn [map]. rewrite IH.
      rewrite le_value_le_bytes by (change (256 ^ Z.of_nat 2) with 65536; lia).
      reflexivity.
    + generalize (32 - length inds)%nat. intros k.
      induction k as [|k IH]; [reflexivity|]. cbn [repeat map]. rewrite IH. reflexivity.
  - apply Forall_app. split.
    + apply Forall_map, Forall_true. intros s. apply length_le_bytes.
    + generalize (32 - length inds)%nat. intros k.
      induction k as [|k IH]; cbn [repeat]; constructor; [reflexivity | exact IH].
Qed.

Lemma filter_inds inds k :
  Forall (fun i => 0 < i < 65536) inds ->
  List.filter (fun ind => negb (ind =? 0)) (inds ++ repeat 0 k) = inds.
Proof.
  intros H. rewrite List.filter_app.
  replace (List.filter (fun ind => negb (ind =? 0)) (repeat 0 k)) with (@nil Z)
    by (induction k as [|k IH]; [reflexivity | cbn [repeat List.filter]; exact IH]).
  rewrite app_nil_r.
  induction H as [|i inds Hi _ IH]; [reflexivity|].
  cbn [List.filter]. destruct (Z.eqb_spec i 0); [lia|]. cbn [negb]. rewrite IH. reflexivity.
Qed.

Lemma concat_singletons (name : str) : concat (map (fun c => [c]) name) = name.
Proof. induction name as [|c name IH]; [reflexivity|]. cbn [map concat app]. rewrite IH. reflexivity. Qed.

Lemma unpack_one_short v :
  0 <= v < 65536 -> unpack_unsigned 2 1 (le_bytes 2 v) = Ok [v].
Proof.
  intros Hv. unfold unpack_unsigned. rewrite length_le_bytes.
  cbn [Nat.mul Nat.add Nat.eqb].
  rewrite chop_single by (rewrite ?length_le_bytes; lia). cbn [map].
  rewrite le_value_le_bytes by (change (256 ^ Z.of_nat 2) with 65536; lia).
  reflexivity.
Qed.

(** One point, encoded against a character table that holds the characters
    of its name, and decoded against the same table. *)
Lemma RoutePoint_roundtrip ct p :
  char_table ct -> (forall c, In c (RoutePoint.name p) -> [c] ∈ ct) -> encodable p ->
  exists raw,
    RoutePoint.toBin ct p = Ok raw
    /\ length raw = 76%nat
    /\ RoutePoint.fromBin raw ct = Ok (decoded p).
Proof.
  intros Hct Hin (Hlen & Hname & Hsym & (a & Ha & Ra) & (b & Hb & Rb)).
  destruct (name_inds_ok ct (RoutePoint.name p) Hct Hname Hin)
    as (inds & E1 & E2 & E3 & E4).
  assert (Hinds : (length inds <= 32)%nat) by lia.
  pose proof (length_name_bin inds Hinds) as HN.
  set (LA := le_bytes 4 (a mod 256 ^ Z.of_nat 4)).
  set (LB := le_bytes 4 (b mod 256 ^ Z.of_nat 4)).
  exists (name_bin inds ++ le_bytes 4 (RoutePoint.symbol p) ++ LA ++ LB).
  split; [|split].
  - unfold RoutePoint.toBin. rewrite Ha, Hb. cbn [pack_i].
    rewrite !pack_signed_4 by assumption. cbn [rbind].
    rewrite pack_unsigned_ok by (change (256 ^ Z.of_nat 4) with 4294967296; lia).
    cbn [rbind]. rewrite E1. cbn [rbind]. cbv zeta.
    rewrite (length_pieces 2), length_map
      by (apply Forall_map, Forall_true; intros s; apply length_le_bytes).
    rewrite (Nat.mul_comm (length inds) 2). reflexivity.
  - rewrite !length_app, HN. unfold LA, LB. rewrite !length_le_bytes. reflexivity.
  - assert (S1 : slice 64 66 (name_bin inds ++ le_bytes 4 (RoutePoint.symbol p) ++ LA ++ LB)
                 = le_bytes 2 (RoutePoint.symbol p)).
    { change (le_bytes 4 (RoutePoint.symbol p))
        with (le_bytes 2 (RoutePoint.symbol p)
              ++ le_bytes 2 (RoutePoint.symbol p / 256 / 256)).
      rewrite <- (app_assoc (le_bytes 2 (RoutePoint.symbol p))).
      apply slice_app_mid; [exact HN | rewrite length_le_bytes; reflexivity]. }
    assert (S2 : slice 68 76 (name_bin inds ++ le_bytes 4 (RoutePoint.symbol p) ++ LA ++ LB)
                 = LA ++ LB).
    { rewrite (app_assoc (name_bin inds)). apply slice_app_skip.
      - rewrite length_app, HN, length_le_bytes. reflexivity.
      - unfold LA, LB. rewrite length_app, !length_le_bytes. reflexivity. }
    unfold RoutePoint.fromBin. rewrite S1, S2.
    rewrite firstn_app_length by exact HN.
    rewrite unpack_name_bin by assumption. cbn [rbind].
    rewrite filter_inds by assumption. rewrite E4. cbn [rbind].
    rewrite unpack_one_short by assumption. cbn [rbind].
    unfold LA, LB. rewrite unpack_two_signed by assumption. cbn [rbind nth].
    rewrite concat_singletons. unfold decoded. rewrite Ha, Hb. reflexivity.
Qed.

End RoutePointFacts.

Section RouteFacts.

Lemma points_roundtrip ct pts :
  char_table ct ->
  (forall p c, In p pts -> In c (RoutePoint.name p) -> [c] ∈ ct) ->
  Forall encodable pts ->
  exists bins,
    mapM (RoutePoint.toBin ct) pts = Ok bins
    /\ Forall (fun r => length r = 76%nat) bins
    /\ length bins = length pts
    /\ mapM (fun data => RoutePoint.fromBin data ct) bins = Ok (map decoded pts).
Proof.
  intros Hct Hin Hpts. induction Hpts as [|p pts Hp _ IH].
  - exists []. repeat split. constructor.
  - destruct IH as (bins & E1 & E2 & E3 & E4);
      [intros q c Hq; apply Hin; right; exact Hq|].
    destruct (RoutePoint_roundtrip ct p Hct
                (fun c => Hin p c (or_introl eq_refl)) Hp)
      as (raw & R1 & R2 & R3).
    exists (raw :: bins). cbn [mapM map]. rewrite R1. cbn [rbind].
    rewrite E1. cbn [rbind]. split; [reflexivity|].
    split; [constructor; assumption|]. split; [cbn [length]; lia|].
    rewrite R3. cbn [rbind]. rewrite E4. reflexivity.
Qed.

Lemma unpack_two_shorts a b :
  0 <= a < 65536 -> 0 <= b < 65536 ->
  unpack_unsigned 2 2 (le_bytes 2 a ++ le_bytes 2 b) = Ok [a; b].
Proof.
  intros Ha Hb. unfold unpack_unsigned.
  rewrite length_app, !length_le_bytes. cbn [Nat.eqb Nat.add Nat.mul].
  rewrite (chop_app_aligned 2 1) by (rewrite ?length_le_bytes; lia).
  rewrite !chop_single by (rewrite ?length_le_bytes; lia). cbn [app map].
  rewrite !le_value_le_bytes by (change (256 ^ Z.of_nat 2) with 65536; lia).
  reflexivity.
Qed.

Lemma unpack_three_ints a b c :
  0 <= a < 2 ^ 32 -> 0 <= b < 2 ^ 32 -> 0 <= c < 2 ^ 32 ->
  unpack_unsigned 4 3 (le_bytes 4 a ++ le_bytes 4 b ++ le_bytes 4 c) = Ok [a; b; c].
Proof.
  intros Ha Hb Hc. unfold unpack_unsigned.
  rewrite !length_app, !length_le_bytes. cbn [Nat.eqb Nat.add Nat.mul].
  rewrite (chop_app_aligned 4 1) by (rewrite ?length_le_bytes; lia).
  rewrite (chop_app_aligned 4 1) by (rewrite ?length_le_bytes; lia).
  rewrite !chop_single by (rewrite ?length_le_bytes; lia). cbn [app map].
  rewrite !le_value_le_bytes by (change (256 ^ Z.of_nat 4) with (2 ^ 32); lia).
  reflexivity.
Qed.

(** [parseBin] on the layout that [toBin] writes: a header with the number
    of points and the three offsets, the points, the character table and
    the glyphs. *)
Lemma parseBin_layout n o1 o2 o3 csv PD CT BM bins ct pts :
  0 <= n < 65536 ->
  o1 = Z.of_nat (20 + length PD) ->
  o2 = Z.of_nat (20 + length PD + length CT) ->
  o3 = Z.of_nat (20 + length PD + length CT + length BM) ->
  o3 < 2 ^ 32 ->
  Route.header_checksum
    (le_bytes 2 1 ++ le_bytes 2 n ++ le_bytes 4 o1 ++ le_bytes 4 o2 ++ le_bytes 4 o3
     ++ [0; 0])
  = Ok (le_bytes 2 csv) ->
  PD = concat bins -> Forall (fun r => length r = 76%nat) bins ->
  length bins = Z.to_nat n ->
  Route.makeInCharTable CT = Ok ct ->
  mapM (fun data => RoutePoint.fromBin data ct) bins = Ok pts ->
  Route.parseBin
    (((le_bytes 2 1 ++ le_bytes 2 n ++ le_bytes 4 o1 ++ le_bytes 4 o2 ++ le_bytes 4 o3
       ++ [0; 0]) ++ le_bytes 2 csv) ++ PD ++ CT ++ BM)
  = Ok (Route.mk
          (((le_bytes 2 1 ++ le_bytes 2 n ++ le_bytes 4 o1 ++ le_bytes 4 o2
             ++ le_bytes 4 o3 ++ [0; 0]) ++ le_bytes 2 csv) ++ PD ++ CT ++ BM)
          pts ct 1 n o1 o2 o3).
Proof.
  intros Hn Ho1 Ho2 Ho3 Hr Hcs HPD Hbins Hlen HCT Hpts.
  set (pre := le_bytes 2 1 ++ le_bytes 2 n ++ le_bytes 4 o1 ++ le_bytes 4 o2
              ++ le_bytes 4 o3 ++ [0; 0]) in *.
  set (raw := (pre ++ le_bytes 2 csv) ++ PD ++ CT ++ BM).
  assert (Hh : firstn 20 raw = pre ++ le_bytes 2 csv) by reflexivity.
  assert (F4 : firstn 4 (pre ++ le_bytes 2 csv) = le_bytes 2 1 ++ le_bytes 2 n)
    by reflexivity.
  assert (S4 : slice 4 16 (pre ++ le_bytes 2 csv)
               = le_bytes 4 o1 ++ le_bytes 4 o2 ++ le_bytes 4 o3) by reflexivity.
  assert (F18 : firstn 18 (pre ++ le_bytes 2 csv) = pre) by reflexivity.
  assert (S18 : slice 18 20 (pre ++ le_bytes 2 csv) = le_bytes 2 csv) by reflexivity.
  assert (Hhl : length (pre ++ le_bytes 2 csv) = 20%nat) by reflexivity.
  assert (HPDl : length PD = (length bins * 76)%nat)
    by (rewrite HPD; apply length_pieces; exact Hbins).
  unfold Route.parseBin. rewrite Hh, F4, S4, F18, S18.
  rewrite unpack_two_shorts by lia. cbn [rbind].
  rewrite unpack_three_ints by lia. cbn [rbind].
  rewrite Hcs. cbn [rbind].
  rewrite bool_decide_eq_true_2 by reflexivity. cbn [negb nth].
  assert (P1 : slice 20 (Z.to_nat o1) raw = PD).
  { unfold raw. rewrite Ho1, Nat2Z.id.
    apply slice_app_mid; [exact Hhl | lia]. }
  assert (P2 : slice (Z.to_nat o1) (Z.to_nat o2) raw = CT).
  { unfold raw. rewrite Ho1, Ho2, !Nat2Z.id.
    rewrite (app_assoc (pre ++ le_bytes 2 csv)).
    apply slice_app_mid; [rewrite length_app, Hhl; reflexivity | lia]. }
  rewrite P1, P2, HCT. cbn [rbind].
  replace (map (fun k => slice (k * 76) (k * 76 + 76) PD) (seq 0 (Z.to_nat n)))
    with bins.
  - rewrite Hpts. reflexivity.
  - rewrite <- (chop_pieces 76 bins) at 1 by (lia || assumption).
    unfold chop. rewrite <- HPD, HPDl, range_len_mul, Hlen by lia. reflexivity.
Qed.

End RouteFacts.

(** A name with a character outside the basic plane (two UTF-16 code units)
    is encoded, and the bytes are refused by the decoder, which cuts the
    character table in two-byte pieces; a null character in a name is lost;
    the coordinates come back as floats, not as the scaled integers that
    were encoded. *)
Lemma Route_counterexample :
  rbind (Route.toBin [RoutePoint.fromGpxValues 869000 4941000 [128512] "left"])
        Route.fromBin
  = Raise UnicodeError
  /\ (exists r,
        rbind (Route.toBin [RoutePoint.fromGpxValues 869000 4941000 [65; 0; 66] "left"])
              Route.fromBin
        = Ok r
        /\ map RoutePoint.name (Route.points r) = [[65; 66]])
  /\ (exists r,
        rbind (Route.toBin [RoutePoint.fromGpxValues 869000 4941000 [72; 105] "left"])
              Route.fromBin
        = Ok r
        /\ map RoutePoint.lat (Route.points r) = [MulEm5 4941000]
        /\ MulEm5 4941000 <> Int 4941000).
Proof.
  split; [vm_compute; reflexivity|]. split.
  - eexists. split; [vm_compute; reflexivity | reflexivity].
  - eexists. split; [vm_compute; reflexivity|]. split; [reflexivity | discriminate].
Qed.

(** C1 (amended).  For every route of at most 65535 points whose names have
    at most 32 characters, each one a character of the basic plane other
    than a surrogate and other than the null character, whose symbols are
    below 65536 and whose coordinates are scaled integers in the signed
    32-bit range, [Route.toBin] produces bytes, and [Route.fromBin] decodes
    them to a route whose header checksum validates, with as many points,
    the same character table, and for each point the same name, the same
    symbol and the coordinates as the floats [i * 1e-5]. *)
Theorem Route_roundtrip (pts : list RoutePoint.t) :
  Forall encodable pts -> Z.of_nat (length pts) < 65536 ->
  exists raw r,
    Route.toBin pts = Ok raw
    /\ Route.fromBin raw = Ok r
    /\ Route.header_valid raw
    /\ Route.points r = map decoded pts
    /\ Route.numOfPoints r = Z.of_nat (length pts)
    /\ Route.chartable r = Route.outCharTable pts
    /\ Route.binData r = raw.
Proof.
  intros Hpts Hn.
  destruct (outCharTable_spec pts Hpts) as [Hct Hin].
  pose proof (char_table_length _ Hct) as Hctl.
  pose proof (proj2 (proj2 Hct)) as Hall.
  destruct (charBitmaps_ok _ Hall) as (glyphs & G1 & G2).
  destruct (points_roundtrip _ pts Hct Hin Hpts) as (bins & B1 & B2 & B3 & B4).
  pose proof (charTableBin_ok _ Hall) as T1.
  pose proof (length_pieces 76 bins B2) as L1.
  assert (L2 : length (concat (map (fun s => le_bytes 2 (hd 0 s)) (Route.outCharTable pts)))
               = (length (Route.outCharTable pts) * 2)%nat).
  { rewrite (length_pieces 2), length_map; [reflexivity|].
    apply Forall_map, Forall_true. intros s. apply length_le_bytes. }
  unfold Route.fromBin, Route.toBin, Route.makeOutCharTable.
  rewrite G1. cbn [rbind fst snd]. rewrite B1. cbn [rbind]. rewrite T1. cbn [rbind].
  rewrite !pack_unsigned_ok
    by (change (256 ^ Z.of_nat 4) with 4294967296;
        change (256 ^ Z.of_nat 2) with 65536; lia).
  cbn [rbind].
  match goal with
  | |- context [Route.header_checksum ?x] =>
      destruct (header_checksum_bytes x) as [Hcs _]
  end.
  { repeat (apply Forall_app; split; [apply le_bytes_range|]).
    repeat (constructor; [unfold is_byte; lia|]). constructor. }
  { reflexivity. }
  rewrite Hcs. cbn [rbind].
  eexists. eexists. split; [reflexivity|]. split.
  - apply parseBin_layout
      with (bins := bins) (ct := Route.outCharTable pts) (pts := map decoded pts);
      try reflexivity; try assumption.
    + lia.
    + change (2 ^ 32) with 4294967296. lia.
    + rewrite Nat2Z.id. exact B3.
    + apply makeInCharTable_ok. exact Hall.
  - split; [exact Hcs|]. repeat split.
Qed.

(** The route of one point of the import adapter, named Hi, with the symbol
    for a left turn. *)
Lemma Route_roundtrip_witness :
  exists raw r,
    Route.toBin [RoutePoint.fromGpxValues 869000 4941000 [72; 105] "left"] = Ok raw
    /\ Route.fromBin raw = Ok r
    /\ Route.points r = [RoutePoint.mk [72; 105] 4 (MulEm5 4941000) (MulEm5 869000)].
Proof.
  destruct (Route_roundtrip [RoutePoint.fromGpxValues 869000 4941000 [72; 105] "left"])
    as (raw & r & H1 & H2 & _ & H3 & _).
  - constructor; [|constructor]. unfold encodable. cbn.
    split; [lia|]. split.
    + constructor; [split; [lia | reflexivity]|].
      constructor; [split; [lia | reflexivity]|]. constructor.
    + split; [lia|]. split; eexists; (split; [reflexivity | lia]).
  - cbn [length]. lia.
  - exists raw, r. split; [exact H1|]. split; [exact H2 | exact H3].
Defined.

(** ** Module-level helpers *)

Section HelperFacts.

Lemma longest_inner (seq : list string) :
  forall m,
    let r := fold_left
               (fun maxLen c =>
                  if (maxLen <? String.length c)%nat then String.length c else maxLen)
               seq m in
    (m <= r)%nat
    /\ (forall c, In c seq -> (String.length c <= r)%nat)
    /\ (r = m \/ exists c, In c seq /\ String.length c = r).
Proof.
  induction seq as [|c seq IH]; intros m; cbn [fold_left].
  - split; [lia|]. split; [intros c []|]. left. reflexivity.
  - destruct (IH (if (m <? String.length c)%nat then String.length c else m))
      as (I1 & I2 & I3).
    destruct (Nat.ltb_spec m (String.length c)) as [Hlt|Hge].
    + split; [lia|]. split.
      * intros c' [<-|Hc']; [exact I1 | exact (I2 c' Hc')].
      * right. destruct I3 as [->|(c' & Hc' & E)].
        -- exists c. split; [left; reflexivity | reflexivity].
        -- exists c'. split; [right; exact Hc' | exact E].
    + split; [exact I1|]. split.
      * intros c' [<-|Hc']; [lia | exact (I2 c' Hc')].
      * destruct I3 as [->|(c' & Hc' & E)]; [left; reflexivity|].
        right. exists c'. split; [right; exact Hc' | exact E].
Qed.

Lemma longest_outer (args : list (list string)) :
  forall m,
    let r := fold_left
               (fun maxLen seq =>
                  fold_left
                    (fun maxLen c =>
                       if (maxLen <? String.length c)%nat then String.length c
                       else maxLen)
                    seq maxLen)
               args m in
    (m <= r)%nat
    /\ (forall seq c, In seq args -> In c seq -> (String.length c <= r)%nat)
    /\ (r = m \/ exists seq c, In seq args /\ In c seq /\ String.length c = r).
Proof.
  induction args as [|seq args IH]; intros m; cbn [fold_left].
  - split; [lia|]. split; [intros seq c []|]. left. reflexivity.
  - destruct (longest_inner seq m) as (J1 & J2 & J3).
    destruct (IH (fold_left
                    (fun maxLen c =>
                       if (maxLen <? String.length c)%nat then String.length c
                       else maxLen) seq m)) as (I1 & I2 & I3).
    split; [lia|]. split.
    + intros seq' c [<-|Hs] Hc; [specialize (J2 c Hc); lia | exact (I2 seq' c Hs Hc)].
    + destruct I3 as [E|(seq' & c & Hs & Hc & E)].
      * rewrite E. destruct J3 as [->|(c & Hc & E')]; [left; reflexivity|].
        right. exists seq, c. split; [left; reflexivity|]. split; assumption.
      * right. exists seq', c. split; [right; exact Hs|]. split; assumption.
Qed.

End HelperFacts.

(** [lenOfLongestStringIn] returns the greatest length among the strings of
    its arguments: no string is longer, and the result is the length of one
    of the strings unless it is 0. *)
Theorem lenOfLongestStringIn_max (args : list (list string)) :
  (forall seq c, In seq args -> In c seq ->
     (String.length c <= lenOfLongestStringIn args)%nat)
  /\ (lenOfLongestStringIn args = 0%nat
      \/ exists seq c, In seq args /\ In c seq
                       /\ String.length c = lenOfLongestStringIn args).
Proof.
  destruct (longest_outer args 0%nat) as (_ & H2 & H3).
  split; [exact H2 | exact H3].
Qed.

Section DictFacts.
Context {K V : Type} `{EqDecision K}.

Lemma find_app {A : Type} (f : A -> bool) (l1 l2 : list A) :
  find f (l1 ++ l2) = match find f l1 with Some x => Some x | None => find f l2 end.
Proof.
  induction l1 as [|x l1 IH]; [reflexivity|]. cbn [app find].
  destruct (f x); [reflexivity | exact IH].
Qed.

Lemma dict_get_set (k k' : K) (v : V) (d : list (K * V)) :
  dict_get k' (dict_set k v d) = if decide (k' = k) then Ok v else dict_get k' d.
Proof.
  unfold dict_get. induction d as [|[k0 v0] d IH]; cbn [dict_set find fst snd].
  - destruct (decide (k' = k)) as [->|Hne].
    + rewrite bool_decide_eq_true_2 by reflexivity. reflexivity.
    + rewrite bool_decide_eq_false_2 by congruence. reflexivity.
  - destruct (decide (k = k0)) as [->|Hk]; cbn [find fst snd].
    + destruct (decide (k' = k0)) as [->|Hne].
      * rewrite bool_decide_eq_true_2 by reflexivity. reflexivity.
      * rewrite bool_decide_eq_false_2 by congruence. reflexivity.
    + destruct (decide (k0 = k')) as [->|Hne].
      * rewrite bool_decide_eq_true_2 by reflexivity.
        destruct (decide (k' = k)); [congruence | reflexivity].
      * rewrite bool_decide_eq_false_2 by assumption. exact IH.
Qed.

(** A lookup in [dict(items)] finds the last item with that key. *)
Lemma dict_get_fold (k : K) (items : list (K * V)) :
  forall d0,
    dict_get k (fold_left (fun d kv => dict_set (fst kv) (snd kv) d) items d0)
    = match find (fun kv => bool_decide (fst kv = k)) (rev items) with
      | Some kv => Ok (snd kv)
      | None => dict_get k d0
      end.
Proof.
  induction items as [|[k0 v0] items IH]; intros d0; [reflexivity|].
  cbn [fold_left rev fst snd]. rewrite IH, find_app.
  destruct (find (fun kv => bool_decide (fst kv = k)) (rev items)); [reflexivity|].
  rewrite dict_get_set. cbn [find fst snd].
  destruct (decide (k = k0)) as [->|Hne].
  - rewrite bool_decide_eq_true_2 by reflexivity. reflexivity.
  - rewrite bool_decide_eq_false_2 by congruence. reflexivity.
Qed.

Lemma dict_set_fresh (k : K) (v : V) (d : list (K * V)) :
  ~ In k (map fst d) -> dict_set k v d = d ++ [(k, v)].
Proof.
  induction d as [|[k0 v0] d IH]; intros Hk; [reflexivity|].
  cbn [dict_set app]. cbn [map fst In] in Hk.
  destruct (decide (k = k0)) as [->|Hne]; [tauto|].
  rewrite IH by tauto. reflexivity.
Qed.

(** Items with pairwise distinct keys make the dict that lists them. *)
Lemma dict_of_items_distinct (items : list (K * V)) :
  forall d0, List.NoDup (map fst (d0 ++ items)) ->
    fold_left (fun d kv => dict_set (fst kv) (snd kv) d) items d0 = d0 ++ items.
Proof.
  induction items as [|[k v] items IH]; intros d0 Hnd; cbn [fold_left fst snd].
  - symmetry. apply app_nil_r.
  - assert (Hfresh : ~ In k (map fst d0)).
    { rewrite map_app in Hnd. cbn [map fst] in Hnd.
      apply List.NoDup_remove_2 in Hnd. intros Hin. apply Hnd.
      apply in_or_app. left. exact Hin. }
    rewrite dict_set_fresh by exact Hfresh.
    rewrite IH by (rewrite <- app_assoc; exact Hnd).
    rewrite <- app_assoc. reflexivity.
Qed.

Lemma dict_get_In (k : K) (v : V) (d : list (K * V)) :
  List.NoDup (map fst d) -> (dict_get k d = Ok v <-> In (k, v) d).
Proof.
  unfold dict_get. induction d as [|[k0 v0] d IH]; intros Hnd; cbn [find fst snd].
  - split; [discriminate | intros []].
  - cbn [map fst] in Hnd. apply List.NoDup_cons_iff in Hnd. destruct Hnd as [Hk0 Hnd].
    destruct (decide (k0 = k)) as [->|Hne].
    + rewrite bool_decide_eq_true_2 by reflexivity. cbn [snd]. split.
      * intros [= ->]. left. reflexivity.
      * intros [[= ->]|Hin]; [reflexivity|].
        exfalso. apply Hk0. apply in_map_iff. exists (k, v). split; [reflexivity | exact Hin].
    + rewrite bool_decide_eq_false_2 by assumption. rewrite (IH Hnd). split.
      * intros Hin. right. exact Hin.
      * intros [[= -> ->]|Hin]; [congruence | exact Hin].
Qed.

End DictFacts.

Section ReversedDictFacts.
Context {K V : Type} `{EqDecision K} `{EqDecision V}.

Lemma find_swapped (v : V) (l : list (K * V)) :
  find (fun kv : V * K => bool_decide (fst kv = v)) (map (fun kv => (snd kv, fst kv)) l)
  = option_map (fun kv => (snd kv, fst kv))
      (find (fun kv : K * V => bool_decide (snd kv = v)) l).
Proof.
  induction l as [|[k0 v0] l IH]; [reflexivity|]. cbn [map find fst snd].
  destruct (bool_decide (v0 = v)); [reflexivity | exact IH].
Qed.

Lemma reversedDict_distinct (d : list (K * V)) :
  List.NoDup (map snd d) -> reversedDict d = map (fun kv => (snd kv, fst kv)) d.
Proof.
  intros Hnd. unfold reversedDict, dict_of_items.
  rewrite dict_of_items_distinct; [reflexivity|].
  cbn [app]. rewrite map_map. cbn [fst]. exact Hnd.
Qed.

Lemma swap_swap (d : list (K * V)) :
  map (fun kv : V * K => (snd kv, fst kv)) (map (fun kv : K * V => (snd kv, fst kv)) d) = d.
Proof.
  rewrite map_map. cbn [fst snd]. rewrite <- (map_id d) at 2.
  apply map_ext. intros [k v]. reflexivity.
Qed.

End ReversedDictFacts.

(** A lookup in [reversedDict(d)] gives, for a value of [d], the last key in
    insertion order that [d] maps to it, and raises [KeyError] for anything
    that is not a value of [d]. *)
Theorem reversedDict_get {K V : Type} `{EqDecision V} (d : list (K * V)) (v : V) :
  dict_get v (reversedDict d)
  = match find (fun kv => bool_decide (snd kv = v)) (rev d) with
    | Some kv => Ok (fst kv)
    | None => Raise KeyError
    end.
Proof.
  unfold reversedDict, dict_of_items. rewrite dict_get_fold.
  rewrite <- map_rev, find_swapped.
  destruct (find (fun kv => bool_decide (snd kv = v)) (rev d)); reflexivity.
Qed.

(** On a dict whose values are pairwise distinct, [reversedDict] is an
    inverse: reversing twice gives the dict back, items in the same order,
    and [reversedDict(d)[v]] is [k] exactly when [d[k]] is [v]. *)
Theorem reversedDict_inverse {K V : Type} `{EqDecision K} `{EqDecision V}
    (d : list (K * V)) :
  List.NoDup (map fst d) -> List.NoDup (map snd d) ->
  reversedDict (reversedDict d) = d
  /\ forall k v, dict_get k d = Ok v <-> dict_get v (reversedDict d) = Ok k.
Proof.
  intros Hk Hv. rewrite (reversedDict_distinct d Hv). split.
  - rewrite reversedDict_distinct; [apply swap_swap|].
    rewrite map_map. cbn [snd]. exact Hk.
  - intros k v. rewrite (dict_get_In k v d Hk).
    rewrite dict_get_In by (rewrite map_map; cbn [fst]; exact Hv).
    rewrite in_map_iff. split.
    + intros Hin. exists (k, v). split; [reflexivity | exact Hin].
    + intros ([k' v'] & [= -> ->] & Hin). exact Hin.
Qed.

(** The symbol names of a route point: the code of a name is found in the
    reversed dict, and reversing twice gives the dict of the names back. *)
Lemma reversedDict_inverse_witness :
  reversedDict (reversedDict RoutePoint.symbolDict) = RoutePoint.symbolDict
  /\ dict_get "keep left"%string (reversedDict RoutePoint.symbolDict) = Ok 2.
Proof.
  destruct (reversedDict_inverse RoutePoint.symbolDict) as [H1 H2].
  - unfold RoutePoint.symbolDict. cbn [map fst].
    repeat (apply List.NoDup_cons; [cbn [In]; intuition discriminate|]).
    apply List.NoDup_nil.
  - unfold RoutePoint.symbolDict. cbn [map snd].
    repeat (apply List.NoDup_cons; [cbn [In]; intuition discriminate|]).
    apply List.NoDup_nil.
  - split; [exact H1|]. apply H2. reflexivity.
Defined.

(** ** The chunks of the receive path *)

Section ChunkFacts.

Lemma crc_residue_step c :
  in16 c -> crc_update (crc_update c (c / 256)) (c mod 256) = 0.
Proof.
  intros Hc.
  assert (H : check_range
                (fun c => crc_update (crc_update c (c / 256)) (c mod 256) =? 0)
                0 (Z.to_nat 65536) = true) by (vm_compute; reflexivity).
  pose proof (check_range_spec _ _ _ H c) as Hz. unfold in16 in Hc.
  specialize (Hz ltac:(lia)). cbv beta in Hz. apply Z.eqb_eq. exact Hz.
Qed.

Lemma slice_but_last_app {A : Type} (l t : list A) k :
  length t = k -> slice_but_last k (l ++ t) = l.
Proof.
  intros H. unfold slice_but_last. rewrite length_app, H.
  replace (length l + k - k)%nat with (length l) by lia.
  apply firstn_app_length. reflexivity.
Qed.

Lemma slice_last_app {A : Type} (l t : list A) k :
  length t = k -> slice_last k (l ++ t) = t.
Proof.
  intros H. unfold slice_last. rewrite length_app, H.
  replace (length l + k - k)%nat with (length l) by lia.
  rewrite skipn_app, skipn_all, Nat.sub_diag. reflexivity.
Qed.

End ChunkFacts.

(** The digest is a residue: the CRC of a byte string followed by its own
    two digest bytes is 0. *)
Theorem crc_residue (string : bytes) :
  Forall is_byte string -> crc16_xmodem (string ++ calcCrcChecksum string) = 0.
Proof.
  intros Hb. unfold calcCrcChecksum, crc16_xmodem.
  rewrite fold_left_app. cbn [fold_left].
  apply crc_residue_step. exact (crc16_range string Hb).
Qed.

Lemma crc_residue_witness :
  crc16_xmodem ([49; 50; 51; 52; 53; 54; 55; 56; 57] ++ [49; 195]) = 0.
Proof.
  apply (crc_residue [49; 50; 51; 52; 53; 54; 55; 56; 57]).
  repeat (constructor; [unfold is_byte; lia|]). constructor.
Defined.

(** A chunk as the device sends it - the start byte 0x02, two more header
    bytes, the payload and the CRC digest of the payload - is accepted by
    [getDataChunk], which returns the payload; the two header bytes behind
    the start byte (the sequence number and its complement) are not
    looked at. *)
Theorem getDataChunk_frame (a b : Z) (payload : bytes) :
  getDataChunk_resp ([2; a; b] ++ payload ++ calcCrcChecksum payload) = Ok payload.
Proof.
  unfold getDataChunk_resp. cbn [app Z.eqb Pos.eqb].
  cbn [skipn]. rewrite skipn_O.
  rewrite slice_but_last_app by reflexivity.
  change (2 :: a :: b :: payload ++ calcCrcChecksum payload)
    with (([2; a; b] ++ payload) ++ calcCrcChecksum payload).
  rewrite slice_last_app by reflexivity.
  unfold checkCrcChecksum. rewrite bool_decide_eq_true_2 by reflexivity.
  reflexivity.
Qed.

(** ** The frames of the send path *)

Section FrameFacts.

Lemma sum_change pre x x' post :
  is_byte x -> is_byte x' -> x <> x' ->
  sum (pre ++ x :: post) mod 256 <> sum (pre ++ x' :: post) mod 256.
Proof.
  unfold is_byte. intros Hx Hx' Hne. rewrite !sum_app, !sum_cons.
  intros E. revert E. Z.to_euclidean_division_equations. lia.
Qed.

Lemma sum_swap pre x mid y post :
  sum (pre ++ x :: mid ++ y :: post) = sum (pre ++ y :: mid ++ x :: post).
Proof. rewrite !sum_app, !sum_cons, !sum_app, !sum_cons. lia. Qed.

Lemma frame_trailer (h c : bytes) t : slice_last 1 (h ++ c ++ [t]) = [t].
Proof. rewrite app_assoc. apply slice_last_app. reflexivity. Qed.

Lemma concat_chop {A : Type} n (l : list A) : (0 < n)%nat -> concat (chop n l) = l.
Proof.
  intros Hn. remember (length l) as L eqn:E. revert l E.
  induction L as [L IH] using lt_wf_ind. intros l E.
  destruct l as [|x l'].
  - rewrite chop_nil by assumption. reflexivity.
  - rewrite chop_cons by (assumption || discriminate). cbn [concat].
    rewrite (IH (length (skipn n (x :: l')))); [apply firstn_skipn | | reflexivity].
    rewrite length_skipn. subst L. cbn [length]. lia.
Qed.

Lemma index_neg_1_inv {A : Type} (l : list A) x :
  index_neg 1 l = Ok x -> exists L, l = L ++ [x].
Proof.
  induction l as [|a l' _] using rev_ind; [discriminate|].
  rewrite index_neg_1_snoc. intros [= ->]. exists l'. reflexivity.
Qed.

End FrameFacts.

(** The one-byte trailer of a frame is a plain sum: it changes with every
    change of a single payload byte, and it does not change when two bytes
    of the payload trade places. *)
Theorem frame_chunk_sum8 (i : nat) (pre post : bytes) (x x' : Z) :
  (i < 255)%nat -> is_byte x -> is_byte x' -> x <> x' ->
  (exists f f',
      frame_chunk i (pre ++ x :: post) = Ok f
      /\ frame_chunk i (pre ++ x' :: post) = Ok f'
      /\ slice_last 1 f <> slice_last 1 f')
  /\ (forall mid,
        exists g g',
          frame_chunk i (pre ++ x :: mid ++ x' :: post) = Ok g
          /\ frame_chunk i (pre ++ x' :: mid ++ x :: post) = Ok g'
          /\ g <> g' /\ slice_last 1 g = slice_last 1 g').
Proof.
  intros Hi Hx Hx' Hne. split.
  - eexists. eexists. rewrite !frame_chunk_ok by assumption.
    split; [reflexivity|]. split; [reflexivity|].
    rewrite !frame_trailer. intros [= E].
    exact (sum_change pre x x' post Hx Hx' Hne E).
  - intros mid. eexists. eexists. rewrite !frame_chunk_ok by assumption.
    split; [reflexivity|]. split; [reflexivity|]. split.
    + intros E. apply app_inv_head in E.
      apply (f_equal (fun l => nth (length pre) l 0)) in E.
      rewrite <- !app_assoc in E. cbn [app] in E.
      rewrite !nth_middle in E. congruence.
    + rewrite !frame_trailer. rewrite (sum_swap pre x mid x' post). reflexivity.
Qed.

Lemma frame_chunk_sum8_witness :
  exists f f',
    frame_chunk 0 ([1] ++ 2 :: [3]) = Ok f
    /\ frame_chunk 0 ([1] ++ 7 :: [3]) = Ok f'
    /\ slice_last 1 f <> slice_last 1 f'.
Proof.
  destruct (frame_chunk_sum8 0 [1] [3] 2 7) as [H _];
    [lia | unfold is_byte; lia | unfold is_byte; lia | discriminate | exact H].
Defined.

(** Taking the 1024 payload bytes out of every frame and joining them gives
    the data back, followed by fewer than 1024 bytes 0xff. *)
Theorem makeChunks_payload (data : bytes) :
  data <> [] -> (length data <= 255 * 1024)%nat ->
  exists frames k,
    makeChunks data = Ok frames
    /\ (k < 1024)%nat
    /\ concat (map (slice 3 1027) frames) = data ++ repeat 255 k
    /\ firstn (length data) (concat (map (slice 3 1027) frames)) = data.
Proof.
  intros Hd Hlen. rewrite (makeChunks_ok data Hd Hlen).
  destruct (makeChunks_chunks data Hd) as (lastChunk & E1 & E2).
  destruct (index_neg_1_inv _ _ E1) as [L HL].
  assert (Hlast : lastChunk <> []).
  { assert (Hin : In lastChunk (chop 1024 data))
      by (rewrite HL; apply in_or_app; right; left; reflexivity).
    destruct (chop_In_head 1024 data lastChunk 0 ltac:(lia) Hin) as (q & t & _ & ->).
    discriminate. }
  assert (Hpay : concat (map (padded_chunk data) (seq 0 (range_len (length data) 1024)))
                 = data ++ repeat 255 (1024 - length lastChunk)).
  { rewrite <- E2, HL, set_last_snoc, !concat_app. cbn [concat].
    rewrite !app_nil_r, app_assoc. f_equal.
    transitivity (concat (chop 1024 data)); [|apply concat_chop; lia].
    rewrite HL, concat_app. cbn [concat]. rewrite app_nil_r. reflexivity. }
  eexists. exists (1024 - length lastChunk)%nat. split; [reflexivity|].
  split; [destruct lastChunk; [congruence | cbn [length]; lia]|].
  rewrite map_map.
  rewrite (map_ext _ (padded_chunk data)).
  - rewrite Hpay. split; [reflexivity|]. apply firstn_app_length. reflexivity.
  - intros i. apply slice_app_mid; [reflexivity|].
    rewrite length_padded_chunk. reflexivity.
Qed.

Lemma makeChunks_payload_witness :
  exists frames k,
    makeChunks [1; 2; 3] = Ok frames
    /\ concat (map (slice 3 1027) frames) = [1; 2; 3] ++ repeat 255 k.
Proof.
  destruct (makeChunks_payload [1; 2; 3]) as (frames & k & H1 & _ & H2 & _);
    [discriminate | cbn [length]; lia |].
  exists frames, k. split; [exact H1 | exact H2].
Defined.

Section EmptyChunkFacts.

Lemma set_last_same {A : Type} (acc : list A) b :
  last_opt acc = Some b -> set_last b acc = acc.
Proof.
  induction acc as [|a acc' _] using rev_ind; [discriminate|].
  rewrite last_opt_snoc. intros [= ->]. apply set_last_snoc.
Qed.

Lemma parseChunks_step_empty n acc :
  (0 < n)%nat -> parseChunks_step n acc [] = Ok acc.
Proof.
  intros Hn. unfold parseChunks_step, complete_last.
  assert (Hto : forall k, slice_to k (@nil Z) = [])
    by (intros k; unfold slice_to; destruct (k <? 0); apply firstn_nil).
  assert (Hfrom : forall k, slice_from k (@nil Z) = [])
    by (intros k; unfold slice_from; destruct (k <? 0); apply skipn_nil).
  destruct (last_opt acc) as [b|] eqn:E.
  - destruct (length b =? n)%nat.
    + rewrite (chop_checked_pos n Hn), chop_nil by assumption. reflexivity.
    + rewrite Hto, Hfrom, app_nil_r, (set_last_same acc b E).
      rewrite (chop_checked_pos n Hn), chop_nil by assumption. reflexivity.
  - rewrite (chop_checked_pos n Hn), chop_nil by assumption. reflexivity.
Qed.

Lemma length_lstrip s : (length (lstrip s) <= length s)%nat.
Proof.
  induction s as [|b s IH]; [reflexivity|]. cbn [lstrip].
  destruct (is_space b); cbn [length]; lia.
Qed.

Lemma length_strip s : (length (strip s) <= length s)%nat.
Proof.
  unfold strip. rewrite length_rev.
  pose proof (length_lstrip (rev (lstrip s))) as H1.
  pose proof (length_lstrip s) as H2. rewrite length_rev in H1. lia.
Qed.

Lemma checkNMEAChecksum_short line :
  (length line < 3)%nat -> checkNMEAChecksum line = Raise IndexError.
Proof.
  intros H. unfold checkNMEAChecksum. cbv zeta.
  set (r := if startswith (b_ "$") (strip line) then skipn 1 (strip line)
            else strip line).
  assert (Hr : (length r < 3)%nat).
  { pose proof (length_strip line). unfold r.
    destruct (startswith (b_ "$") (strip line)); [rewrite length_skipn|]; lia. }
  unfold index_neg. destruct (Nat.ltb_spec (length r) 3); [reflexivity | lia].
Qed.

End EmptyChunkFacts.

(** An empty chunk - what [getDataChunk] returns when nothing was waiting at
    the port - leaves the result of [parseChunks] as it is without it,
    wherever it stands among the chunks. *)
Theorem parseChunks_skips_empty (n : nat) (cs1 cs2 : list bytes) :
  (0 < n)%nat -> parseChunks (cs1 ++ [] :: cs2) n = parseChunks (cs1 ++ cs2) n.
Proof.
  intros Hn. unfold parseChunks. rewrite !parseChunks_loop_app.
  destruct (parseChunks_loop n [] cs1) as [acc|e]; [|reflexivity].
  cbn [rbind parseChunks_loop]. rewrite parseChunks_step_empty by assumption.
  reflexivity.
Qed.

Lemma parseChunks_skips_empty_witness :
  parseChunks ([repeat 7 30] ++ [] :: [repeat 7 10]) 20
  = Ok [repeat 7 20; repeat 7 20].
Proof.
  rewrite (parseChunks_skips_empty 20 [repeat 7 30] [repeat 7 10]) by lia.
  reflexivity.
Defined.

(** A response line of fewer than three bytes - above all the empty line
    that [readline] returns when the device does not answer in time - makes
    [getResponse] with the checksum check end with [IndexError], not with one
    of the exceptions of the program; the line is consumed and nothing is
    written. *)
Theorem getResponse_short_line (p : Port) (line : bytes) (lines : list bytes)
    (expectedResponse : option bytes) :
  rx_lines p = line :: lines -> (length line < 3)%nat ->
  getResponse true expectedResponse p
  = (Raise IndexError,
     mkPort lines (rx_bytes p) (clock p) (ticks p) (tx p) (baudrate p) (breaks p)).
Proof.
  intros Hlines Hlen. unfold getResponse, bind, readline. rewrite Hlines.
  unfold lift. rewrite (checkNMEAChecksum_short line Hlen). reflexivity.
Qed.

Lemma getResponse_short_line_witness :
  fst (getResponse true (Some (b_ "$POEM200,12")) (scripted_port [[]] [] 50))
  = Raise IndexError.
Proof.
  rewrite (getResponse_short_line (scripted_port [[]] [] 50) [] []
             (Some (b_ "$POEM200,12")) eq_refl); [reflexivity|].
  cbn [length]. lia.
Defined.

(** A record of fewer than 16 bytes - such as the short last record that
    [parseChunks] passes on - is refused by [Poi.fromBin] with
    [struct.error]. *)
Theorem Poi_fromBin_short (astimezone : DateTime -> DateTime) (line : bytes) :
  (length line < 16)%nat -> Poi.fromBin astimezone line = Raise StructError.
Proof.
  intros H. unfold Poi.fromBin, unpack_signed, unpack_unsigned.
  rewrite length_slice.
  destruct (Nat.eqb_spec (Nat.min (16 - 8) (length line - 8)) (2 * 4)) as [E|_];
    [lia | reflexivity].
Qed.

Lemma Poi_fromBin_short_witness :
  Poi.fromBin (fun t => t) [115; 2; 2; 12; 30; 0; 1; 160; 0; 0; 0; 0; 0; 0; 0]
  = Raise StructError.
Proof. apply Poi_fromBin_short. cbn [length]. lia. Defined.

(** ** The receive path *)

Section ReceiveFacts.

Lemma port_after_id p : port_after p 0 [] (rx_bytes p) = p.
Proof.
  destruct p. unfold port_after. cbn. rewrite Nat.add_0_r, app_nil_r. reflexivity.
Qed.

Lemma on_port_write c s :
  on_port (sendRawCommand c) s
  = (Ok tt, mkLink (port_after (port s) 0 [c] (rx_bytes (port s))) (waiting s)).
Proof. unfold on_port, sendRawCommand. rewrite write_after. reflexivity. Qed.

(** The loop over chunks that are accepted, up to the read that begins with
    the end-of-transmission byte. *)
Lemma getData_loop_ok reads chunks :
  received reads chunks ->
  forall fuel acc s eot rest,
    waiting s = reads ++ (4 :: eot) :: rest -> (length reads < fuel)%nat ->
    getData_loop fuel acc s
    = (Ok (acc ++ chunks),
       mkLink (port_after (port s) 0 (repeat [6] (length chunks)) (rx_bytes (port s)))
         rest).
Proof.
  induction 1 as [|resp chunk reads chunks Hresp _ IH];
    intros fuel acc s eot rest Hw Hfuel;
    (destruct fuel as [|fuel]; [cbn [length] in Hfuel; lia|]);
    cbn [getData_loop]; unfold getDataChunk, bind, readWaiting;
    cbn [app] in Hw; rewrite Hw; unfold lift.
  - cbn [getDataChunk_resp Z.eqb Pos.eqb length repeat port waiting].
    rewrite port_after_id, app_nil_r. reflexivity.
  - rewrite Hresp. rewrite on_port_write. cbn [port waiting].
    rewrite (IH fuel (acc ++ [chunk]) _ eot rest); cbn [port waiting];
      [|reflexivity | cbn [length] in Hfuel; lia].
    cbn [port_after rx_bytes]. rewrite port_after_after, <- app_assoc.
    reflexivity.
Qed.

(** The loop up to a read that [getDataChunk] refuses. *)
Lemma getData_loop_fail reads chunks :
  received reads chunks ->
  forall fuel acc s bad rest e,
    waiting s = reads ++ bad :: rest -> (length reads < fuel)%nat ->
    getDataChunk_resp bad = Raise e -> e <> EndOfTransmission ->
    getData_loop fuel acc s
    = (Raise e,
       mkLink (port_after (port s) 0 (repeat [6] (length chunks)) (rx_bytes (port s)))
         rest).
Proof.
  induction 1 as [|resp chunk reads chunks Hresp _ IH];
    intros fuel acc s bad rest e Hw Hfuel Hbad He;
    (destruct fuel as [|fuel]; [cbn [length] in Hfuel; lia|]);
    cbn [getData_loop]; unfold getDataChunk, bind, readWaiting;
    cbn [app] in Hw; rewrite Hw; unfold lift.
  - rewrite Hbad. cbn [length repeat port waiting]. rewrite port_after_id.
    destruct e; congruence.
  - rewrite Hresp. rewrite on_port_write. cbn [port waiting].
    rewrite (IH fuel (acc ++ [chunk]) _ bad rest e); cbn [port waiting];
      [|reflexivity | cbn [length] in Hfuel; lia | assumption | assumption].
    cbn [port_after rx_bytes]. rewrite port_after_after. reflexivity.
Qed.

(** [getData] up to its loop: the command, the response, the baud rate and
    the continue message. *)
Lemma getData_prelude message s resp lines :
  rx_lines (port s) = resp :: lines ->
  checkNMEAChecksum resp = Ok tt ->
  startswith (b_ "$POEM200,12") resp = true ->
  forall A (k : M Link A),
    (on_port (sendCommand message) ;;
     on_port (getResponse true (Some (b_ "$POEM200,12"))) ;;
     on_port (setBaudrate 115200) ;;
     on_port (sendRawCommand (b_ "C")) ;; k) s
    = k (mkLink
           (mkPort lines (rx_bytes (port s)) (clock (port s)) (ticks (port s))
              (tx (port s)
               ++ [message ++ b_ "*" ++ calcNMEAChecksum message true ++ [13; 10];
                   b_ "C"])
              115200 (S (breaks (port s))))
           (waiting s)).
Proof.
  intros Hlines Hchk Hstart A k.
  unfold bind at 1. unfold on_port at 1, sendCommand, sendRawCommand.
  rewrite write_after. cbn [port waiting].
  unfold bind at 1. unfold on_port at 1. cbn [port waiting].
  rewrite (getResponse_ok true (b_ "$POEM200,12") resp lines);
    [|exact Hlines | intros _; exact Hchk | discriminate | exact Hstart].
  unfold bind at 1. unfold on_port at 1, setBaudrate. cbn [port waiting].
  unfold bind at 1. unfold on_port at 1, sendRawCommand, write. cbn [port waiting].
  cbn [port_after rx_lines rx_bytes clock ticks tx baudrate breaks].
  rewrite Nat.add_0_r, <- app_assoc. reflexivity.
Qed.

End ReceiveFacts.

(** A download that goes well.  After the response to the command,
    [getData] switches to 115200 baud and writes the continue message; it
    then takes one chunk from every read that [getDataChunk] accepts - an
    empty read gives an empty chunk - and answers each one with an
    acknowledge byte; the read that begins with the end-of-transmission byte
    ends the loop without an acknowledge.  The chunks are returned in the
    order of their arrival and the baud rate is back at 9600. *)
Theorem getData_trace (s : Link) (message resp : bytes) (lines : list bytes)
    (reads chunks : list bytes) (eot : bytes) (rest : list bytes) :
  rx_lines (port s) = resp :: lines ->
  checkNMEAChecksum resp = Ok tt ->
  startswith (b_ "$POEM200,12") resp = true ->
  waiting s = reads ++ (4 :: eot) :: rest ->
  received reads chunks ->
  exists s',
    getData message s = (Ok chunks, s')
    /\ tx (port s')
       = tx (port s)
         ++ [message ++ b_ "*" ++ calcNMEAChecksum message true ++ [13; 10]; b_ "C"]
         ++ repeat [6] (length chunks)
    /\ baudrate (port s') = 9600
    /\ waiting s' = rest
    /\ rx_lines (port s') = lines.
Proof.
  intros Hlines Hchk Hstart Hw Hrec. unfold getData.
  rewrite (getData_prelude message s resp lines Hlines Hchk Hstart).
  unfold bind at 1. cbn [waiting].
  rewrite (getData_loop_ok reads chunks Hrec _ [] _ eot rest);
    [|exact Hw | rewrite Hw, length_app; cbn [length]; lia].
  unfold bind at 1. unfold on_port at 1, setBaudrate. cbn [port waiting].
  unfold ret. eexists. split; [reflexivity|].
  cbn [port waiting port_after tx baudrate rx_lines app].
  rewrite <- app_assoc. repeat split.
Qed.

Lemma getData_trace_witness :
  exists s',
    getData (b_ "$POEM12,2")
      (mkLink (scripted_port [b_ "$POEM200,12*0A"] [] 50)
         [[2; 1; 254] ++ [7; 8; 9] ++ calcCrcChecksum [7; 8; 9]; []; [4]])
    = (Ok [[7; 8; 9]; []], s')
    /\ baudrate (port s') = 9600.
Proof.
  destruct (getData_trace
              (mkLink (scripted_port [b_ "$POEM200,12*0A"] [] 50)
                 [[2; 1; 254] ++ [7; 8; 9] ++ calcCrcChecksum [7; 8; 9]; []; [4]])
              (b_ "$POEM12,2") (b_ "$POEM200,12*0A") []
              [[2; 1; 254] ++ [7; 8; 9] ++ calcCrcChecksum [7; 8; 9]; []]
              [[7; 8; 9]; []] [] [])
    as (s' & H1 & _ & H2 & _).
  - reflexivity.
  - vm_compute. reflexivity.
  - vm_compute. reflexivity.
  - reflexivity.
  - constructor; [vm_compute; reflexivity|].
    constructor; [reflexivity | constructor].
  - exists s'. split; [exact H1 | exact H2].
Defined.

(** A download that fails.  When [getDataChunk] refuses a read - a chunk
    with a wrong CRC, or one that begins with neither 0x02 nor 0x04 - the
    exception leaves [getData]: the chunks received before it are lost, the
    refused read is not acknowledged, and the baud rate stays at 115200. *)
Theorem getData_refused_chunk (s : Link) (message resp : bytes) (lines : list bytes)
    (reads chunks : list bytes) (bad : bytes) (rest : list bytes) (e : exn) :
  rx_lines (port s) = resp :: lines ->
  checkNMEAChecksum resp = Ok tt ->
  startswith (b_ "$POEM200,12") resp = true ->
  waiting s = reads ++ bad :: rest ->
  received reads chunks ->
  getDataChunk_resp bad = Raise e -> e <> EndOfTransmission ->
  exists s',
    getData message s = (Raise e, s')
    /\ tx (port s')
       = tx (port s)
         ++ [message ++ b_ "*" ++ calcNMEAChecksum message true ++ [13; 10]; b_ "C"]
         ++ repeat [6] (length chunks)
    /\ baudrate (port s') = 115200
    /\ waiting s' = rest.
Proof.
  intros Hlines Hchk Hstart Hw Hrec Hbad He. unfold getData.
  rewrite (getData_prelude message s resp lines Hlines Hchk Hstart).
  unfold bind at 1. cbn [waiting].
  rewrite (getData_loop_fail reads chunks Hrec _ [] _ bad rest e);
    [|exact Hw | rewrite Hw, length_app; cbn [length]; lia | exact Hbad | exact He].
  eexists. split; [reflexivity|].
  cbn [port waiting port_after tx baudrate rx_lines app].
  rewrite <- app_assoc. repeat split.
Qed.

Lemma getData_refused_chunk_witness :
  exists s',
    getData (b_ "$POEM12,2")
      (mkLink (scripted_port [b_ "$POEM200,12*0A"] [] 50)
         [[2; 1; 254] ++ [7; 8; 9] ++ calcCrcChecksum [7; 8; 9];
          [2; 2; 253] ++ [7; 8; 9] ++ [0; 0]; [4]])
    = (Raise BadChecksum, s')
    /\ baudrate (port s') = 115200.
Proof.
  destruct (getData_refused_chunk
              (mkLink (scripted_port [b_ "$POEM200,12*0A"] [] 50)
                 [[2; 1; 254] ++ [7; 8; 9] ++ calcCrcChecksum [7; 8; 9];
                  [2; 2; 253] ++ [7; 8; 9] ++ [0; 0]; [4]])
              (b_ "$POEM12,2") (b_ "$POEM200,12*0A") []
              [[2; 1; 254] ++ [7; 8; 9] ++ calcCrcChecksum [7; 8; 9]]
              [[7; 8; 9]] ([2; 2; 253] ++ [7; 8; 9] ++ [0; 0]) [[4]] BadChecksum)
    as (s' & H1 & _ & H2 & _).
  - reflexivity.
  - vm_compute. reflexivity.
  - vm_compute. reflexivity.
  - reflexivity.
  - constructor; [vm_compute; reflexivity | constructor].
  - vm_compute. reflexivity.
  - discriminate.
  - exists s'. split; [exact H1 | exact H2].
Defined.

(** ** Route: the layout of the encoded bytes *)

Section RouteLayoutFacts.

(** [parseBin] reads the number of points and the first two offsets; the
    third offset and what follows the character table are not used. *)
Lemma parseBin_image n o1 o2 o3 csv PD CT BM bins ct pts :
  0 <= n < 65536 ->
  o1 = Z.of_nat (20 + length PD) ->
  o2 = Z.of_nat (20 + length PD + length CT) ->
  o2 < 2 ^ 32 -> 0 <= o3 < 2 ^ 32 ->
  Route.header_checksum (route_header n o1 o2 o3) = Ok (le_bytes 2 csv) ->
  PD = concat bins -> Forall (fun r => length r = 76%nat) bins ->
  length bins = Z.to_nat n ->
  Route.makeInCharTable CT = Ok ct ->
  mapM (fun data => RoutePoint.fromBin data ct) bins = Ok pts ->
  Route.parseBin (route_image n o1 o2 o3 csv PD CT BM)
  = Ok (Route.mk (route_image n o1 o2 o3 csv PD CT BM) pts ct 1 n o1 o2 o3).
Proof.
  intros Hn Ho1 Ho2 Hr2 Hr3 Hcs HPD Hbins Hlen HCT Hpts.
  set (pre := route_header n o1 o2 o3) in *.
  set (raw := route_image n o1 o2 o3 csv PD CT BM).
  assert (Hh : firstn 20 raw = pre ++ le_bytes 2 csv) by reflexivity.
  assert (F4 : firstn 4 (pre ++ le_bytes 2 csv) = le_bytes 2 1 ++ le_bytes 2 n)
    by reflexivity.
  assert (S4 : slice 4 16 (pre ++ le_bytes 2 csv)
               = le_bytes 4 o1 ++ le_bytes 4 o2 ++ le_bytes 4 o3) by reflexivity.
  assert (F18 : firstn 18 (pre ++ le_bytes 2 csv) = pre) by reflexivity.
  assert (S18 : slice 18 20 (pre ++ le_bytes 2 csv) = le_bytes 2 csv) by reflexivity.
  assert (Hhl : length (pre ++ le_bytes 2 csv) = 20%nat) by reflexivity.
  assert (HPDl : length PD = (length bins * 76)%nat)
    by (rewrite HPD; apply length_pieces; exact Hbins).
  unfold Route.parseBin. rewrite Hh, F4, S4, F18, S18.
  rewrite unpack_two_shorts by lia. cbn [rbind].
  rewrite unpack_three_ints by lia. cbn [rbind].
  rewrite Hcs. cbn [rbind].
  rewrite bool_decide_eq_true_2 by reflexivity. cbn [negb nth].
  assert (P1 : slice 20 (Z.to_nat o1) raw = PD).
  { unfold raw, route_image. fold pre. rewrite Ho1, Nat2Z.id.
    apply slice_app_mid; [exact Hhl | lia]. }
  assert (P2 : slice (Z.to_nat o1) (Z.to_nat o2) raw = CT).
  { unfold raw, route_image. fold pre. rewrite Ho1, Ho2, !Nat2Z.id.
    rewrite (app_assoc (pre ++ le_bytes 2 csv)).
    apply slice_app_mid; [rewrite length_app, Hhl; reflexivity | lia]. }
  rewrite P1, P2, HCT. cbn [rbind].
  replace (map (fun k => slice (k * 76) (k * 76 + 76) PD) (seq 0 (Z.to_nat n)))
    with bins.
  - rewrite Hpts. reflexivity.
  - rewrite <- (chop_pieces 76 bins) at 1 by (lia || assumption).
    unfold chop. rewrite <- HPD, HPDl, range_len_mul, Hlen by lia. reflexivity.
Qed.

Lemma length_charTableBin ct : length (charTableBin ct) = (2 * length ct)%nat.
Proof.
  unfold charTableBin. rewrite (length_pieces 2), length_map; [lia|].
  apply Forall_map, Forall_true. intros s. apply length_le_bytes.
Qed.

(** The bytes that [toBin] makes of an encodable route. *)
Lemma Route_toBin_image pts :
  Forall encodable pts -> Z.of_nat (length pts) < 65536 ->
  exists bins glyphs csv,
    Route.toBin pts
    = Ok (route_image (Z.of_nat (length pts))
            (Z.of_nat (20 + length (concat bins)))
            (Z.of_nat (20 + length (concat bins)
                       + length (charTableBin (Route.outCharTable pts))))
            (Z.of_nat (20 + length (concat bins)
                       + length (charTableBin (Route.outCharTable pts))
                       + length (concat glyphs)))
            csv (concat bins) (charTableBin (Route.outCharTable pts)) (concat glyphs))
    /\ Route.header_checksum
         (route_header (Z.of_nat (length pts))
            (Z.of_nat (20 + length (concat bins)))
            (Z.of_nat (20 + length (concat bins)
                       + length (charTableBin (Route.outCharTable pts))))
            (Z.of_nat (20 + length (concat bins)
                       + length (charTableBin (Route.outCharTable pts))
                       + length (concat glyphs))))
       = Ok (le_bytes 2 csv)
    /\ Forall (fun r => length r = 76%nat) bins
    /\ length bins = length pts
    /\ mapM (fun data => RoutePoint.fromBin data (Route.outCharTable pts)) bins
       = Ok (map decoded pts)
    /\ Route.makeInCharTable (charTableBin (Route.outCharTable pts))
       = Ok (Route.outCharTable pts)
    /\ length (concat glyphs) = (22 * length (Route.outCharTable pts))%nat
    /\ Z.of_nat (length (Route.outCharTable pts)) <= 65536.
Proof.
  intros Hpts Hn.
  destruct (outCharTable_spec pts Hpts) as [Hct Hin].
  pose proof (char_table_length _ Hct) as Hctl.
  pose proof (proj2 (proj2 Hct)) as Hall.
  destruct (charBitmaps_ok _ Hall) as (glyphs & G1 & G2).
  destruct (points_roundtrip _ pts Hct Hin Hpts) as (bins & B1 & B2 & B3 & B4).
  pose proof (charTableBin_ok _ Hall) as T1.
  pose proof (length_pieces 76 bins B2) as L1.
  pose proof (length_charTableBin (Route.outCharTable pts)) as L2.
  exists bins, glyphs.
  unfold Route.toBin, Route.makeOutCharTable.
  rewrite G1. cbn [rbind fst snd]. rewrite B1. cbn [rbind]. rewrite T1. cbn [rbind].
  fold (charTableBin (Route.outCharTable pts)).
  rewrite !pack_unsigned_ok
    by (change (256 ^ Z.of_nat 4) with 4294967296;
        change (256 ^ Z.of_nat 2) with 65536; lia).
  cbn [rbind].
  match goal with
  | |- context [Route.header_checksum ?x] =>
      destruct (header_checksum_bytes x) as [Hcs _]
  end.
  { repeat (apply Forall_app; split; [apply le_bytes_range|]).
    repeat (constructor; [unfold is_byte; lia|]). constructor. }
  { reflexivity. }
  rewrite Hcs. cbn [rbind].
  eexists. split; [reflexivity|]. split; [exact Hcs|].
  split; [exact B2|]. split; [exact B3|]. split; [exact B4|].
  split; [apply makeInCharTable_ok; exact Hall|]. split; [exact G2 | exact Hctl].
Qed.

End RouteLayoutFacts.

(** The header that [toBin] writes describes the bytes behind it: for a
    route of [n] encodable points whose names use [k - 1] different
    characters, the number of points is [n], the character table begins at
    [20 + 76 n], the glyphs begin [2 k] bytes later, and the end offset,
    [22 k] bytes later again, is the length of the whole. *)
Theorem Route_layout (pts : list RoutePoint.t) :
  Forall encodable pts -> Z.of_nat (length pts) < 65536 ->
  exists raw r,
    Route.toBin pts = Ok raw
    /\ Route.fromBin raw = Ok r
    /\ Route.headerStart r = 1
    /\ Route.numOfPoints r = Z.of_nat (length pts)
    /\ Route.charTableOffset r = 20 + 76 * Z.of_nat (length pts)
    /\ Route.charBitmapsDataOffset r
       = Route.charTableOffset r + 2 * Z.of_nat (length (Route.outCharTable pts))
    /\ Route.eofOffset r
       = Route.charBitmapsDataOffset r + 22 * Z.of_nat (length (Route.outCharTable pts))
    /\ Route.eofOffset r = Z.of_nat (length raw).
Proof.
  intros Hpts Hn.
  destruct (Route_toBin_image pts Hpts Hn)
    as (bins & glyphs & csv & E & Hcs & B2 & B3 & B4 & HCT & G2 & Hctl).
  pose proof (length_pieces 76 bins B2) as L1.
  pose proof (length_charTableBin (Route.outCharTable pts)) as L2.
  eexists. eexists. split; [exact E|]. split.
  - unfold Route.fromBin.
    apply (parseBin_image _ _ _ _ _ _ _ _ bins (Route.outCharTable pts) (map decoded pts));
      try reflexivity; try assumption.
    + lia.
    + change (2 ^ 32) with 4294967296. lia.
    + change (2 ^ 32) with 4294967296. lia.
    + rewrite Nat2Z.id. exact B3.
  - cbn [Route.headerStart Route.numOfPoints Route.charTableOffset
         Route.charBitmapsDataOffset Route.eofOffset].
    split; [reflexivity|]. split; [reflexivity|]. split; [lia|]. split; [lia|].
    split; [lia|]. unfold route_image. rewrite !length_app.
    change (length (route_header _ _ _ _)) with 18%nat.
    rewrite length_le_bytes. lia.
Qed.

Lemma Route_layout_witness :
  exists raw r,
    Route.toBin [RoutePoint.fromGpxValues 869000 4941000 [72; 105] "left"] = Ok raw
    /\ Route.fromBin raw = Ok r
    /\ Route.charTableOffset r = 96
    /\ Route.eofOffset r = Z.of_nat (length raw).
Proof.
  destruct (Route_layout [RoutePoint.fromGpxValues 869000 4941000 [72; 105] "left"])
    as (raw & r & H1 & H2 & _ & _ & H3 & _ & _ & H4).
  - constructor; [|constructor]. unfold encodable. cbn.
    split; [lia|]. split.
    + constructor; [split; [lia | reflexivity]|].
      constructor; [split; [lia | reflexivity]|]. constructor.
    + split; [lia|]. split; eexists; (split; [reflexivity | lia]).
  - cbn [length]. lia.
  - exists raw, r. split; [exact H1|]. split; [exact H2|].
    split; [rewrite H3; reflexivity | exact H4].
Defined.

(** Bytes behind the encoded route - the 0xff bytes that fill the last chunk
    of a transfer - do not disturb the decoder: the same points come back,
    and the end offset of the header still tells where the route ends. *)
Theorem Route_fromBin_trailing (pts : list RoutePoint.t) (tail : bytes) :
  Forall encodable pts -> Z.of_nat (length pts) < 65536 ->
  exists raw r,
    Route.toBin pts = Ok raw
    /\ Route.fromBin (raw ++ tail) = Ok r
    /\ Route.points r = map decoded pts
    /\ Route.chartable r = Route.outCharTable pts
    /\ Route.binData r = raw ++ tail
    /\ Route.eofOffset r = Z.of_nat (length raw).
Proof.
  intros Hpts Hn.
  destruct (Route_toBin_image pts Hpts Hn)
    as (bins & glyphs & csv & E & Hcs & B2 & B3 & B4 & HCT & G2 & Hctl).
  pose proof (length_pieces 76 bins B2) as L1.
  pose proof (length_charTableBin (Route.outCharTable pts)) as L2.
  eexists. eexists. split; [exact E|].
  match goal with
  | |- Route.fromBin (route_image ?n ?o1 ?o2 ?o3 ?c ?PD ?CT ?BM ++ tail) = _ /\ _ =>
      assert (Eimg : route_image n o1 o2 o3 c PD CT BM ++ tail
                     = route_image n o1 o2 o3 c PD CT (BM ++ tail))
        by (unfold route_image; rewrite <- !app_assoc; reflexivity)
  end.
  rewrite Eimg. split.
  - unfold Route.fromBin.
    apply (parseBin_image _ _ _ _ _ _ _ _ bins (Route.outCharTable pts) (map decoded pts));
      try reflexivity; try assumption.
    + lia.
    + change (2 ^ 32) with 4294967296. lia.
    + change (2 ^ 32) with 4294967296. lia.
    + rewrite Nat2Z.id. exact B3.
  - cbn [Route.points Route.chartable Route.binData Route.eofOffset].
    split; [reflexivity|]. split; [reflexivity|]. split; [reflexivity|].
    unfold route_image. rewrite !length_app.
    change (length (route_header _ _ _ _)) with 18%nat.
    rewrite length_le_bytes. lia.
Qed.

Lemma Route_fromBin_trailing_witness :
  exists raw r,
    Route.toBin [RoutePoint.fromGpxValues 869000 4941000 [72; 105] "left"] = Ok raw
    /\ Route.fromBin (raw ++ repeat 255 856) = Ok r
    /\ Route.points r = [RoutePoint.mk [72; 105] 4 (MulEm5 4941000) (MulEm5 869000)].
Proof.
  destruct (Route_fromBin_trailing
              [RoutePoint.fromGpxValues 869000 4941000 [72; 105] "left"]
              (repeat 255 856))
    as (raw & r & H1 & H2 & H3 & _).
  - constructor; [|constructor]. unfold encodable. cbn.
    split; [lia|]. split.
    + constructor; [split; [lia | reflexivity]|].
      constructor; [split; [lia | reflexivity]|]. constructor.
    + split; [lia|]. split; eexists; (split; [reflexivity | lia]).
  - cbn [length]. lia.
  - exists raw, r. split; [exact H1|]. split; [exact H2 | exact H3].
Defined.

Section RouteEdgeFacts.

Lemma header_checksum_short pre :
  Forall is_byte pre -> (length pre <= 18)%nat ->
  exists e, Route.header_checksum pre = Ok e /\ length e = 2%nat.
Proof.
  intros Hb Hlen. pose proof (sum_range pre Hb) as Hs.
  unfold Route.header_checksum, pack_signed.
  change (256 ^ Z.of_nat 2) with 65536. change (65536 / 2) with 32768.
  change 65535 with (Z.ones 16). rewrite Z.land_ones by lia.
  change (2 ^ 16) with 65536. rewrite (Z.mod_small (sum pre)) by lia.
  match goal with
  | |- context [(?a <=? ?b)] => destruct (Z.leb_spec a b); [|lia]
  end.
  destruct (Z.ltb_spec (- sum pre) 32768); [|lia].
  eexists. split; [reflexivity | apply length_le_bytes].
Qed.

Lemma add_char_inv ct c :
  NoDup ct ->
  NoDup (Route.add_char ct c)
  /\ (forall s, s ∈ Route.add_char ct c <-> s ∈ ct \/ s = [c])
  /\ (exists t, Route.add_char ct c = ct ++ t).
Proof.
  intros Hnd. unfold Route.add_char.
  destruct (decide ([c] ∈ ct)) as [Hin|Hin].
  - split; [exact Hnd|]. split.
    + intros s. split; [tauto|]. intros [H| ->]; assumption.
    + exists []. symmetry. apply app_nil_r.
  - split.
    + apply NoDup_app. split; [exact Hnd|]. split; [|apply NoDup_singleton].
      intros x Hx Hx'. apply list_elem_of_singleton in Hx'. subst x. contradiction.
    + split; [|exists [[c]]; reflexivity].
      intros s. rewrite elem_of_app, list_elem_of_singleton. tauto.
Qed.

Lemma fold_add_char_inv name :
  forall ct, NoDup ct ->
    NoDup (fold_left Route.add_char name ct)
    /\ (forall s, s ∈ fold_left Route.add_char name ct
                  <-> s ∈ ct \/ exists c, In c name /\ s = [c])
    /\ (exists t, fold_left Route.add_char name ct = ct ++ t).
Proof.
  induction name as [|c name IH]; intros ct Hnd; cbn [fold_left].
  - split; [exact Hnd|]. split.
    + intros s. split; [tauto|]. intros [H|(c & [] & _)]. exact H.
    + exists []. symmetry. apply app_nil_r.
  - destruct (add_char_inv ct c Hnd) as (A1 & A2 & [t At]).
    destruct (IH _ A1) as (I1 & I2 & [t' It]).
    split; [exact I1|]. split.
    + intros s. rewrite I2, A2. split.
      * intros [[H| ->]|(c' & Hc' & ->)].
        -- left. exact H.
        -- right. exists c. split; [left; reflexivity | reflexivity].
        -- right. exists c'. split; [right; exact Hc' | reflexivity].
      * intros [H|(c' & [<-|Hc'] & ->)].
        -- left. left. exact H.
        -- left. right. reflexivity.
        -- right. exists c'. split; [exact Hc' | reflexivity].
    + exists (t ++ t'). rewrite It, At, <- app_assoc. reflexivity.
Qed.

Lemma fold_names_inv pts :
  forall ct, NoDup ct ->
    let r := fold_left (fun ct p => fold_left Route.add_char (RoutePoint.name p) ct)
               pts ct in
    NoDup r
    /\ (forall s, s ∈ r
                  <-> s ∈ ct \/ exists p c, In p pts /\ In c (RoutePoint.name p)
                                           /\ s = [c])
    /\ (exists t, r = ct ++ t).
Proof.
  induction pts as [|p pts IH]; intros ct Hnd; cbn [fold_left].
  - split; [exact Hnd|]. split.
    + intros s. split; [tauto|]. intros [H|(p & c & [] & _)]. exact H.
    + exists []. symmetry. apply app_nil_r.
  - destruct (fold_add_char_inv (RoutePoint.name p) ct Hnd) as (A1 & A2 & [t At]).
    destruct (IH _ A1) as (I1 & I2 & [t' It]).
    split; [exact I1|]. split.
    + intros s. rewrite I2, A2. split.
      * intros [[H|(c & Hc & ->)]|(p' & c & Hp' & Hc & ->)].
        -- left. exact H.
        -- right. exists p, c. split; [left; reflexivity|]. split; [exact Hc | reflexivity].
        -- right. exists p', c. split; [right; exact Hp'|]. split; [exact Hc | reflexivity].
      * intros [H|(p' & c & [<-|Hp'] & Hc & ->)].
        -- left. left. exact H.
        -- left. right. exists c. split; [exact Hc | reflexivity].
        -- right. exists p', c. split; [exact Hp'|]. split; [exact Hc | reflexivity].
    + exists (t ++ t'). rewrite It, At, <- app_assoc. reflexivity.
Qed.



Lemma symbol_code_range sym : 0 <= RoutePoint.symbol_code sym <= 8.
Proof.
  unfold RoutePoint.symbol_code.
  destruct (find (fun kv => String.eqb (snd kv) sym) RoutePoint.symbolDict)
    as [kv|] eqn:E; [|lia].
  apply find_some in E. destruct E as [Hin _].
  unfold RoutePoint.symbolDict in Hin. cbn [In] in Hin.
  repeat (destruct Hin as [<-|Hin]; [cbn [fst]; lia|]). destruct Hin.
Qed.

End RouteEdgeFacts.

(** No input of fewer than 20 bytes is parsed as a route: below 16 bytes the
    header fields cannot be unpacked ([struct.error]), and from 16 to 19
    bytes the header checksum is incomplete ([BadChecksum]). *)
Theorem Route_parseBin_short (binData : bytes) :
  Forall is_byte binData ->
  ((length binData < 16)%nat -> Route.parseBin binData = Raise StructError)
  /\ ((16 <= length binData < 20)%nat -> Route.parseBin binData = Raise BadChecksum).
Proof.
  intros Hb. split; intros Hlen; unfold Route.parseBin.
  - destruct (Nat.lt_ge_cases (length binData) 4) as [H4|H4].
    + unfold unpack_unsigned at 1. rewrite !length_firstn.
      destruct (Nat.eqb_spec (Nat.min 4 (Nat.min 20 (length binData))) (2 * 2))
        as [E4|E4];
        [lia | reflexivity].
    + unfold unpack_unsigned at 1. rewrite !length_firstn.
      destruct (Nat.eqb_spec (Nat.min 4 (Nat.min 20 (length binData))) (2 * 2))
        as [E4|E4];
        [|lia].
      cbn [rbind]. unfold unpack_unsigned at 1.
      rewrite length_slice, length_firstn.
      destruct (Nat.eqb_spec (Nat.min (16 - 4) (Nat.min 20 (length binData) - 4)) (3 * 4))
        as [E12|E12];
        [lia | reflexivity].
  - unfold unpack_unsigned at 1. rewrite !length_firstn.
    destruct (Nat.eqb_spec (Nat.min 4 (Nat.min 20 (length binData))) (2 * 2))
        as [E4|E4]; [|lia].
    cbn [rbind]. unfold unpack_unsigned at 1.
    rewrite length_slice, length_firstn.
    destruct (Nat.eqb_spec (Nat.min (16 - 4) (Nat.min 20 (length binData) - 4)) (3 * 4))
        as [E12|E12];
      [|lia].
    cbn [rbind].
    destruct (header_checksum_short (firstn 18 (firstn 20 binData))) as (e & He & Le).
    + apply Forall_take, Forall_take. exact Hb.
    + rewrite length_firstn. lia.
    + rewrite He. cbn [rbind]. rewrite bool_decide_eq_false_2; [reflexivity|].
      intros E. apply (f_equal (@length Z)) in E.
      rewrite length_slice, length_firstn, Le in E. lia.
Qed.

Lemma Route_parseBin_short_witness :
  Route.parseBin [] = Raise StructError
  /\ Route.parseBin (repeat 0 18) = Raise BadChecksum.
Proof.
  split.
  - apply (Route_parseBin_short []); [constructor | cbn [length]; lia].
  - apply (Route_parseBin_short (repeat 0 18)).
    + apply List.Forall_forall. intros x Hx. apply repeat_spec in Hx. subst x.
      unfold is_byte. lia.
    + rewrite repeat_length. lia.
Defined.

(** The character table of [makeOutCharTable], for any route: it begins with
    the null character, holds no character twice, holds every character of
    every name, and nothing else. *)
Theorem outCharTable_characters (pts : list RoutePoint.t) :
  (exists ct', Route.outCharTable pts = [0] :: ct')
  /\ NoDup (Route.outCharTable pts)
  /\ (forall s, s ∈ Route.outCharTable pts
                <-> s = [0] \/ exists p c, In p pts /\ In c (RoutePoint.name p)
                                          /\ s = [c]).
Proof.
  unfold Route.outCharTable.
  destruct (fold_names_inv pts [[0]] (NoDup_singleton [0])) as (H1 & H2 & [t Ht]).
  split; [exists t; rewrite Ht; reflexivity|]. split; [exact H1|].
  intros s. rewrite H2, list_elem_of_singleton. reflexivity.
Qed.



(** A route point of the import adapter is encodable whenever its scaled
    coordinates fit in 32 bits and its name is made of characters that one
    UTF-16 code unit holds: the adapter cuts the name to 32 characters and
    maps the symbol name to a code from 0 to 8, an unknown one to 0. *)
Theorem fromGpxValues_encodable (lon lat : Z) (name : str) (sym : string) :
  - 2 ^ 31 <= lat < 2 ^ 31 -> - 2 ^ 31 <= lon < 2 ^ 31 -> Forall name_char name ->
  encodable (RoutePoint.fromGpxValues lon lat name sym)
  /\ RoutePoint.name (RoutePoint.fromGpxValues lon lat name sym) = firstn 32 name
  /\ 0 <= RoutePoint.symbol (RoutePoint.fromGpxValues lon lat name sym) <= 8.
Proof.
  intros Hlat Hlon Hname. pose proof (symbol_code_range sym) as Hsym.
  unfold encodable, RoutePoint.fromGpxValues.
  cbn [RoutePoint.name RoutePoint.symbol RoutePoint.lat RoutePoint.lon].
  split; [|split; [reflexivity | exact Hsym]].
  split; [rewrite length_firstn; lia|].
  split; [apply Forall_take; exact Hname|].
  split; [lia|].
  split; eexists; (split; [reflexivity | assumption]).
Qed.

Lemma fromGpxValues_encodable_witness :
  encodable (RoutePoint.fromGpxValues 869000 4941000 (repeat 65 40) "no such symbol")
  /\ RoutePoint.fromGpxValues 869000 4941000 (repeat 65 40) "no such symbol"
     = RoutePoint.mk (repeat 65 32) 0 (Int 4941000) (Int 869000).
Proof.
  destruct (fromGpxValues_encodable 869000 4941000 (repeat 65 40) "no such symbol")
    as (H & _ & _).
  - lia.
  - lia.
  - apply List.Forall_forall. intros x Hx. apply repeat_spec in Hx. subst x.
    split; [lia | reflexivity].
  - split; [exact H | reflexivity].
Defined.

(** ** DeviceConfig: valid snapshots *)

Section ConfigFacts.
Variable lower : string -> string.
Variable int_of_str : string -> option Z.

Lemma bind_Ok_inv {S A B : Type} (m : M S A) (k : A -> M S B) (s s' : S) (b : B) :
  bind m k s = (Ok b, s') -> exists a s1, m s = (Ok a, s1) /\ k a s1 = (Ok b, s').
Proof.
  unfold bind. destruct (m s) as [[a|e] s1]; [|discriminate].
  intros H. exists a, s1. split; [reflexivity | exact H].
Qed.

Lemma on_con_keeps {A : Type} (m : M Port A) : keeps_configs (DeviceConfig.on_con m).
Proof.
  intros self. unfold DeviceConfig.on_con. destruct (m (DeviceConfig.con self)).
  split; reflexivity.
Qed.

Lemma bind_keeps {A B : Type} (m : M DeviceConfig.t A) (k : A -> M DeviceConfig.t B) :
  keeps_configs m -> (forall a, keeps_configs (k a)) -> keeps_configs (bind m k).
Proof.
  intros Hm Hk self. unfold bind. specialize (Hm self).
  destruct (m self) as [[a|e] s1]; cbn [snd] in *; [|exact Hm].
  destruct (Hk a s1) as [K1 K2]. destruct Hm as [K3 K4]. split; congruence.
Qed.

Lemma pure_keeps {A : Type} (r : result A) : keeps_configs (lift r).
Proof. intros self. split; reflexivity. Qed.

(** Sending a snapshot changes neither snapshot. *)
Lemma setDeviceConfig_keeps : keeps_configs DeviceConfig.setDeviceConfig.
Proof.
  intros self. unfold DeviceConfig.setDeviceConfig.
  apply (bind_keeps (lift _) _ (pure_keeps _)). intros message.
  apply bind_keeps; [apply on_con_keeps|]. intros _.
  apply bind_keeps; [apply on_con_keeps|]. intros _. exact (pure_keeps (Ok tt)).
Qed.

Lemma setRecordConfig_keeps : keeps_configs DeviceConfig.setRecordConfig.
Proof.
  intros self. unfold DeviceConfig.setRecordConfig.
  apply (bind_keeps (lift _) _ (pure_keeps _)). intros message.
  apply bind_keeps; [apply on_con_keeps|]. intros _.
  apply bind_keeps; [apply on_con_keeps|]. intros _. exact (pure_keeps (Ok tt)).
Qed.

Lemma sent_keeps (send : bool) self :
  DeviceConfig.deviceConfig
    (snd ((if send then DeviceConfig.setDeviceConfig else ret tt) self))
  = DeviceConfig.deviceConfig self
  /\ DeviceConfig.deviceConfig
       (snd ((if send then DeviceConfig.setRecordConfig else ret tt) self))
     = DeviceConfig.deviceConfig self.
Proof.
  destruct send; [|split; reflexivity]. split.
  - apply setDeviceConfig_keeps.
  - apply setRecordConfig_keeps.
Qed.

Lemma valid_insert key i cfg :
  device_valid cfg ->
  (forall dom, In (key, dom) device_domains -> In i dom) ->
  device_valid (<[key := VInt i]> cfg).
Proof.
  unfold device_valid. intros Hv Hdom. rewrite List.Forall_forall in *.
  intros [k d] Hin. cbn [fst snd].
  destruct (decide (key = k)) as [->|Hne].
  - exists i. rewrite lookup_insert_eq. split; [reflexivity | exact (Hdom d Hin)].
  - rewrite lookup_insert_ne by assumption. exact (Hv (k, d) Hin).
Qed.

Lemma in_keys_In v d :
  DeviceConfig.in_keys v d = true -> exists i, v = VInt i /\ In i (map fst d).
Proof.
  destruct v as [i|x|]; cbn [DeviceConfig.in_keys]; try discriminate.
  intros H. exists i. split; [reflexivity|].
  apply existsb_exists in H as (kv & Hin & E). apply Z.eqb_eq in E. subst i.
  apply in_map. exact Hin.
Qed.

Lemma key_of_In x d k : DeviceConfig.key_of x d = Ok k -> In k (map fst d).
Proof.
  unfold DeviceConfig.key_of.
  destruct (find (fun kv => String.eqb (snd kv) x) d) as [kv|] eqn:E; [|discriminate].
  intros [= <-]. apply find_some in E as [Hin _]. apply in_map. exact Hin.
Qed.

Lemma tz_range_In v :
  DeviceConfig.in_tz_range v = true ->
  exists i, v = VInt i /\ In i (map (fun k => Z.of_nat k - 12) (seq 0 25)).
Proof.
  destruct v as [i|x|]; cbn [DeviceConfig.in_tz_range]; try discriminate.
  intros H. apply andb_true_iff in H as [H1 H2].
  apply Z.leb_le in H1. apply Z.ltb_lt in H2.
  exists i. split; [reflexivity|]. apply in_map_iff.
  exists (Z.to_nat (i + 12)). split; [lia|]. apply in_seq. lia.
Qed.

Ltac domain_of_key :=
  let dom := fresh "dom" in
  let Hin := fresh "Hin" in
  intros dom Hin; unfold device_domains in Hin; cbn [In] in Hin;
  repeat (destruct Hin as [Hin|Hin]; [try discriminate Hin|]);
  try contradiction;
  try (injection Hin as <-).

(** The valid snapshots are closed under the setters on the arguments that
    the option parser hands over - an integer, a string or [None]: when the
    general configuration holds, for every item, an integer that the device
    knows, it still does after any call of a setter with such an argument
    that returns normally, whether or not the snapshot was sent.  (A float
    or a bool that equals a known value passes the membership tests of the
    code as well and is stored as it is; such arguments are outside
    [value].) *)
Theorem setters_keep_valid (s : DeviceConfig.setter) (v : value) (send : bool)
    (self self' : DeviceConfig.t) :
  device_valid (DeviceConfig.deviceConfig self) ->
  DeviceConfig.call lower int_of_str s v send self = (Ok tt, self') ->
  device_valid (DeviceConfig.deviceConfig self').
Proof.
  intros Hv Hcall.
  assert (Hdone : forall (first : M DeviceConfig.t unit) rest,
             (rest = (if send then DeviceConfig.setDeviceConfig else ret tt)
              \/ rest = (if send then DeviceConfig.setRecordConfig else ret tt)) ->
             bind first (fun _ => rest) self = (Ok tt, self') ->
             (forall s1, first self = (Ok tt, s1) ->
                         device_valid (DeviceConfig.deviceConfig s1)) ->
             device_valid (DeviceConfig.deviceConfig self')).
  { intros first rest Hrest Hb Hfirst.
    apply bind_Ok_inv in Hb as (u & s1 & E1 & E2). destruct u.
    specialize (Hfirst s1 E1).
    destruct (sent_keeps send s1) as [K1 K2].
    destruct Hrest as [-> | ->]; rewrite E2 in *; cbn [snd] in *; congruence. }
  destruct s; cbn [DeviceConfig.call] in Hcall.
  - (* set_language *)
    apply (Hdone _ _ (or_introl eq_refl) Hcall). intros s1.
    destruct (DeviceConfig.in_values v DeviceConfig.languageDict); cbn [negb];
      [|discriminate].
    destruct v as [i|x|]; try discriminate.
    unfold bind, lift.
    destruct (DeviceConfig.key_of x DeviceConfig.languageDict) as [k|e] eqn:E;
      [|discriminate].
    unfold DeviceConfig.set_device. intros [= <-]. cbn [DeviceConfig.deviceConfig].
    apply valid_insert; [exact Hv|]. domain_of_key. exact (key_of_In _ _ _ E).
  - (* set_turnRadius *)
    apply (Hdone _ _ (or_introl eq_refl) Hcall). intros s1.
    destruct (DeviceConfig.in_keys v DeviceConfig.turnRadiusDict) eqn:E; cbn [negb];
      [|discriminate].
    apply in_keys_In in E as (i & -> & Hi).
    unfold DeviceConfig.set_device. intros [= <-]. cbn [DeviceConfig.deviceConfig].
    apply valid_insert; [exact Hv|]. domain_of_key. exact Hi.
  - (* set_lightDuration *)
    apply (Hdone _ _ (or_introl eq_refl) Hcall). intros s1.
    destruct (DeviceConfig.in_keys v DeviceConfig.lightDurationDict) eqn:E.
    + apply in_keys_In in E as (i & -> & Hi).
      unfold DeviceConfig.set_device. intros [= <-]. cbn [DeviceConfig.deviceConfig].
      apply valid_insert; [exact Hv|]. domain_of_key. exact Hi.
    + destruct v as [i|x|]; try discriminate.
      destruct (String.eqb (lower x) "off");
        [|destruct (String.eqb (lower x) "on"); [|discriminate]];
        unfold DeviceConfig.set_device; intros [= <-];
        cbn [DeviceConfig.deviceConfig];
        (apply valid_insert; [exact Hv|]); domain_of_key; cbn; tauto.
  - (* set_autoOff *)
    apply (Hdone _ _ (or_introl eq_refl) Hcall). intros s1.
    destruct (DeviceConfig.in_keys v DeviceConfig.autoOffDict) eqn:E; cbn [negb];
      [|discriminate].
    apply in_keys_In in E as (i & -> & Hi).
    unfold DeviceConfig.set_device. intros [= <-]. cbn [DeviceConfig.deviceConfig].
    apply valid_insert; [exact Hv|]. domain_of_key. exact Hi.
  - (* set_homeTz *)
    apply (Hdone _ _ (or_introl eq_refl) Hcall). intros s1.
    destruct (DeviceConfig.in_tz_range v) eqn:E; cbn [negb]; [|discriminate].
    apply tz_range_In in E as (i & -> & Hi). cbn [String.eqb Ascii.eqb Bool.eqb].
    unfold DeviceConfig.set_device. intros [= <-]. cbn [DeviceConfig.deviceConfig].
    apply valid_insert; [exact Hv|]. domain_of_key. exact Hi.
  - (* set_currentTz *)
    apply (Hdone _ _ (or_introl eq_refl) Hcall). intros s1.
    destruct (DeviceConfig.in_tz_range v) eqn:E; cbn [negb]; [|discriminate].
    apply tz_range_In in E as (i & -> & Hi). cbn [String.eqb Ascii.eqb Bool.eqb].
    unfold DeviceConfig.set_device. intros [= <-]. cbn [DeviceConfig.deviceConfig].
    apply valid_insert; [exact Hv|]. domain_of_key. exact Hi.
  - (* set_units *)
    apply (Hdone _ _ (or_introl eq_refl) Hcall). intros s1.
    destruct v as [i|x|]; try discriminate.
    destruct (String.eqb (lower x) "km");
      [|destruct (String.eqb (lower x) "mile"); [|discriminate]];
      unfold DeviceConfig.set_device; intros [= <-];
      cbn [DeviceConfig.deviceConfig];
      (apply valid_insert; [exact Hv|]); domain_of_key; cbn; tauto.
  - (* set_timeInterval *)
    apply (Hdone _ _ (or_intror eq_refl) Hcall). intros s1.
    destruct (DeviceConfig.py_int int_of_str v); [|discriminate].
    unfold DeviceConfig.set_record. intros [= <-]. exact Hv.
  - (* set_distanceInterval *)
    apply (Hdone _ _ (or_intror eq_refl) Hcall). intros s1.
    destruct (DeviceConfig.py_int int_of_str v); [|discriminate].
    unfold DeviceConfig.set_record. intros [= <-]. exact Hv.
  - (* set_speedInterval *)
    apply (Hdone _ _ (or_intror eq_refl) Hcall). intros s1.
    destruct (DeviceConfig.py_int int_of_str v); [|discriminate].
    unfold DeviceConfig.set_record. intros [= <-]. exact Hv.
Qed.

End ConfigFacts.

Section PrintableFacts.
Variable lower : string -> string.
Variable int_of_str : string -> option Z.

Lemma dict_get_key {K V : Type} `{EqDecision K} (k : K) (d : list (K * V)) :
  In k (map fst d) -> exists v, dict_get k d = Ok v.
Proof.
  unfold dict_get. induction d as [|[k0 v0] d IH]; intros Hin; [destruct Hin|].
  cbn [find fst snd]. destruct (decide (k0 = k)) as [->|Hne].
  - rewrite bool_decide_eq_true_2 by reflexivity. exists v0. reflexivity.
  - rewrite bool_decide_eq_false_2 by assumption. apply IH.
    cbn [map fst In] in Hin. destruct Hin as [Hin|Hin]; [contradiction | exact Hin].
Qed.

Lemma existsb_find {A : Type} (f : A -> bool) (l : list A) :
  existsb f l = true -> exists y, find f l = Some y.
Proof.
  induction l as [|a l IH]; [discriminate|]. cbn [existsb find].
  destruct (f a); [intros _; exists a; reflexivity | exact IH].
Qed.

Lemma sample_config_valid : device_valid (DeviceConfig.deviceConfig sample_config).
Proof.
  unfold device_valid, device_domains.
  repeat (apply List.Forall_cons;
          [eexists; split;
           [vm_compute; reflexivity
           | vm_compute; repeat (first [left; reflexivity | right])]|]).
  apply List.Forall_nil.
Qed.

(** A legal argument is accepted, and with [send=False] the port is not
    touched. *)
Lemma legal_nosend (s : DeviceConfig.setter) (v : value) self :
  DeviceConfig.legal lower int_of_str s v = true ->
  exists self1,
    DeviceConfig.call lower int_of_str s v false self = (Ok tt, self1)
    /\ DeviceConfig.con self1 = DeviceConfig.con self.
Proof.
  intros Hlegal.
  destruct s; cbn [DeviceConfig.call];
    destruct v as [i|x|]; cbn [DeviceConfig.legal] in Hlegal; try discriminate.
  - (* set_language *)
    unfold DeviceConfig.set_language.
    assert (E : DeviceConfig.in_values (VStr x) DeviceConfig.languageDict = true)
      by (cbn [DeviceConfig.in_values]; rewrite existsb_values; exact Hlegal).
    rewrite E. cbn [negb]. unfold DeviceConfig.key_of.
    cbn [DeviceConfig.in_values] in E. apply existsb_find in E as [kv Ekv].
    unfold bind, lift. rewrite Ekv. eexists. split; reflexivity.
  - (* set_turnRadius *)
    unfold DeviceConfig.set_turnRadius.
    assert (E : DeviceConfig.in_keys (VInt i) DeviceConfig.turnRadiusDict = true)
      by (cbn [DeviceConfig.in_keys]; rewrite existsb_keys; exact Hlegal).
    rewrite E. eexists. split; reflexivity.
  - (* set_lightDuration, an integer *)
    unfold DeviceConfig.set_lightDuration.
    assert (E : DeviceConfig.in_keys (VInt i) DeviceConfig.lightDurationDict = true)
      by (cbn [DeviceConfig.in_keys]; rewrite existsb_keys; exact Hlegal).
    rewrite E. eexists. split; reflexivity.
  - (* set_lightDuration, a string *)
    unfold DeviceConfig.set_lightDuration. cbn [DeviceConfig.in_keys].
    unfold DeviceConfig.is_one_of in Hlegal. cbn [existsb] in Hlegal.
    rewrite orb_false_r in Hlegal.
    destruct (String.eqb (lower x) "off"); [eexists; split; reflexivity|].
    cbn [orb] in Hlegal. rewrite Hlegal. eexists. split; reflexivity.
  - (* set_autoOff *)
    unfold DeviceConfig.set_autoOff.
    assert (E : DeviceConfig.in_keys (VInt i) DeviceConfig.autoOffDict = true)
      by (cbn [DeviceConfig.in_keys]; rewrite existsb_keys; exact Hlegal).
    rewrite E. eexists. split; reflexivity.
  - (* set_homeTz *)
    unfold DeviceConfig.set_homeTz, DeviceConfig._set_timezone.
    assert (E : DeviceConfig.in_tz_range (VInt i) = true).
    { cbn [DeviceConfig.in_tz_range]. apply andb_true_iff in Hlegal as [H1 H2].
      apply Z.leb_le in H1. apply Z.leb_le in H2.
      apply andb_true_iff. split; [apply Z.leb_le | apply Z.ltb_lt]; lia. }
    rewrite E. eexists. split; reflexivity.
  - (* set_currentTz *)
    unfold DeviceConfig.set_currentTz, DeviceConfig._set_timezone.
    assert (E : DeviceConfig.in_tz_range (VInt i) = true).
    { cbn [DeviceConfig.in_tz_range]. apply andb_true_iff in Hlegal as [H1 H2].
      apply Z.leb_le in H1. apply Z.leb_le in H2.
      apply andb_true_iff. split; [apply Z.leb_le | apply Z.ltb_lt]; lia. }
    rewrite E. eexists. split; reflexivity.
  - (* set_units *)
    unfold DeviceConfig.set_units.
    unfold DeviceConfig.is_one_of in Hlegal. cbn [existsb] in Hlegal.
    rewrite orb_false_r in Hlegal.
    destruct (String.eqb (lower x) "km"); [eexists; split; reflexivity|].
    cbn [orb] in Hlegal. rewrite Hlegal. eexists. split; reflexivity.
  - unfold DeviceConfig.set_timeInterval, DeviceConfig.set_interval.
    eexists. split; reflexivity.
  - unfold DeviceConfig.set_timeInterval, DeviceConfig.set_interval.
    cbn [DeviceConfig.py_int]. destruct (int_of_str x); [|discriminate].
    eexists. split; reflexivity.
  - unfold DeviceConfig.set_distanceInterval, DeviceConfig.set_interval.
    eexists. split; reflexivity.
  - unfold DeviceConfig.set_distanceInterval, DeviceConfig.set_interval.
    cbn [DeviceConfig.py_int]. destruct (int_of_str x); [|discriminate].
    eexists. split; reflexivity.
  - unfold DeviceConfig.set_speedInterval, DeviceConfig.set_interval.
    eexists. split; reflexivity.
  - unfold DeviceConfig.set_speedInterval, DeviceConfig.set_interval.
    cbn [DeviceConfig.py_int]. destruct (int_of_str x); [|discriminate].
    eexists. split; reflexivity.
Qed.

End PrintableFacts.

Lemma setters_keep_valid_witness :
  device_valid
    (DeviceConfig.deviceConfig
       (snd (DeviceConfig.call ascii_lower decimal_int DeviceConfig.Units
               (VStr "Mile") false sample_config))).
Proof.
  apply (setters_keep_valid ascii_lower decimal_int DeviceConfig.Units (VStr "Mile")
           false sample_config).
  - exact sample_config_valid.
  - reflexivity.
Defined.

(** A valid snapshot can be rendered: [printableDeviceConfig] returns, with a
    string for each of the seven items - no [KeyError] from the dicts and no
    [TypeError] from the comparison of the time zones. *)
Theorem printableDeviceConfig_valid (self : DeviceConfig.t) :
  device_valid (DeviceConfig.deviceConfig self) ->
  exists out,
    printableDeviceConfig self = Ok out
    /\ Forall (fun key => exists x, out !! key = Some (VStr x))
         DeviceConfig.deviceConfigItems.
Proof.
  intros Hv. unfold device_valid, device_domains in Hv.
  apply List.Forall_cons_iff in Hv. destruct Hv as [(i1 & E1 & D1) Hv].
  apply List.Forall_cons_iff in Hv. destruct Hv as [(i2 & E2 & D2) Hv].
  apply List.Forall_cons_iff in Hv. destruct Hv as [(i3 & E3 & D3) Hv].
  apply List.Forall_cons_iff in Hv. destruct Hv as [(i4 & E4 & D4) Hv].
  apply List.Forall_cons_iff in Hv. destruct Hv as [(i5 & E5 & D5) Hv].
  apply List.Forall_cons_iff in Hv. destruct Hv as [(i6 & E6 & D6) Hv].
  apply List.Forall_cons_iff in Hv. destruct Hv as [(i7 & E7 & D7) _].
  cbn [fst snd] in *.
  destruct (dict_get_key _ _ D7) as [x7 X7].
  destruct (dict_get_key _ _ D1) as [x1 X1].
  destruct (dict_get_key _ _ D3) as [x3 X3].
  destruct (dict_get_key _ _ D2) as [x2 X2].
  destruct (dict_get_key _ _ D4) as [x4 X4].
  unfold printableDeviceConfig, cfg_item, dict_item, printable_tz. cbv zeta.
  rewrite E7. cbn [rbind]. rewrite X7. cbn [rbind].
  rewrite !lookup_insert_ne by discriminate. rewrite E1. cbn [rbind].
  rewrite X1. cbn [rbind].
  rewrite !lookup_insert_ne by discriminate. rewrite E3. cbn [rbind].
  rewrite X3. cbn [rbind].
  rewrite !lookup_insert_ne by discriminate. rewrite E2. cbn [rbind].
  rewrite X2. cbn [rbind].
  rewrite !lookup_insert_ne by discriminate. rewrite E4. cbn [rbind].
  rewrite X4. cbn [rbind].
  rewrite !lookup_insert_ne by discriminate. rewrite E5. cbn [rbind].
  rewrite !lookup_insert_ne by discriminate. rewrite E6. cbn [rbind].
  eexists. split; [reflexivity|].
  unfold DeviceConfig.deviceConfigItems.
  repeat (apply List.Forall_cons;
          [eexists;
           repeat first [rewrite lookup_insert_eq
                        | rewrite lookup_insert_ne by discriminate];
           reflexivity|]).
  apply List.Forall_nil.
Qed.

Lemma printableDeviceConfig_valid_witness :
  exists out,
    printableDeviceConfig sample_config = Ok out
    /\ Forall (fun key => exists x, out !! key = Some (VStr x))
         DeviceConfig.deviceConfigItems.
Proof. exact (printableDeviceConfig_valid sample_config sample_config_valid). Defined.

(** In a loop of [setConfig] a rejected option stops everything before
    anything is sent: when one of the given values is not legal for its
    setter (the arguments being of the documented kind), the loop ends with
    [UnsupportedValue] and the port is as it was before the loop - nothing
    was written and nothing was read - although the legal options before the
    rejected one have changed the snapshot in memory. *)
Theorem setConfig_loop_rejects (lower : string -> string)
    (int_of_str : string -> option Z)
    (items : list (DeviceConfig.setter * value)) (self : DeviceConfig.t) :
  Forall (fun sv => DeviceConfig.well_typed (fst sv) (snd sv)) items ->
  Exists (fun sv => DeviceConfig.legal lower int_of_str (fst sv) (snd sv) = false) items ->
  fst (setConfig_loop lower int_of_str items self) = Raise UnsupportedValue
  /\ DeviceConfig.con (snd (setConfig_loop lower int_of_str items self))
     = DeviceConfig.con self.
Proof.
  intros Htyped. revert self.
  induction Htyped as [|[s v] items Hsv _ IH]; intros self Hex; [inversion Hex|].
  cbn [fst snd] in Hsv.
  destruct (DeviceConfig.legal lower int_of_str s v) eqn:Hl.
  - assert (Hrest : Exists
                      (fun sv => DeviceConfig.legal lower int_of_str (fst sv) (snd sv)
                                 = false) items).
    { inversion Hex as [? ? H|? ? H]; subst; [cbn [fst snd] in H; congruence | exact H]. }
    destruct (legal_nosend lower int_of_str s v self Hl) as (self1 & E1 & C1).
    destruct items as [|sv' items']; [inversion Hrest|].
    change (setConfig_loop lower int_of_str ((s, v) :: sv' :: items') self)
      with (bind (DeviceConfig.call lower int_of_str s v false)
              (fun _ => setConfig_loop lower int_of_str (sv' :: items')) self).
    unfold bind. rewrite E1.
    destruct (IH self1 Hrest) as [I1 I2]. split; [exact I1 | congruence].
  - destruct items as [|sv' items'].
    + cbn [setConfig_loop].
      rewrite (setters_reject_illegal lower int_of_str s v true self Hl Hsv).
      split; reflexivity.
    + change (setConfig_loop lower int_of_str ((s, v) :: sv' :: items') self)
        with (bind (DeviceConfig.call lower int_of_str s v false)
                (fun _ => setConfig_loop lower int_of_str (sv' :: items')) self).
      unfold bind.
      rewrite (setters_reject_illegal lower int_of_str s v false self Hl Hsv).
      split; reflexivity.
Qed.

Lemma setConfig_loop_rejects_witness :
  fst (setConfig_loop ascii_lower decimal_int
         [(DeviceConfig.AutoOff, VInt 30); (DeviceConfig.TurnRadius, VInt 7);
          (DeviceConfig.Units, VStr "km")] sample_config)
  = Raise UnsupportedValue
  /\ DeviceConfig.con
       (snd (setConfig_loop ascii_lower decimal_int
               [(DeviceConfig.AutoOff, VInt 30); (DeviceConfig.TurnRadius, VInt 7);
                (DeviceConfig.Units, VStr "km")] sample_config))
     = DeviceConfig.con sample_config.
Proof.
  apply (setConfig_loop_rejects ascii_lower decimal_int).
  - repeat (apply List.Forall_cons;
            [intros H; try discriminate H; eexists; reflexivity|]).
    apply List.Forall_nil.
  - apply Exists_cons_tl. apply Exists_cons_hd. reflexivity.
Defined.

(** ** Transfers *)

Section TransferFacts.

(** [sendData] up to the framing of the data. *)
Lemma sendData_prelude initMessage data checkChecksum p resp lines :
  rx_lines p = resp :: lines ->
  (checkChecksum = true -> checkNMEAChecksum resp = Ok tt) ->
  startswith (b_ "$POEM200,12") resp = true ->
  forall e, makeChunks data = Raise e ->
    sendData initMessage data checkChecksum p
    = (Raise e,
       mkPort lines (rx_bytes p) (clock p) (ticks p)
         (tx p ++ [initMessage ++ b_ "*" ++ calcNMEAChecksum initMessage true ++ [13; 10]])
         115200 (S (breaks p))).
Proof.
  intros Hlines Hchk Hstart e He.
  unfold sendData, sendCommand, sendRawCommand.
  unfold bind at 1. rewrite write_after.
  unfold bind at 1.
  rewrite (getResponse_ok checkChecksum (b_ "$POEM200,12") resp lines);
    [|assumption|assumption|discriminate|assumption].
  unfold bind at 1. unfold setBaudrate at 1.
  unfold bind at 1. unfold lift at 1. rewrite He.
  cbn [port_after rx_lines rx_bytes clock ticks tx baudrate breaks].
  rewrite Nat.add_0_r. reflexivity.
Qed.

Lemma Pois_toBin_nil : Pois.toBin [] = Ok [].
Proof. reflexivity. Qed.

End TransferFacts.

(** Data that cannot be framed - none at all, or more than 255 chunks - is
    found out after the transfer was announced: [sendData] has sent the
    command, read the response and switched to 115200 baud when [makeChunks]
    raises, and the exception leaves the port at 115200 baud with no chunk
    written and no acknowledge byte read.  So does [sendPois] when the file
    holds no point of interest. *)
Theorem sendData_unframeable (p : Port) (initMessage data : bytes)
    (checkChecksum : bool) (resp : bytes) (lines : list bytes) (e : exn) :
  rx_lines p = resp :: lines ->
  (checkChecksum = true -> checkNMEAChecksum resp = Ok tt) ->
  startswith (b_ "$POEM200,12") resp = true ->
  makeChunks data = Raise e ->
  (exists p',
      sendData initMessage data checkChecksum p = (Raise e, p')
      /\ baudrate p' = 115200
      /\ tx p' = tx p ++ [initMessage ++ b_ "*" ++ calcNMEAChecksum initMessage true
                                     ++ [13; 10]]
      /\ rx_bytes p' = rx_bytes p)
  /\ (exists p', sendPois [] p = (Raise IndexError, p') /\ baudrate p' = 115200).
Proof.
  intros Hlines Hchk Hstart He. split.
  - eexists. split; [apply (sendData_prelude _ _ _ _ resp lines); assumption|].
    repeat split.
  - eexists. unfold sendPois, bind, lift. rewrite Pois_toBin_nil. split.
    + apply (sendData_prelude _ _ _ _ resp lines);
        [assumption | discriminate | assumption | exact makeChunks_nil].
    + reflexivity.
Qed.

Lemma sendData_unframeable_witness :
  exists p',
    sendData (b_ "$POEM12,4") [] false (scripted_port [b_ "$POEM200,12,004*00"] [] 50)
    = (Raise IndexError, p')
    /\ baudrate p' = 115200.
Proof.
  destruct (sendData_unframeable (scripted_port [b_ "$POEM200,12,004*00"] [] 50)
              (b_ "$POEM12,4") [] false (b_ "$POEM200,12,004*00") [] IndexError)
    as [(p' & H1 & H2 & _) _].
  - reflexivity.
  - discriminate.
  - vm_compute. reflexivity.
  - reflexivity.
  - exists p'. split; [exact H1 | exact H2].
Defined.

(** ** Reading back what was sent *)

Section ReadBackFacts.

Lemma getData_ok (s : Link) (message resp : bytes) (lines : list bytes)
    (reads chunks : list bytes) (eot : bytes) (rest : list bytes) :
  rx_lines (port s) = resp :: lines ->
  checkNMEAChecksum resp = Ok tt ->
  startswith (b_ "$POEM200,12") resp = true ->
  waiting s = reads ++ (4 :: eot) :: rest ->
  received reads chunks ->
  exists s',
    getData message s = (Ok chunks, s')
    /\ baudrate (port s') = 9600
    /\ waiting s' = rest.
Proof.
  intros Hlines Hchk Hstart Hw Hrec. unfold getData.
  rewrite (getData_prelude message s resp lines Hlines Hchk Hstart).
  unfold bind at 1. cbn [waiting].
  rewrite (getData_loop_ok reads chunks Hrec _ [] _ eot rest);
    [|exact Hw | rewrite Hw, length_app; cbn [length]; lia].
  unfold bind at 1. unfold on_port at 1, setBaudrate. cbn [port waiting].
  unfold ret. eexists. split; [reflexivity|]. split; reflexivity.
Qed.

Lemma Route_padded (pts : list RoutePoint.t) (tail : bytes) :
  Forall encodable pts -> Z.of_nat (length pts) < 65536 ->
  exists raw r,
    Route.toBin pts = Ok raw
    /\ Route.fromBin (raw ++ tail) = Ok r
    /\ Route.points r = map decoded pts.
Proof.
  intros Hpts Hn.
  destruct (Route_toBin_image pts Hpts Hn)
    as (bins & glyphs & csv & E & Hcs & B2 & B3 & B4 & HCT & G2 & Hctl).
  pose proof (length_pieces 76 bins B2) as L1.
  pose proof (length_charTableBin (Route.outCharTable pts)) as L2.
  eexists. eexists. split; [exact E|].
  match goal with
  | |- Route.fromBin (route_image ?n ?o1 ?o2 ?o3 ?c ?PD ?CT ?BM ++ tail) = _ /\ _ =>
      assert (Eimg : route_image n o1 o2 o3 c PD CT BM ++ tail
                     = route_image n o1 o2 o3 c PD CT (BM ++ tail))
        by (unfold route_image; rewrite <- !app_assoc; reflexivity)
  end.
  rewrite Eimg. split.
  - unfold Route.fromBin.
    apply (parseBin_image _ _ _ _ _ _ _ _ bins (Route.outCharTable pts) (map decoded pts));
      try reflexivity; try assumption.
    + lia.
    + change (2 ^ 32) with 4294967296. lia.
    + change (2 ^ 32) with 4294967296. lia.
    + rewrite Nat2Z.id. exact B3.
  - reflexivity.
Qed.

(** The first byte of the piece number [j] of a list of pieces of one
    length. *)
Lemma nth_concat_pieces n (bins : list bytes) :
  (0 < n)%nat -> Forall (fun r => length r = n) bins ->
  forall j, (j < length bins)%nat ->
    nth (j * n) (concat bins) 0 = nth 0 (nth j bins []) 0.
Proof.
  intros Hn Hall. induction Hall as [|r bins Hr _ IH]; intros j Hj;
    [cbn [length] in Hj; lia|].
  cbn [concat]. destruct j as [|j].
  - cbn [Nat.mul nth]. rewrite app_nth1 by lia. reflexivity.
  - rewrite app_nth2 by (rewrite Hr; lia).
    replace (S j * n - length r)%nat with (j * n)%nat by (rewrite Hr; lia).
    cbn [nth]. apply IH. cbn [length] in Hj. lia.
Qed.

Lemma pieces_clean n (bins : list bytes) :
  (0 < n)%nat -> Forall (fun r => length r = n) bins ->
  Forall (fun r => nth 0 r 0 <> 255) bins ->
  record_starts_clean n (concat bins).
Proof.
  intros Hn Hlen Hfirst j Hj.
  rewrite (length_pieces n bins Hlen) in Hj.
  assert (Hjl : (j < length bins)%nat) by nia.
  rewrite (nth_concat_pieces n bins Hn Hlen j Hjl).
  rewrite List.Forall_forall in Hfirst. apply Hfirst. apply nth_In. exact Hjl.
Qed.

(** Chunks whose payloads join to aligned, clean data, the last one filled
    up with 0xff. *)
Lemma parseChunks_padded n q (pre : list bytes) (c : bytes) k :
  (0 < n)%nat ->
  record_starts_clean n (concat pre ++ c) ->
  length (concat pre ++ c) = (q * n)%nat ->
  parseChunks (pre ++ [c ++ repeat 255 k]) n = Ok (chop n (concat pre ++ c)).
Proof.
  intros Hn Hclean Hlen. unfold parseChunks. rewrite parseChunks_loop_app.
  rewrite <- (chop_nil n Hn) at 1.
  rewrite (parseChunks_loop_lines n Hn pre [])
    by (cbn [app]; eapply (clean_prefix n Hn); eassumption).
  cbn [rbind parseChunks_loop app].
  rewrite (parseChunks_step_lines n Hn (concat pre) c (repeat 255 k));
    [reflexivity | assumption |].
  right. exists q, k. split; [assumption | reflexivity].
Qed.

Lemma Pois_records (astimezone : DateTime -> DateTime) (pois : list Poi.t) :
  Forall Poi.encodable pois ->
  Forall (fun p => year (Poi.timeString p) < 2155) pois ->
  exists bins,
    mapM Poi.toBin pois = Ok bins
    /\ length bins = length pois
    /\ Forall (fun r => length r = 16%nat) bins
    /\ Forall (fun r => nth 0 r 0 <> 255) bins
    /\ mapM (Poi.fromBin astimezone) bins = Ok (map (Poi.decoded astimezone) pois).
Proof.
  intros Henc Hyear. induction Henc as [|p pois Hp _ IH].
  - exists []. repeat split; constructor.
  - inversion Hyear as [|? ? Hy Hyear']; subst.
    destruct (IH Hyear') as (bins & E1 & E2 & E3 & E4 & E5).
    destruct Hp as ((a & Ha & Ra) & (b & Hb & Rb) & Hsym & Hyr & Ht).
    pose proof (Poi_toBin_ok p a b Ha Hb Ra Rb Hsym Hyr Ht) as Hto.
    pose proof (Poi_fromBin_ok astimezone (Poi.timeString p) (Poi.symbol p) a b
                  Ra Rb Ht) as Hfrom.
    eexists (_ :: bins). cbn [mapM map]. rewrite Hto. cbn [rbind].
    rewrite E1. cbn [rbind]. split; [reflexivity|].
    split; [cbn [length]; lia|].
    split; [constructor; [|exact E3];
            cbn [length app]; rewrite length_app, !length_le_bytes; reflexivity|].
    split; [constructor; [|exact E4]; cbn [app nth]; lia|].
    rewrite Hfrom. cbn [rbind]. rewrite E5. cbn [rbind]. f_equal. f_equal.
    unfold Poi.decoded. rewrite Ha, Hb. reflexivity.
Qed.

End ReadBackFacts.

(** A route read from the device.  When the chunks that arrive hold the
    bytes of an encodable route, followed by anything (the filling of the
    last chunk), [getRoute] returns the points of that route, the
    coordinates as floats, and leaves the port at 9600 baud. *)
Theorem getRoute_reads_back (s : Link) (resp : bytes) (lines : list bytes)
    (reads chunks : list bytes) (eot : bytes) (rest : list bytes)
    (pts : list RoutePoint.t) (raw tail : bytes) :
  rx_lines (port s) = resp :: lines ->
  checkNMEAChecksum resp = Ok tt ->
  startswith (b_ "$POEM200,12") resp = true ->
  waiting s = reads ++ (4 :: eot) :: rest ->
  received reads chunks ->
  Forall encodable pts -> Z.of_nat (length pts) < 65536 ->
  Route.toBin pts = Ok raw ->
  concat chunks = raw ++ tail ->
  exists r s',
    getRoute s = (Ok r, s')
    /\ Route.points r = map decoded pts
    /\ baudrate (port s') = 9600.
Proof.
  intros Hlines Hchk Hstart Hw Hrec Hpts Hn Hraw Hcat.
  destruct (Route_padded pts tail Hpts Hn) as (raw' & r & E1 & E2 & E3).
  assert (raw' = raw) by congruence. subst raw'.
  destruct (getData_ok s (b_ "$POEM12,12") resp lines reads chunks eot rest
              Hlines Hchk Hstart Hw Hrec) as (s' & G1 & G2 & _).
  exists r, s'. unfold getRoute, bind. rewrite G1. unfold lift.
  rewrite Hcat, E2. split; [reflexivity|]. split; assumption.
Qed.

Lemma getRoute_reads_back_witness :
  exists r s',
    getRoute
      (mkLink (scripted_port [b_ "$POEM200,12*0A"] [] 50)
         [device_chunk 1 sample_route_bytes; [4]])
    = (Ok r, s')
    /\ Route.points r = [RoutePoint.mk [72; 105] 4 (MulEm5 4941000) (MulEm5 869000)].
Proof.
  destruct (getRoute_reads_back
              (mkLink (scripted_port [b_ "$POEM200,12*0A"] [] 50)
                 [device_chunk 1 sample_route_bytes; [4]])
              (b_ "$POEM200,12*0A") []
              [device_chunk 1 sample_route_bytes]
              [sample_route_bytes ++ repeat 255 856] [] []
              [RoutePoint.fromGpxValues 869000 4941000 [72; 105] "left"]
              sample_route_bytes (repeat 255 856))
    as (r & s' & H1 & H2 & _).
  - reflexivity.
  - vm_compute. reflexivity.
  - vm_compute. reflexivity.
  - reflexivity.
  - constructor; [vm_compute; reflexivity | constructor].
  - constructor; [|constructor]. unfold encodable. cbn.
    split; [lia|]. split.
    + constructor; [split; [lia | reflexivity]|].
      constructor; [split; [lia | reflexivity]|]. constructor.
    + split; [lia|]. split; eexists; (split; [reflexivity | lia]).
  - cbn [length]. lia.
  - vm_compute. reflexivity.
  - cbn [concat]. apply app_nil_r.
  - exists r, s'. split; [exact H1 | exact H2].
Defined.

(** Points of interest read from the device.  When the chunks that arrive
    hold the records of encodable points of interest (with a year before
    2155, whose byte 0xff would pass for filling when a chunk ends behind
    it), wherever the chunk boundaries fall and with the last chunk filled up
    with 0xff, [getPois] returns these points, one for each 16 bytes, the
    coordinates as floats and the time in the local zone. *)
Theorem getPois_reads_back (astimezone : DateTime -> DateTime) (s : Link)
    (resp : bytes) (lines : list bytes) (reads pre : list bytes) (c : bytes)
    (k : nat) (eot : bytes) (rest : list bytes) (pois : list Poi.t) :
  rx_lines (port s) = resp :: lines ->
  checkNMEAChecksum resp = Ok tt ->
  startswith (b_ "$POEM200,12") resp = true ->
  waiting s = reads ++ (4 :: eot) :: rest ->
  received reads (pre ++ [c ++ repeat 255 k]) ->
  Forall Poi.encodable pois ->
  Forall (fun p => year (Poi.timeString p) < 2155) pois ->
  Pois.toBin pois = Ok (concat pre ++ c) ->
  exists s',
    getPois astimezone s = (Ok (map (Poi.decoded astimezone) pois), s')
    /\ baudrate (port s') = 9600.
Proof.
  intros Hlines Hchk Hstart Hw Hrec Henc Hyear Hdata.
  destruct (Pois_records astimezone pois Henc Hyear) as (bins & B1 & B2 & B3 & B4 & B5).
  unfold Pois.toBin in Hdata. rewrite B1 in Hdata. cbn [rbind] in Hdata.
  injection Hdata as Hdata.
  destruct (getData_ok s (b_ "$POEM12,2") resp lines reads _ eot rest
              Hlines Hchk Hstart Hw Hrec) as (s' & G1 & G2 & _).
  exists s'. unfold getPois, bind. rewrite G1. unfold lift.
  rewrite (parseChunks_padded 16 (length bins) pre c k);
    [|lia
     |rewrite <- Hdata; apply pieces_clean; [lia | assumption | assumption]
     |rewrite <- Hdata; apply length_pieces; assumption].
  rewrite <- Hdata, chop_pieces by (lia || assumption).
  unfold Pois.fromLines. rewrite B5. split; [reflexivity | exact G2].
Qed.

Lemma getPois_reads_back_witness :
  exists s',
    getPois (fun t => t)
      (mkLink (scripted_port [b_ "$POEM200,12*0A"] [] 50)
         [device_chunk 1 ([115; 2; 2; 12; 30; 0; 3; 160]
                          ++ [200; 100; 75; 0] ++ [136; 66; 13; 0]);
          [4]])
    = (Ok [Poi.mk (DivE5 4941000) (DivE5 869000) 3 (mkDateTime 2015 2 2 12 30 0)], s').
Proof.
  destruct (getPois_reads_back (fun t => t)
              (mkLink (scripted_port [b_ "$POEM200,12*0A"] [] 50)
                 [device_chunk 1 ([115; 2; 2; 12; 30; 0; 3; 160]
                                  ++ [200; 100; 75; 0] ++ [136; 66; 13; 0]);
                  [4]])
              (b_ "$POEM200,12*0A") []
              [device_chunk 1 ([115; 2; 2; 12; 30; 0; 3; 160]
                               ++ [200; 100; 75; 0] ++ [136; 66; 13; 0])]
              []
              ([115; 2; 2; 12; 30; 0; 3; 160] ++ [200; 100; 75; 0] ++ [136; 66; 13; 0])
              1008 [] []
              [Poi.fromGpxValues 869000 4941000 (mkDateTime 2015 2 2 12 30 0) 3])
    as (s' & H & _).
  - reflexivity.
  - vm_compute. reflexivity.
  - vm_compute. reflexivity.
  - reflexivity.
  - constructor; [vm_compute; reflexivity | constructor].
  - constructor; [|constructor]. unfold Poi.encodable. cbn.
    repeat split; try lia; try reflexivity; eexists; (split; [reflexivity | lia]).
  - constructor; [cbn; lia | constructor].
  - vm_compute. reflexivity.
  - exists s'. exact H.
Defined.

(** ** Waiting for an acknowledge *)

Section WaitFacts.
Local Open Scope nat_scope.

(** The loop reads past everything that is neither an acknowledge nor a
    negative acknowledge, as long as the clock stays within the bound. *)
Lemma wait_loop_ack timeout start junk :
  forall p fuel b rest,
    rx_bytes p = junk ++ Some b :: rest ->
    Forall not_ack junk ->
    (b = 6 \/ b = 21)%Z ->
    (forall i, i < length junk -> (clock p (ticks p + i) - start <= timeout)%Z) ->
    length junk < fuel ->
    wait_loop fuel start timeout p
    = (Ok (b =? 6)%Z, port_after p (length junk) [] rest).
Proof.
  assert (Hother : forall (o : option Z) (A : Type) (x y m : A), not_ack o ->
            match o with
            | Some b => if (b =? 21)%Z then x else if (b =? 6)%Z then y else m
            | None => m
            end = m).
  { intros [b|] A x y m [H6 H21]; [|reflexivity].
    destruct (Z.eqb_spec b 21); [subst; congruence|].
    destruct (Z.eqb_spec b 6); [subst; congruence|]. reflexivity. }
  induction junk as [|o junk IH]; intros p fuel b rest Hrx Hna Hb Hle Hfuel;
    (destruct fuel as [|fuel]; [cbn in Hfuel; lia|]); cbn [wait_loop]; unfold bind at 1;
    cbn [app] in Hrx; rewrite (readByte_after p _ _ Hrx).
  - cbn [length]. destruct Hb as [-> | ->]; reflexivity.
  - rewrite Hother by (inversion Hna; assumption).
    unfold bind. rewrite time_time_after. cbn [port_after clock ticks].
    cbn [length] in *. rewrite !Nat.add_0_r.
    pose proof (Hle 0 ltac:(lia)) as H0. rewrite Nat.add_0_r in H0.
    destruct (Z.gtb_spec (clock p (ticks p) - start) timeout); [lia|].
    rewrite port_after_after.
    rewrite (IH _ fuel b rest).
    + rewrite port_after_after. f_equal.
    + reflexivity.
    + inversion Hna; assumption.
    + exact Hb.
    + intros i Hi. cbn [port_after clock ticks].
      replace (ticks p + (0 + 1) + i) with (ticks p + S i) by lia. apply Hle. lia.
    + lia.
Qed.

End WaitFacts.

(** While it waits, [waitForAcknowledge] skips every read that brings
    neither 0x06 nor 0x15 - another byte, or none - as long as the clock
    stays within the bound, and answers to the first 0x06 with [True] and to
    the first 0x15 with [False]; it reads nothing behind that byte and
    writes nothing. *)
Theorem waitForAcknowledge_skips (timeout : Z) (p : Port)
    (junk : list (option Z)) (b : Z) (rest : list (option Z)) :
  rx_bytes p = junk ++ Some b :: rest ->
  Forall not_ack junk ->
  b = 6 \/ b = 21 ->
  (forall i, (i < length junk)%nat ->
     clock p (ticks p + 1 + i) - clock p (ticks p) <= timeout) ->
  waitForAcknowledge timeout p
  = (Ok (b =? 6), port_after p (1 + length junk) [] rest).
Proof.
  intros Hrx Hna Hb Hle. unfold waitForAcknowledge, wait_body, bind.
  rewrite time_time_after. cbn [port_after rx_bytes].
  rewrite (wait_loop_ack timeout _ junk _ _ b rest);
    cbn [port_after rx_bytes clock ticks]; try assumption.
  - rewrite port_after_after. reflexivity.
  - rewrite Hrx, length_app. cbn [length]. lia.
Qed.

Lemma waitForAcknowledge_skips_witness :
  waitForAcknowledge default_timeout
    (scripted_port [] [None; Some 67; None; Some 21; Some 6] 1000)
  = (Ok false,
     port_after (scripted_port [] [None; Some 67; None; Some 21; Some 6] 1000)
       4 [] [Some 6]).
Proof.
  apply (waitForAcknowledge_skips default_timeout
           (scripted_port [] [None; Some 67; None; Some 21; Some 6] 1000)
           [None; Some 67; None] 21 [Some 6]).
  - reflexivity.
  - repeat (constructor; [split; discriminate|]). constructor.
  - right. reflexivity.
  - intros i Hi. cbn [length] in Hi. unfold default_timeout.
    destruct i as [|[|[|i]]]; cbn; lia.
Defined.

(** ** The largest route *)

(** A route of [n] encodable points whose character table has [k] entries
    takes [20 + 76 n + 24 k] bytes, so one with more than 255 * 1024 of them
    - any route of more than 3435 points - cannot be sent: [sendRoute]
    announces the transfer, switches to 115200 baud and then raises
    ValueError, with nothing but the command written and the port left at
    115200 baud. *)
Theorem sendRoute_too_long (pts : list RoutePoint.t) (p : Port)
    (resp : bytes) (lines : list bytes) :
  Forall encodable pts ->
  Z.of_nat (length pts) < 65536 ->
  255 * 1024 < 20 + 76 * Z.of_nat (length pts)
               + 24 * Z.of_nat (length (Route.outCharTable pts)) ->
  rx_lines p = resp :: lines ->
  startswith (b_ "$POEM200,12") resp = true ->
  exists p',
    sendRoute pts p = (Raise ValueError, p')
    /\ baudrate p' = 115200
    /\ tx p' = tx p ++ [b_ "$POEM12,11*" ++ calcNMEAChecksum (b_ "$POEM12,11") true
                        ++ [13; 10]]
    /\ rx_bytes p' = rx_bytes p.
Proof.
  intros Hpts Hn Hbig Hlines Hstart.
  destruct (Route_toBin_image pts Hpts Hn)
    as (bins & glyphs & csv & E & Hcs & B2 & B3 & B4 & HCT & G2 & Hctl).
  pose proof (length_pieces 76 bins B2) as L1.
  pose proof (length_charTableBin (Route.outCharTable pts)) as L2.
  eexists. unfold sendRoute, bind, lift. rewrite E. split.
  - apply (sendData_prelude _ _ _ _ resp lines);
      [assumption | discriminate | assumption |].
    apply makeChunks_too_long.
    unfold route_image. rewrite !length_app.
    change (length (route_header _ _ _ _)) with 18%nat.
    rewrite length_le_bytes. lia.
  - repeat split.
Qed.

Lemma sendRoute_too_long_witness :
  exists p',
    sendRoute (repeat (RoutePoint.fromGpxValues 869000 4941000 [72; 105] "left") 3436)
      (scripted_port [b_ "$POEM200,12,011*00"] [] 50)
    = (Raise ValueError, p')
    /\ baudrate p' = 115200.
Proof.
  destruct (sendRoute_too_long
              (repeat (RoutePoint.fromGpxValues 869000 4941000 [72; 105] "left") 3436)
              (scripted_port [b_ "$POEM200,12,011*00"] [] 50)
              (b_ "$POEM200,12,011*00") [])
    as (p' & H1 & H2 & _).
  - apply List.Forall_forall. intros x Hx. apply repeat_spec in Hx. subst x.
    unfold encodable. cbn.
    split; [lia|]. split.
    + repeat (constructor; [split; [lia | reflexivity]|]). constructor.
    + split; [lia|]. split; eexists; (split; [reflexivity | lia]).
  - rewrite repeat_length. lia.
  - rewrite repeat_length. lia.
  - reflexivity.
  - vm_compute. reflexivity.
  - exists p'. split; [exact H1 | exact H2].
Defined.

(** ** The date prefix of a track section *)

Section TrackDateFacts.
Context {point : Type}.
Variable timestamp : point -> Z.
Variable timestamp2Date : Z -> string.

Lemma makeDatePrefix_nonempty (pts : list point) :
  pts <> [] ->
  exists s, makeDatePrefix timestamp timestamp2Date (mkTrack pts) = Ok s.
Proof.
  intros Hne. unfold makeDatePrefix. cbn [points].
  destruct pts as [|q pts]; [congruence|].
  cbn [index nth_error rbind].
  unfold index_neg, index.
  destruct (Nat.ltb_spec (length (q :: pts)) 1) as [H|H]; [cbn [length] in H; lia|].
  destruct (nth_error (q :: pts) (length (q :: pts) - 1)) as [final|] eqn:E.
  - cbn [rbind]. destruct (String.eqb _ _); eexists; reflexivity.
  - apply nth_error_None in E. cbn [length] in *. lia.
Qed.

End TrackDateFacts.

(** Every Track that [split] makes of a track with at least one point has a
    first and a last point, so [makeDatePrefix] returns on each of them; the
    one Track that [split] returns for a track without points (as read from
    a device that has recorded nothing) makes it raise IndexError. *)
Theorem makeDatePrefix_split (point : Type) (timestamp : point -> Z)
    (timestamp2Date : Z -> string) (self : Track point) (minTimeDiff : Z) :
  (points self <> [] ->
   Forall (fun t => exists s, makeDatePrefix timestamp timestamp2Date t = Ok s)
     (split timestamp self minTimeDiff))
  /\ (points self = [] ->
      map (makeDatePrefix timestamp timestamp2Date) (split timestamp self minTimeDiff)
      = [Raise IndexError]).
Proof.
  destruct self as [pts]. cbn [points]. split.
  - intros Hne. destruct pts as [|q pts]; [congruence|].
    unfold split. cbn [points]. rewrite split_sections_cons.
    apply Forall_map. constructor.
    + apply makeDatePrefix_nonempty. discriminate.
    + eapply List.Forall_impl; [|apply runs_nonempty].
      intros s Hs. apply makeDatePrefix_nonempty. exact Hs.
  - intros ->. reflexivity.
Qed.

(** ** Reading a configuration response *)

Section SplitFacts.

Lemma split_on_none (sep : Z) (h : bytes) :
  Forall (fun b => b <> sep) h -> split_on sep h = [h].
Proof.
  induction 1 as [|a h Ha Hh IH]; cbn [split_on]; [reflexivity|].
  destruct (Z.eqb_spec a sep); [contradiction|]. rewrite IH. reflexivity.
Qed.

Lemma split_on_app (sep : Z) (h r : bytes) :
  Forall (fun b => b <> sep) h ->
  split_on sep (h ++ sep :: r) = h :: split_on sep r.
Proof.
  induction 1 as [|a h Ha Hh IH]; cbn [app split_on].
  - rewrite Z.eqb_refl. reflexivity.
  - destruct (Z.eqb_spec a sep); [contradiction|]. rewrite IH. reflexivity.
Qed.

Lemma join_cons (h : bytes) (fs : list bytes) :
  join [44] (h :: fs) = h ++ concat (map (cons 44) fs).
Proof.
  revert h. induction fs as [|f fs IH]; intros h.
  - cbn. rewrite app_nil_r. reflexivity.
  - change (join [44] (h :: f :: fs)) with (h ++ [44] ++ join [44] (f :: fs)).
    rewrite IH. reflexivity.
Qed.

Lemma split_on_fields (fs : list bytes) :
  forall h, Forall (fun b => b <> 44) h ->
    Forall (Forall (fun b => b <> 44)) fs ->
    split_on 44 (h ++ concat (map (cons 44) fs)) = h :: fs.
Proof.
  induction fs as [|f fs IH]; intros h Hh Hfs.
  - cbn [map concat]. rewrite app_nil_r. apply split_on_none, Hh.
  - inversion Hfs as [|? ? Hf Hfs']; subst. cbn [map concat app].
    rewrite split_on_app by exact Hh. f_equal. apply IH; assumption.
Qed.

(** The fields of a line [head,f1,...,fn*tail]. *)
Lemma config_fields_line (head : bytes) (fs : list bytes) (tail : bytes) :
  Forall (Forall (fun b => b <> 44 /\ b <> 42)) (head :: fs) ->
  config_fields (join (b_ ",") (head :: fs) ++ b_ "*" ++ tail) = Ok fs.
Proof.
  intros Hclean. inversion Hclean as [|? ? Hh Hfs]; subst.
  change (b_ ",") with [44]. change (b_ "*" ++ tail) with (42 :: tail).
  rewrite join_cons. unfold config_fields, strip.
  set (body := concat (map (cons 44) fs)).
  assert (Hbody : Forall (fun b => b <> 42) body).
  { unfold body. clear -Hfs. induction Hfs as [|f fs Hf _ IH]; cbn [map concat];
      [constructor|].
    constructor; [discriminate|]. apply Forall_app. split; [|exact IH].
    eapply List.Forall_impl; [|exact Hf]. intros b Hb. exact (proj2 Hb). }
  assert (E1 : lstrip ((head ++ body) ++ 42 :: tail)
               = (lstrip head ++ body) ++ 42 :: tail).
  { rewrite <- !app_assoc. destruct body as [|c body'] eqn:Eb.
    - cbn [app]. apply lstrip_app_stop. reflexivity.
    - assert (c = 44) as ->.
      { unfold body in Eb. destruct fs; cbn in Eb; [discriminate | congruence]. }
      cbn [app]. apply lstrip_app_stop. reflexivity. }
  rewrite E1. rewrite rev_app_distr. cbn [rev]. rewrite <- app_assoc. cbn [app].
  rewrite lstrip_app_stop by reflexivity.
  rewrite rev_app_distr. cbn [rev]. rewrite rev_involutive, <- app_assoc. cbn [app].
  rewrite split_on_app.
  - cbn [index nth_error rbind]. unfold body. rewrite split_on_fields.
    + reflexivity.
    + apply lstrip_Forall. eapply List.Forall_impl; [|exact Hh].
      intros b Hb. exact (proj1 Hb).
    + eapply List.Forall_impl; [|exact Hfs]. intros f Hf.
      eapply List.Forall_impl; [|exact Hf]. intros b Hb. exact (proj1 Hb).
  - apply Forall_app. split; [|exact Hbody].
    apply lstrip_Forall. eapply List.Forall_impl; [|exact Hh].
    intros b Hb. exact (proj2 Hb).
Qed.

End SplitFacts.

Section ParseItemsFacts.
Variable int_of_bytes : bytes -> result Z.

Lemma index_app_length {A : Type} (pre : list A) (x : A) (post : list A) :
  index (length pre) (pre ++ x :: post) = Ok x.
Proof.
  unfold index. rewrite nth_error_app2 by lia. rewrite Nat.sub_diag. reflexivity.
Qed.

(** The loop stores the integer of the [i]-th field under the [i]-th item. *)
Lemma parse_items_ok (items : list string) :
  forall fs vs pre more cfg,
    List.Forall2 (fun f v => int_of_bytes f = Ok v) fs vs ->
    length fs = length items ->
    NoDup items ->
    parse_items int_of_bytes (length pre) items (pre ++ fs ++ more) cfg
    = Ok (list_to_map (zip items (VInt <$> vs)) ∪ cfg).
Proof.
  induction items as [|item items IH]; intros fs vs pre more cfg Hint Hlen Hnd.
  - cbn [parse_items zip_with]. cbn. rewrite (left_id_L ∅ (∪)). reflexivity.
  - destruct Hint as [|f v fs vs Hf Hint]; [discriminate|].
    cbn [parse_items app]. rewrite index_app_length. cbn [rbind]. rewrite Hf.
    cbn [rbind].
    apply NoDup_cons in Hnd. destruct Hnd as [Hnotin Hnd].
    pose proof (IH fs vs (pre ++ [f]) more (<[item := VInt v]> cfg) Hint
                  ltac:(cbn [length] in Hlen; lia) Hnd) as H.
    rewrite length_app in H. cbn [length] in H. rewrite Nat.add_1_r in H.
    rewrite <- app_assoc in H. cbn [app] in H. rewrite H.
    f_equal. cbn [fmap list_fmap zip_with list_to_map uncurry].
    change (zip_with pair items (list_fmap Z value VInt vs))
      with (zip items (VInt <$> vs)).
    rewrite list_to_map_cons, <- insert_union_l. symmetry. apply insert_union_r.
    apply not_elem_of_list_to_map_1. rewrite fst_zip; [exact Hnotin|].
    rewrite length_fmap. apply List.Forall2_length in Hint.
    cbn [length] in Hlen. lia.
Qed.

(** It runs out of fields when there are fewer of them than items. *)
Lemma parse_items_short (items : list string) :
  forall fs pre cfg,
    Forall (fun f => exists v, int_of_bytes f = Ok v) fs ->
    (length fs < length items)%nat ->
    parse_items int_of_bytes (length pre) items (pre ++ fs) cfg = Raise IndexError.
Proof.
  induction items as [|item items IH]; intros fs pre cfg Hint Hlen;
    [cbn [length] in Hlen; lia|].
  destruct Hint as [|f fs [v Hf] Hint].
  - cbn [parse_items]. rewrite app_nil_r. unfold index.
    destruct (nth_error pre (length pre)) eqn:E; [|reflexivity].
    assert (nth_error pre (length pre) <> None) as Hn by congruence.
    apply nth_error_Some in Hn. lia.
  - cbn [parse_items]. rewrite index_app_length. cbn [rbind]. rewrite Hf.
    cbn [rbind].
    pose proof (IH fs (pre ++ [f]) (<[item := VInt v]> cfg) Hint
                  ltac:(cbn [length] in Hlen; lia)) as H.
    rewrite length_app in H. cbn [length] in H. rewrite Nat.add_1_r in H.
    rewrite <- app_assoc in H. exact H.
Qed.

Lemma config_items_distinct :
  NoDup DeviceConfig.deviceConfigItems /\ NoDup DeviceConfig.recordConfigItems.
Proof. split; apply (bool_decide_unpack _); vm_compute; exact I. Qed.

End ParseItemsFacts.

(** Of a response [head,f1,...,f7,...*checksum] the parsers read the first
    seven fields behind the head, in the order of the item lists, as
    integers, and pay no attention to further fields or to the checksum;
    [parseRecordConfig] reads the disk use from the last field of the line,
    whichever it is. *)
Theorem parseConfig_fields (int_of_bytes : bytes -> result Z) (float : Type)
    (float_of_bytes : bytes -> result float)
    (head : bytes) (fs more : list bytes) (tail : bytes) (vs : list Z) :
  Forall (Forall (fun b => b <> 44 /\ b <> 42)) (head :: fs ++ more) ->
  length fs = 7%nat ->
  List.Forall2 (fun f v => int_of_bytes f = Ok v) fs vs ->
  parseDeviceConfig int_of_bytes
    (join (b_ ",") (head :: fs ++ more) ++ b_ "*" ++ tail)
  = Ok (list_to_map (zip DeviceConfig.deviceConfigItems (VInt <$> vs)))
  /\ forall front final diskUse,
       fs ++ more = front ++ [final] ->
       float_of_bytes final = Ok diskUse ->
       parseRecordConfig int_of_bytes float float_of_bytes
         (join (b_ ",") (head :: fs ++ more) ++ b_ "*" ++ tail)
       = Ok (list_to_map (zip DeviceConfig.recordConfigItems (VInt <$> vs)), diskUse).
Proof.
  intros Hclean Hlen Hint.
  destruct config_items_distinct as [Hd Hr].
  pose proof (parse_items_ok int_of_bytes DeviceConfig.deviceConfigItems
                fs vs [] more ∅ Hint Hlen Hd) as H1.
  pose proof (parse_items_ok int_of_bytes DeviceConfig.recordConfigItems
                fs vs [] more ∅ Hint Hlen Hr) as H2.
  rewrite (right_id_L ∅ (∪)) in H1, H2. cbn [length app] in H1, H2.
  split.
  - unfold parseDeviceConfig. rewrite config_fields_line by exact Hclean.
    cbn [rbind]. exact H1.
  - intros front final diskUse Hlast Hfloat.
    unfold parseRecordConfig. rewrite config_fields_line by exact Hclean.
    cbn [rbind]. rewrite H2. cbn [rbind].
    rewrite Hlast, index_neg_1_snoc. cbn [rbind]. rewrite Hfloat. reflexivity.
Qed.

Lemma parseConfig_fields_witness :
  parseDeviceConfig decimal_int_bytes
    (join (b_ ",") (b_ "$POEM103" :: [b_ "2"; b_ "10"; b_ "30"; b_ "0"; b_ "-1"; b_ "1"; b_ "0"]
                    ++ [])
     ++ b_ "*" ++ b_ "1D")
  = Ok (list_to_map (zip DeviceConfig.deviceConfigItems (VInt <$> [2; 10; 30; 0; -1; 1; 0]))).
Proof.
  apply (parseConfig_fields decimal_int_bytes Z decimal_int_bytes (b_ "$POEM103")
           [b_ "2"; b_ "10"; b_ "30"; b_ "0"; b_ "-1"; b_ "1"; b_ "0"] [] (b_ "1D")
           [2; 10; 30; 0; -1; 1; 0]).
  - repeat (constructor; [repeat (constructor; [split; discriminate|]); constructor|]).
    constructor.
  - reflexivity.
  - repeat (constructor; [vm_compute; reflexivity|]). constructor.
Defined.

(** A response with fewer than seven fields behind its head, all of them
    integers, makes both parsers raise IndexError. *)
Theorem parseConfig_short (int_of_bytes : bytes -> result Z) (float : Type)
    (float_of_bytes : bytes -> result float)
    (head : bytes) (fs : list bytes) (tail : bytes) :
  Forall (Forall (fun b => b <> 44 /\ b <> 42)) (head :: fs) ->
  (length fs < 7)%nat ->
  Forall (fun f => exists v, int_of_bytes f = Ok v) fs ->
  parseDeviceConfig int_of_bytes (join (b_ ",") (head :: fs) ++ b_ "*" ++ tail)
  = Raise IndexError
  /\ parseRecordConfig int_of_bytes float float_of_bytes
       (join (b_ ",") (head :: fs) ++ b_ "*" ++ tail)
     = Raise IndexError.
Proof.
  intros Hclean Hlen Hint.
  pose proof (parse_items_short int_of_bytes DeviceConfig.deviceConfigItems
                fs [] ∅ Hint Hlen) as H1.
  pose proof (parse_items_short int_of_bytes DeviceConfig.recordConfigItems
                fs [] ∅ Hint Hlen) as H2.
  cbn [length app] in H1, H2.
  unfold parseDeviceConfig, parseRecordConfig.
  rewrite config_fields_line by exact Hclean. cbn [rbind].
  rewrite H1, H2. split; reflexivity.
Qed.

Lemma parseConfig_short_witness :
  parseDeviceConfig decimal_int_bytes
    (join (b_ ",") [b_ "$POEM103"; b_ "2"; b_ "10"] ++ b_ "*" ++ b_ "1D")
  = Raise IndexError.
Proof.
  apply (parseConfig_short decimal_int_bytes Z decimal_int_bytes (b_ "$POEM103")
           [b_ "2"; b_ "10"] (b_ "1D")).
  - repeat (constructor; [repeat (constructor; [split; discriminate|]); constructor|]).
    constructor.
  - cbn [length]. lia.
  - repeat (constructor; [eexists; vm_compute; reflexivity|]). constructor.
Defined.

Lemma makeDatePrefix_split_witness :
  Forall (fun t => exists s,
            makeDatePrefix id
              (fun ts => if ts <? 86400 then "700101"%string else "700102"%string) t
            = Ok s)
    (split id (mkTrack [0; 10; 3700; 90000]) 3600).
Proof.
  apply (proj1 (makeDatePrefix_split Z id
                  (fun ts => if ts <? 86400 then "700101"%string else "700102"%string)
                  (mkTrack [0; 10; 3700; 90000]) 3600)).
  cbn [points]. discriminate.
Defined.
